(** * searchbase: suggestion extraction and result normalisation

    A shallow embedding of [packages/searchbase/src/utils.js]
    (getSuggestions, parseField, populateSuggestionsList, extractSuggestion,
    flatten, highlightResults, parseHits, getNormalizedField,
    getNormalizedWeights, isNumber, parseCompAggToHits, withClickIds,
    flatReactProp) and the properties of these functions.

    Modelling conventions.
    - A JavaScript value is a [Value].  Numbers are the integers (of a
      magnitude below 10^21, which JavaScript prints digit by digit), NaN
      and the two infinities; strings are sequences of ASCII characters;
      objects are association lists, their keys enumerated in list order.
      There are no function values.
    - Only own properties are modelled (no prototype chain): a lookup of a
      key that the object does not carry gives [VUndef]; arrays and strings
      carry [length] and their indices.
    - Arrays and objects carry a reference [ref]; [Array.prototype.includes]
      compares them by reference (SameValueZero), primitives by value.
    - A thrown [TypeError] is the [Throw] result.  [String(v)] throws on an
      object with a property [toString] of its own: the property shadows
      [Object.prototype.toString] and is not a function. *)

From Stdlib Require Import List String Ascii ZArith Lia Bool Arith.
From Stdlib Require Import DecimalString.
Import ListNotations.

Set Warnings "-register-all".

Local Open Scope string_scope.
Local Open Scope list_scope.

(** ** Results of fallible code *)

Inductive error : Type := TypeError.

Inductive result (A : Type) : Type :=
| Ok (a : A)
| Throw (e : error).

Arguments Ok {A} a.
Arguments Throw {A} e.

Definition rbind {A B : Type} (r : result A) (k : A -> result B) : result B :=
  match r with
  | Ok a => k a
  | Throw e => Throw e
  end.

Fixpoint rmap {A B : Type} (f : A -> result B) (l : list A) : result (list B) :=
  match l with
  | [] => Ok []
  | x :: t =>
      rbind (f x) (fun y => rbind (rmap f t) (fun ys => Ok (y :: ys)))
  end.

(** [l.some(f)] for a callback that returns or throws. *)
Fixpoint rsome {A : Type} (f : A -> result bool) (l : list A) : result bool :=
  match l with
  | [] => Ok false
  | x :: t => rbind (f x) (fun b => if b then Ok true else rsome f t)
  end.

(** ** Strings *)

Module Str.

Definition is_upper (c : ascii) : bool :=
  (65 <=? nat_of_ascii c)%nat && (nat_of_ascii c <=? 90)%nat.

Definition lower_char (c : ascii) : ascii :=
  if is_upper c then ascii_of_nat (nat_of_ascii c + 32) else c.

(** [String.prototype.toLowerCase] on ASCII strings. *)
Fixpoint toLowerCase (s : string) : string :=
  match s with
  | EmptyString => EmptyString
  | String c t => String (lower_char c) (toLowerCase t)
  end.

(** White space removed by [trim]: TAB, LF, VT, FF, CR and SPACE. *)
Definition is_space (c : ascii) : bool :=
  let n := nat_of_ascii c in
  ((9 <=? n)%nat && (n <=? 13)%nat) || (n =? 32)%nat.

Fixpoint trimStart (s : string) : string :=
  match s with
  | EmptyString => EmptyString
  | String c t => if is_space c then trimStart t else s
  end.

(** Removes trailing white space: a character is kept when something
    non-blank follows it or it is not blank itself. *)
Fixpoint trimEnd (s : string) : string :=
  match s with
  | EmptyString => EmptyString
  | String c t =>
      match trimEnd t with
      | EmptyString => if is_space c then EmptyString else String c EmptyString
      | t' => String c t'
      end
  end.

Definition trim (s : string) : string := trimEnd (trimStart s).

(** [s.split(sep)] for a one-character separator: never empty. *)
Fixpoint split (sep : ascii) (s : string) : list string :=
  match s with
  | EmptyString => [EmptyString]
  | String c t =>
      if Ascii.eqb c sep then EmptyString :: split sep t
      else match split sep t with
           | [] => [String c EmptyString]
           | w :: ws => String c w :: ws
           end
  end.

(** [s.includes(t)]: [t] occurs in [s] as a contiguous substring. *)
Fixpoint includes (s t : string) : bool :=
  String.prefix t s ||
  match s with
  | EmptyString => false
  | String _ s' => includes s' t
  end.

(** [s.substring(n)]: drops the first [n] characters. *)
Fixpoint substring (n : nat) (s : string) : string :=
  match n, s with
  | O, _ => s
  | S n', String _ t => substring n' t
  | S _, EmptyString => EmptyString
  end.

Fixpoint chars (s : string) : list string :=
  match s with
  | EmptyString => []
  | String c t => String c EmptyString :: chars t
  end.

Fixpoint join (sep : string) (l : list string) : string :=
  match l with
  | [] => EmptyString
  | [x] => x
  | x :: t => x ++ sep ++ join sep t
  end.

Definition of_nat (n : nat) : string := NilZero.string_of_uint (Nat.to_uint n).
Definition of_Z (z : Z) : string := NilZero.string_of_int (Z.to_int z).

(** An array index in canonical form ("0", "17", not "017"). *)
Definition to_index (k : string) : option nat :=
  match NilZero.uint_of_string k with
  | Some u =>
      let n := Nat.of_uint u in
      if String.eqb (of_nat n) k then Some n else None
  | None => None
  end.

End Str.

(** ** JavaScript values *)

(** References of arrays and objects: those of the input, and those of the
    arrays the code allocates ([flatten] returns a new array). *)
Inductive ref : Type :=
| Input (n : nat)
| Fresh (n : nat).

(** Numbers: the integers [Fin z], taken below 10^21 in magnitude where
    their decimal digits are what JavaScript prints, NaN and the
    infinities. *)
Inductive Num : Type :=
| Fin (z : Z)
| NaN
| PosInf
| NegInf.

Inductive Value : Type :=
| VUndef
| VNull
| VBool (b : bool)
| VNum (n : Num)
| VStr (s : string)
| VArr (r : ref) (elems : list Value)
| VObj (r : ref) (props : list (string * Value)).

(** The property list of an object the code creates. *)
Definition Obj : Type := list (string * Value).

Module Js.

Definition ref_eqb (a b : ref) : bool :=
  match a, b with
  | Input n, Input m => Nat.eqb n m
  | Fresh n, Fresh m => Nat.eqb n m
  | _, _ => false
  end.

Definition num_eqb (a b : Num) : bool :=
  match a, b with
  | Fin x, Fin y => Z.eqb x y
  | NaN, NaN => true
  | PosInf, PosInf => true
  | NegInf, NegInf => true
  | _, _ => false
  end.

(** SameValueZero, the comparison of [Array.prototype.includes]. *)
Definition same_value_zero (x y : Value) : bool :=
  match x, y with
  | VUndef, VUndef => true
  | VNull, VNull => true
  | VBool a, VBool b => Bool.eqb a b
  | VNum a, VNum b => num_eqb a b
  | VStr a, VStr b => String.eqb a b
  | VArr r _, VArr r' _ => ref_eqb r r'
  | VObj r _, VObj r' _ => ref_eqb r r'
  | _, _ => false
  end.

(** [arr.includes(v)] *)
Definition includes (arr : list Value) (v : Value) : bool :=
  existsb (fun x => same_value_zero x v) arr.

(** [typeof v === 'object'] (true of [null]). *)
Definition typeof_object (v : Value) : bool :=
  match v with
  | VNull | VArr _ _ | VObj _ _ => true
  | _ => false
  end.

Definition typeof_string (v : Value) : bool :=
  match v with
  | VStr _ => true
  | _ => false
  end.

Definition isArray (v : Value) : bool :=
  match v with
  | VArr _ _ => true
  | _ => false
  end.

Definition isNullish (v : Value) : bool :=
  match v with
  | VUndef | VNull => true
  | _ => false
  end.

(** ToBoolean. *)
Definition truthy (v : Value) : bool :=
  match v with
  | VUndef | VNull => false
  | VBool b => b
  | VNum (Fin z) => negb (Z.eqb z 0)
  | VNum NaN => false
  | VNum _ => true
  | VStr s => negb (String.eqb s "")
  | VArr _ _ | VObj _ _ => true
  end.

Definition num_toString (n : Num) : string :=
  match n with
  | Fin z => Str.of_Z z
  | NaN => "NaN"
  | PosInf => "Infinity"
  | NegInf => "-Infinity"
  end.

Fixpoint lookup (props : Obj) (k : string) : Value :=
  match props with
  | [] => VUndef
  | (k', v) :: t => if String.eqb k' k then v else lookup t k
  end.

Fixpoint has_key (props : Obj) (k : string) : bool :=
  match props with
  | [] => false
  | (k', _) :: t => String.eqb k' k || has_key t k
  end.

(** [String(v)].  An array is joined with commas, [null] and [undefined]
    elements giving the empty string.  An object without [toString] of its
    own prints as [Object.prototype.toString] has it; with one, which is not
    a function, neither it nor [valueOf] gives a primitive: a [TypeError]. *)
Fixpoint toString (v : Value) : result string :=
  match v with
  | VUndef => Ok "undefined"
  | VNull => Ok "null"
  | VBool true => Ok "true"
  | VBool false => Ok "false"
  | VNum n => Ok (num_toString n)
  | VStr s => Ok s
  | VArr _ elems =>
      rbind
        ((fix each (l : list Value) : result (list string) :=
            match l with
            | [] => Ok []
            | x :: t =>
                rbind (match x with
                       | VUndef | VNull => Ok ""
                       | _ => toString x
                       end)
                      (fun s => rbind (each t) (fun ss => Ok (s :: ss)))
            end) elems)
        (fun ss => Ok (Str.join "," ss))
  | VObj _ props =>
      if has_key props "toString" then Throw TypeError else Ok "[object Object]"
  end.

(** [o[k] = v] on a property list: an existing key keeps its place. *)
Fixpoint set (props : Obj) (k : string) (v : Value) : Obj :=
  match props with
  | [] => [(k, v)]
  | (k', v') :: t =>
      if String.eqb k' k then (k', v) :: t else (k', v') :: set t k v
  end.

Definition nat_num (n : nat) : Value := VNum (Fin (Z.of_nat n)).

(** [v[k]]: a [TypeError] on [null] and [undefined]. *)
Definition get (v : Value) (k : string) : result Value :=
  match v with
  | VUndef | VNull => Throw TypeError
  | VBool _ | VNum _ => Ok VUndef
  | VStr s =>
      if String.eqb k "length" then Ok (nat_num (String.length s))
      else match Str.to_index k with
           | Some i => Ok (nth i (map VStr (Str.chars s)) VUndef)
           | None => Ok VUndef
           end
  | VArr _ elems =>
      if String.eqb k "length" then Ok (nat_num (List.length elems))
      else match Str.to_index k with
           | Some i => Ok (nth i elems VUndef)
           | None => Ok VUndef
           end
  | VObj _ props => Ok (lookup props k)
  end.

Fixpoint indexed (i : nat) (l : list Value) : Obj :=
  match l with
  | [] => []
  | x :: t => (Str.of_nat i, x) :: indexed (S i) t
  end.

(** A property list denotes the object in which each key has its first
    binding; [dedupe] drops the bindings that are shadowed, and is the
    identity on a list without repeated keys. *)
Fixpoint dedupe (props : Obj) : Obj :=
  match props with
  | [] => []
  | (k, v) :: t =>
      (k, v) :: filter (fun kv => negb (String.eqb (fst kv) k)) (dedupe t)
  end.

(** The own enumerable properties of [v], as listed. *)
Definition own (v : Value) : Obj :=
  match v with
  | VObj _ props => props
  | VArr _ elems => indexed 0 elems
  | VStr s => indexed 0 (map VStr (Str.chars s))
  | _ => []
  end.

(** The properties copied by [{...v}]. *)
Definition spread (v : Value) : Obj := dedupe (own v).

(** [Object.keys(v)] for a value other than [null] and [undefined]. *)
Definition keys (v : Value) : list string := map fst (spread v).

(** [{...o, ...v}] *)
Definition assign (o : Obj) (src : Obj) : Obj :=
  fold_left (fun acc kv => set acc (fst kv) (snd kv)) src o.

End Js.

(** ** State and exceptions *)

(** A computation over a state [S] that returns or throws. *)
Definition M (S A : Type) : Type := S -> result (A * S).

Definition ret {S A : Type} (a : A) : M S A := fun st => Ok (a, st).

Definition bind {S A B : Type} (m : M S A) (k : A -> M S B) : M S B :=
  fun st =>
    match m st with
    | Ok (a, st') => k a st'
    | Throw e => Throw e
    end.

Definition lift {S A : Type} (r : result A) : M S A :=
  fun st =>
    match r with
    | Ok a => Ok (a, st)
    | Throw e => Throw e
    end.

Declare Scope js_scope.
Delimit Scope js_scope with js.
Notation "x <- m ;; k" := (bind m (fun x => k))
  (at level 61, m at next level, right associativity) : js_scope.
Notation "m ;; k" := (bind m (fun _ => k))
  (at level 61, right associativity) : js_scope.
Local Open Scope js_scope.

(** [l.forEach(f)] *)
Fixpoint forEach {S A B : Type} (f : A -> M S B) (l : list A) : M S unit :=
  match l with
  | [] => ret tt
  | x :: t => f x ;; forEach f t
  end.

(** [l.some(f)]: stops at the first element for which [f] answers true. *)
Fixpoint some {S A : Type} (f : A -> M S bool) (l : list A) : M S bool :=
  match l with
  | [] => ret false
  | x :: t => b <- f x ;; if b then ret true else some f t
  end.

(** [l.map(f)] *)
Fixpoint mapM {S A B : Type} (f : A -> M S B) (l : list A) : M S (list B) :=
  match l with
  | [] => ret []
  | x :: t => y <- f x ;; ys <- mapM f t ;; ret (y :: ys)
  end.

(** ** The suggestion engine: state *)

Record Suggestion : Type := mkSuggestion {
  label : Value;
  value : Value;
  source : Value
}.

(** The variables [getSuggestions] closes over and mutates, the supply of
    references for the arrays [flatten] allocates, and a log of the values
    handed to [populateSuggestionsList] (the candidates), in call order. *)
Record State : Type := mkState {
  suggestionsList : list Suggestion;
  labelsList : list Value;
  skipWordMatch : bool;
  allocated : nat;
  offered : list Value
}.

(** ** flatten and extractSuggestion *)

(** What [flat.concat(Array.isArray(x) ? flatten(x) : x)] appends. *)
Fixpoint flatten_item (x : Value) : list Value :=
  match x with
  | VArr _ l =>
      (fix reduce (flat l : list Value) {struct l} : list Value :=
         match l with
         | [] => flat
         | y :: t => reduce (flat ++ flatten_item y) t
         end) [] l
  | _ => [x]
  end.

Definition flatten (arr : list Value) : list Value :=
  fold_left (fun flat toFlatten => flat ++ flatten_item toFlatten) arr [].

Definition extractSuggestion (val : Value) : M State Value :=
  fun st =>
    if Js.typeof_object val then
      match val with
      | VArr _ elems =>
          Ok (VArr (Fresh (allocated st)) (flatten elems),
              mkState (suggestionsList st) (labelsList st) (skipWordMatch st)
                      (S (allocated st)) (offered st))
      | _ => Ok (VNull, st)
      end
    else Ok (val, st).

(** ** getSuggestions *)

Section GetSuggestions.

Variable fields : list string.
Variable suggestions : list Value.
Variable currentValue : string.
Variable showDistinctSuggestions : bool.

Definition isWordMatch (skip : bool) (val : Value) : result bool :=
  if skip then Ok true
  else
    rsome (fun term =>
             rbind (Js.toString val)
                   (fun s => Ok (Str.includes (Str.toLowerCase s) term)))
          (Str.split " " (Str.trim currentValue)).

Definition accept (val source : Value) (st : State) : State :=
  let defaultOption := mkSuggestion val val source in
  mkState (suggestionsList st ++ [defaultOption]) (labelsList st ++ [val])
          (skipWordMatch st) (allocated st) (offered st).

Definition log (val : Value) (st : State) : State :=
  mkState (suggestionsList st) (labelsList st) (skipWordMatch st)
          (allocated st) (offered st ++ [val]).

Definition populateSuggestionsList (val parsedSource source : Value) : M State bool :=
  fun st0 =>
    let st := log val st0 in
    match isWordMatch (skipWordMatch st) val with
    | Throw e => Throw e
    | Ok wordMatch =>
        if wordMatch && negb (Js.includes (labelsList st) val) then
          Ok (showDistinctSuggestions, accept val source st)
        else
          match Js.get source "_promoted" with
          | Throw e => Throw e
          | Ok promoted =>
              if Js.truthy promoted
              then Ok (showDistinctSuggestions, accept val source st)
              else Ok (false, st)
          end
    end.

(** [parseField] on the path already split: [node0] is [fieldNodes[0]],
    [rest] the nodes after it, which are the nodes of [children]. *)
Fixpoint parseFieldNodes (node0 : string) (rest : list string)
         (parsedSource source : Value) {struct rest} : M State bool :=
  if Js.typeof_object parsedSource then
    label <- lift (Js.get parsedSource node0) ;;
    if Js.truthy label then
      match rest with
      | node1 :: rest' =>
          match label with
          | VArr _ items =>
              forEach (fun arrayItem => parseFieldNodes node1 rest' arrayItem source)
                      items ;;
              ret false
          | _ =>
              parseFieldNodes node1 rest' label source ;;
              ret false
          end
      | [] =>
          val <- extractSuggestion label ;;
          if Js.truthy val then
            match val with
            | VArr _ elems =>
                if showDistinctSuggestions then
                  some (fun suggestion =>
                          populateSuggestionsList suggestion parsedSource source)
                       elems
                else
                  forEach (fun suggestion =>
                             populateSuggestionsList suggestion parsedSource source)
                          elems ;;
                  populateSuggestionsList val parsedSource source
            | _ => populateSuggestionsList val parsedSource source
            end
          else ret false
      end
    else ret false
  else ret false.

Definition parseField (parsedSource : Value) (field : string) (source : Value)
  : M State bool :=
  match Str.split "." field with
  | node0 :: rest => parseFieldNodes node0 rest parsedSource source
  | [] => ret false
  end.

Definition traverseSuggestions : M State unit :=
  if showDistinctSuggestions then
    forEach (fun item => some (fun field => parseField item field item) fields)
            suggestions
  else
    forEach (fun item => forEach (fun field => parseField item field item) fields)
            suggestions.

Definition initial : State := mkState [] [] false 0 [].

Definition setSkipWordMatch (st : State) : State :=
  mkState (suggestionsList st) (labelsList st) true (allocated st) (offered st).

Definition getSuggestions : result (list Suggestion) :=
  match traverseSuggestions initial with
  | Throw e => Throw e
  | Ok (_, st) =>
      if (List.length (suggestionsList st) <? List.length suggestions)%nat
         && negb (skipWordMatch st)
      then
        match traverseSuggestions (setSkipWordMatch st) with
        | Throw e => Throw e
        | Ok (_, st') => Ok (suggestionsList st')
        end
      else Ok (suggestionsList st)
  end.

End GetSuggestions.

Definition obj (n : nat) (props : Obj) : Value := VObj (Input n) props.
Definition arr (n : nat) (elems : list Value) : Value := VArr (Input n) elems.

(** ** Hits: highlightResults and parseHits *)

(** The state is the supply of references for the objects created. *)
Definition newObject (props : Obj) : M nat Value :=
  fun next => Ok (VObj (Fresh next) props, S next).

(** One step of the loop of [highlightResults]: [data] is the object
    built so far. *)
Definition highlightStep (highlight : Value) (acc : M nat Obj) (highlightItem : string)
  : M nat Obj :=
  data <- acc ;;
  fragments <- lift (Js.get highlight highlightItem) ;;
  highlightValue <- lift (Js.get fragments "0") ;;
  merged <- newObject (Js.set (Js.spread (Js.lookup data "_source"))
                              highlightItem highlightValue) ;;
  ret (Js.set data "_source" merged).

Definition highlightResults (result : Value) : M nat Obj :=
  let data := Js.spread result in
  let highlight := Js.lookup data "highlight" in
  if Js.truthy highlight then
    fold_left (highlightStep highlight) (Js.keys highlight) (ret data)
  else ret data.

(** The elements [[...v]] iterates over, for an array or a string. *)
Definition iterate (v : Value) : result (list Value) :=
  match v with
  | VArr _ elems => Ok elems
  | VStr s => Ok (map VStr (Str.chars s))
  | _ => Throw TypeError
  end.

Definition flattenHit (data : Obj) : Obj :=
  fold_left (fun obj key => Js.set obj key (Js.lookup data key))
            (filter (fun key => negb (String.eqb key "_source")) (map fst data))
            (Js.spread (Js.lookup data "_source")).

Definition parseHits (hits : Value) : M nat (list Obj) :=
  if Js.truthy hits then
    items <- lift (iterate hits) ;;
    mapM (fun item => data <- highlightResults item ;; ret (flattenHit data)) items
  else ret [].

(** ** Field specifications: getNormalizedField and getNormalizedWeights *)

(** [forEach] with a callback that pushes onto [acc] or throws. *)
Fixpoint pushEach (f : Value -> list Value -> result (list Value))
         (l : list Value) (acc : list Value) : result (list Value) :=
  match l with
  | [] => Ok acc
  | x :: t => rbind (f x acc) (pushEach f t)
  end.

(** The result is [None] for [undefined]. *)
Definition getNormalizedField (field : Value) : result (option (list Value)) :=
  if Js.truthy field then
    match field with
    | VArr _ entries =>
        if negb (Nat.eqb (List.length entries) 0) then
          rbind
            (pushEach
               (fun dataField fields =>
                  if Js.typeof_string dataField then Ok (fields ++ [dataField])
                  else
                    rbind (Js.get dataField "field")
                          (fun f => if Js.truthy f then Ok (fields ++ [f])
                                    else Ok fields))
               entries [])
            (fun fields => Ok (Some fields))
        else Ok None
    | _ => Ok (Some [field])
    end
  else Ok None.

Definition Number_isNaN (n : Num) : bool :=
  match n with
  | NaN => true
  | _ => false
  end.

Definition Number_isFinite (v : Value) : bool :=
  match v with
  | VNum (Fin _) => true
  | _ => false
  end.

Section Weights.

(** The built-in [parseFloat]; all that is used of it is that a finite
    number is not parsed to NaN. *)
Variable parseFloat : Value -> Num.

Definition isNumber (n : Value) : bool :=
  negb (Number_isNaN (parseFloat n)) && Number_isFinite n.

Definition getNormalizedWeights (field : Value) : result (option (list Value)) :=
  if Js.truthy field && Js.isArray field then
    match field with
    | VArr _ entries =>
        if negb (Nat.eqb (List.length entries) 0) then
          rbind
            (pushEach
               (fun dataField weights =>
                  rbind (Js.get dataField "weight")
                        (fun w => if isNumber w then Ok (weights ++ [w])
                                  else Ok (weights ++ [VNum (Fin 1)])))
               entries [])
            (fun weights => Ok (Some weights))
        else Ok None
    | _ => Ok None
    end
  else Ok None.

End Weights.

(** ** Aggregations: parseCompAggToHits *)

Definition compAggHit (aggFieldName : string) (bucket : Value) : result Obj :=
  rbind (Js.get bucket "doc_count") (fun doc_count =>
  rbind (Js.get bucket "key") (fun key =>
  rbind (Js.get bucket aggFieldName) (fun data =>
  rbind (Js.get key aggFieldName) (fun keyField =>
    let _key := match keyField with
                | VUndef => key
                | _ => keyField
                end in
    Ok (Js.assign [("_doc_count", doc_count); ("_key", _key)] (Js.spread data)))))).

(** [buckets] is [VUndef] when the argument is absent. *)
Definition parseCompAggToHits (aggFieldName : string) (buckets : Value)
  : result (list Obj) :=
  let buckets := match buckets with
                 | VUndef => VArr (Fresh 0) []
                 | _ => buckets
                 end in
  match buckets with
  | VArr _ elems => rmap (compAggHit aggFieldName) elems
  | _ => Throw TypeError
  end.

(** ** Click identifiers: withClickIds *)



(** ** Dependencies of a component: flatReactProp *)

(** [x === y] *)
Definition strict_eq (x y : Value) : bool :=
  match x, y with
  | VNum NaN, VNum NaN => false
  | _, _ => Js.same_value_zero x y
  end.

(** [flatReact] on an object: what it appends to [flattenReact].  The keys
    are gone through in order, a key listed again being shadowed by its
    first binding ([seen] holds the keys met). *)
Fixpoint flatReact (react : Value) : list Value :=
  match react with
  | VObj _ props =>
      (fix each (seen : list string) (l : list (string * Value)) : list Value :=
         match l with
         | [] => []
         | (r, v) :: t =>
             if existsb (String.eqb r) seen then each seen t
             else
               (if Js.truthy v then
                  match v with
                  | VStr _ => [v]
                  | VArr _ elems => elems
                  | VObj _ _ => flatReact v
                  | _ => []
                  end
                else [])
               ++ each (r :: seen) t
         end) [] props
  | _ => []
  end.

(** What one value [react[r]] contributes. *)
Definition reactItem (v : Value) : list Value :=
  if Js.truthy v then
    match v with
    | VStr _ => [v]
    | VArr _ elems => elems
    | VObj _ _ => flatReact v
    | _ => []
    end
  else [].

(** [flatReact(reactProp)] for any value: an array or a string is gone
    through by its indices. *)
Definition flatReactAll (react : Value) : list Value :=
  if Js.truthy react then
    match react with
    | VObj _ _ => flatReact react
    | _ => flat_map (fun kv => reactItem (snd kv)) (Js.spread react)
    end
  else [].

Definition flatReactProp (reactProp componentID : Value) : list Value :=
  filter (fun react => negb (strict_eq react componentID)) (flatReactAll reactProp).

(** ** Predicates used in the statements *)

(** [m] only moves the state along the relation [R]. *)
Definition preserves {S A : Type} (R : S -> S -> Prop) (m : M S A) : Prop :=
  forall st a st', m st = Ok (a, st') -> R st st'.

(** [m] returns, whatever the state. *)
Definition returns {S A : Type} (m : M S A) : Prop :=
  forall st, exists a st', m st = Ok (a, st').

(** The labels of the suggestions returned, [None] for a throw. *)
Definition labelsOf (r : result (list Suggestion)) : option (list Value) :=
  match r with
  | Ok l => Some (map label l)
  | Throw _ => None
  end.

(** [source._promoted] is truthy. *)
Definition isPromoted (source : Value) : bool :=
  match Js.get source "_promoted" with
  | Ok promoted => Js.truthy promoted
  | Throw _ => false
  end.

(** The word-match test answers true. *)
Definition wordMatches (currentValue : string) (skip : bool) (val : Value) : bool :=
  match isWordMatch currentValue skip val with
  | Ok b => b
  | Throw _ => false
  end.

(** The candidate is accepted: (word match and label not yet used) or
    promoted. *)
Definition accepted (currentValue : string) (val source : Value) (st : State) : bool :=
  (wordMatches currentValue (skipWordMatch st) val
   && negb (Js.includes (labelsList st) val))
  || isPromoted source.

(** The suggestion list only grows at its end. *)
Definition extends (st st' : State) : Prop :=
  exists added, suggestionsList st' = suggestionsList st ++ added.

(** Of two entries with the same label (SameValueZero, as [includes]
    compares), the later one comes from a promoted document. *)
Definition guardedLabels (l : list Suggestion) : Prop :=
  forall i j si sj,
    (i < j)%nat ->
    nth_error l i = Some si ->
    nth_error l j = Some sj ->
    Js.same_value_zero (label si) (label sj) = true ->
    isPromoted (source sj) = true.

(** The state invariant: the labels list is the list of the labels of the
    suggestions, and labels are guarded. *)
Definition labelsInv (st : State) : Prop :=
  map label (suggestionsList st) = labelsList st /\
  guardedLabels (suggestionsList st).

(** What a second pass run from scratch would compute: the traversal with
    [skipWordMatch] set, started on empty lists. *)
Definition secondPassFromScratch (fields : list string) (suggestions : list Value)
           (currentValue : string) (showDistinctSuggestions : bool)
  : result (list Suggestion) :=
  match traverseSuggestions fields suggestions currentValue showDistinctSuggestions
                            (setSkipWordMatch initial) with
  | Ok (_, st) => Ok (suggestionsList st)
  | Throw e => Throw e
  end.

(** The field names one key: its path has a single node. *)
Definition singleNode (field : string) : bool :=
  match Str.split "." field with
  | [_] => true
  | _ => false
  end.

(** A computation that adds one suggestion and answers true, or adds none
    and answers false. *)
Definition oneOrNone (m : M State bool) : Prop :=
  forall st b st',
    m st = Ok (b, st') ->
    (b = true /\
     List.length (suggestionsList st') = S (List.length (suggestionsList st))) \/
    (b = false /\ suggestionsList st' = suggestionsList st).

Definition isNull (v : Value) : bool :=
  match v with
  | VNull => true
  | _ => false
  end.

(** No array inside [v] has an element that is [bad]. *)
Fixpoint arraysAvoid (bad : Value -> bool) (v : Value) : bool :=
  match v with
  | VArr _ elems =>
      (fix all (l : list Value) : bool :=
         match l with
         | [] => true
         | x :: t => negb (bad x) && arraysAvoid bad x && all t
         end) elems
  | VObj _ props =>
      (fix all (l : list (string * Value)) : bool :=
         match l with
         | [] => true
         | (_, x) :: t => arraysAvoid bad x && all t
         end) props
  | _ => true
  end.

(** No array inside [v] has [null] as an element. *)
Definition nullFreeArrays (v : Value) : bool := arraysAvoid isNull v.

(** An object with a property [toString] of its own: [String] throws on
    it. *)
Definition ownToString (v : Value) : bool :=
  match v with
  | VObj _ props => Js.has_key props "toString"
  | _ => false
  end.

(** No array inside [v] has such an object as an element. *)
Definition printableArrays (v : Value) : bool := arraysAvoid ownToString v.

(** A document the path resolver can walk: not [null], and no [null] as an
    element of an array. *)
Definition walkable (v : Value) : bool := negb (isNull v) && nullFreeArrays v.

(** The path finds nothing in [parsedSource]: [parsedSource] is no object,
    or the lookup of the first node gives a falsy value ([undefined] for a
    key that is absent), or it gives a plain object at the end of the path,
    or the rest of the path finds nothing in what it gives (in each of its
    elements, when that is an array). *)
Fixpoint absentPath (node0 : string) (rest : list string) (parsedSource : Value)
         {struct rest} : bool :=
  negb (Js.typeof_object parsedSource) ||
  match Js.get parsedSource node0 with
  | Throw _ => false
  | Ok label =>
      negb (Js.truthy label) ||
      match rest with
      | [] => match label with
              | VObj _ _ => true
              | _ => false
              end
      | node1 :: rest' =>
          match label with
          | VArr _ items => forallb (absentPath node1 rest') items
          | _ => absentPath node1 rest' label
          end
      end
  end.

Definition absent (field : string) (doc : Value) : bool :=
  match Str.split "." field with
  | node0 :: rest => absentPath node0 rest doc
  | [] => true
  end.

(** The value the document holds under [node] ([undefined] when there is
    none to look into). *)
Definition valueAt (node : string) (doc : Value) : Value :=
  match Js.get doc node with
  | Ok v => v
  | Throw _ => VUndef
  end.

(** The bucket has a [key] other than [null] and [undefined] (so it is not
    [null] or [undefined] itself). *)
Definition keyed (bucket : Value) : bool :=
  match Js.get bucket "key" with
  | Ok key => negb (Js.isNullish key)
  | Throw _ => false
  end.



(** A [parseFloat] on numbers alone. *)
Definition parseFloatOfNumber (v : Value) : Num :=
  match v with
  | VNum n => n
  | _ => NaN
  end.

(** [highlight[k][0]]: the first fragment of the field [k]. *)
Definition firstFragment (highlight : Value) (k : string) : Value :=
  match Js.get highlight k with
  | Ok fragments =>
      match Js.get fragments "0" with
      | Ok v => v
      | Throw _ => VUndef
      end
  | Throw _ => VUndef
  end.

(** Every field of the highlight map of the hit, if the hit has one, has
    fragments: a value other than [null] and [undefined]. *)
Definition fragmentsOk (hit : Value) : bool :=
  let highlight := Js.lookup (Js.spread hit) "highlight" in
  if Js.truthy highlight then
    forallb (fun k => match Js.get highlight k with
                      | Ok fragments => negb (Js.isNullish fragments)
                      | Throw _ => false
                      end)
            (Js.keys highlight)
  else true.

(** The string has an upper-case letter (A to Z). *)
Fixpoint hasUpper (t : string) : bool :=
  match t with
  | EmptyString => false
  | String c t' => Str.is_upper c || hasUpper t'
  end.

(** The document is an object whose key [node] holds a truthy scalar. *)
Definition hasScalar (node : string) (doc : Value) : bool :=
  Js.typeof_object doc &&
  match Js.get doc node with
  | Ok v => Js.truthy v && negb (Js.typeof_object v)
  | Throw _ => false
  end.

(** The value is among the labels used so far. *)
Definition covered (v : Value) (st : State) : Prop :=
  Js.includes (labelsList st) v = true.

(** ** Sample inputs *)

Definition twoFieldDocs : list Value :=
  [obj 0 [("a", VStr "zz"); ("b", VStr "x")]; obj 1 [("a", VStr "y")]].

Definition yxDocs : list Value :=
  [obj 0 [("a", VStr "y")]; obj 1 [("a", VStr "x")]].

Definition sameTextDocs : list Value :=
  [obj 0 [("n", VNum (Fin 1))]; obj 1 [("n", VStr "1")]].

Definition promotedDocs : list Value :=
  [obj 0 [("a", VStr "x")]; obj 1 [("a", VStr "x"); ("_promoted", VBool true)]].

Definition nestedDoc : Value :=
  obj 0 [("a", obj 1 [("b", arr 2 [obj 3 [("c", VStr "x")];
                                   obj 4 [("c", VStr "y")]])])].

Definition nestedPathDoc : Value :=
  obj 0 [("a", obj 1 [("b", VStr "x")]); ("c", VStr "y")].

Definition itemsDoc : Value :=
  obj 0 [("items", arr 1 [obj 2 [("name", VStr "x")]; obj 3 [("name", VStr "y")]])].

Definition tagsDoc : Value :=
  obj 0 [("tags", arr 1 [VStr "x"; VStr "y"]); ("geo", obj 2 [("lat", VNum (Fin 1))])].

Definition docWithNullItem : Value := obj 0 [("a", arr 1 [VNull])].

Definition unprintableDoc : Value :=
  obj 0 [("tags", arr 1 [obj 2 [("toString", VNum (Fin 1))]])].

Definition colorBucket : Value :=
  obj 1 [("doc_count", VNum (Fin 4));
         ("key", obj 2 [("colorAgg", VStr "red")]);
         ("colorAgg", obj 3 [("avgPrice", VNum (Fin 10))])].

Definition bucketWithoutKey : Value := obj 1 [("doc_count", VNum (Fin 4))].


Definition helloHit : Value :=
  obj 1 [("_id", VNum (Fin 1));
         ("_source", obj 2 [("title", VStr "hello world"); ("_id", VStr "shadowed")]);
         ("highlight", obj 3 [("title", arr 4 [VStr "<em>hello</em> world"; VStr "world"])])].

(** * Properties *)

(** ** The model on small inputs *)

Example split_ex1 : Str.split "." "a.b.c" = ["a"; "b"; "c"].
Proof. reflexivity. Qed.
Example split_ex2 : Str.split " " "" = [""].
Proof. reflexivity. Qed.
Example split_ex3 : Str.split " " "a  b " = ["a"; ""; "b"; ""].
Proof. reflexivity. Qed.
Example trim_ex : Str.trim "  a b  " = "a b".
Proof. reflexivity. Qed.
Example index_ex : Str.to_index "12" = Some 12%nat /\ Str.to_index "012" = None
                   /\ Str.to_index "" = None /\ Str.to_index "0" = Some 0%nat.
Proof. repeat split; reflexivity. Qed.
Example ofZ_ex : Str.of_Z (-42) = "-42" /\ Str.of_Z 0 = "0".
Proof. split; reflexivity. Qed.
Example lower_ex : Str.toLowerCase "iPhone X" = "iphone x".
Proof. reflexivity. Qed.
Example includes_ex : Str.includes "hello world" "lo w" = true
                      /\ Str.includes "hello" "" = true
                      /\ Str.includes "" "" = true
                      /\ Str.includes "hello" "Hello" = false.
Proof. repeat split; reflexivity. Qed.
Example toString_ex :
  Js.toString (VArr (Input 0) [VStr "a"; VNull; VNum (Fin 3); VArr (Input 1) [VBool true; VUndef]])
  = Ok "a,,3,true,".
Proof. reflexivity. Qed.
Example toString_object_ex :
  Js.toString (obj 0 [("a", VNum (Fin 1))]) = Ok "[object Object]"
  /\ Js.toString (obj 0 [("toString", VNum (Fin 1))]) = Throw TypeError
  /\ Js.toString (arr 0 [VStr "a"; obj 1 [("toString", VNull)]]) = Throw TypeError.
Proof. repeat split; reflexivity. Qed.
Example gs_ex1 :
  labelsOf (getSuggestions ["a"] [obj 0 [("a", VStr "Apple")]; obj 1 [("a", VStr "pear")]]
                          "pe" true)
  = Some [VStr "pear"; VStr "Apple"].
Proof. vm_compute. reflexivity. Qed.


(** ** Strings *)

Lemma split_not_nil (sep : ascii) (s : string) : Str.split sep s <> [].
Proof.
  induction s as [|c t IH]; simpl; [discriminate|].
  destruct (Ascii.eqb c sep); [discriminate|].
  destruct (Str.split sep t); discriminate.
Qed.

(** The nodes of [children = field.substring(fieldNodes[0].length + 1)] are
    the nodes of [field] after the first. *)
Lemma split_children (sep : ascii) (field node0 node1 : string) (rest : list string) :
  Str.split sep field = node0 :: node1 :: rest ->
  Str.split sep (Str.substring (String.length node0 + 1) field) = node1 :: rest.
Proof.
  revert node0 node1 rest.
  induction field as [|c t IH]; intros node0 node1 rest; simpl.
  - discriminate.
  - destruct (Ascii.eqb c sep).
    + intros H. injection H as <- H. simpl. exact H.
    + destruct (Str.split sep t) as [|w ws] eqn:E; [discriminate|].
      intros H. injection H as <- ->. simpl. apply IH. reflexivity.
Qed.

Lemma prefix_empty (s : string) : String.prefix "" s = true.
Proof. destruct s; reflexivity. Qed.

Lemma includes_empty (s : string) : Str.includes s "" = true.
Proof. destruct s; simpl; reflexivity. Qed.

(** ** Word match *)

Lemma isWordMatch_skip (term : string) (val : Value) :
  isWordMatch term true val = Ok true.
Proof. reflexivity. Qed.

Lemma rsome_pure {A : Type} (g : A -> bool) (l : list A) :
  rsome (fun x => Ok (g x)) l = Ok (existsb g l).
Proof.
  induction l as [|x t IH]; [reflexivity|].
  cbn [rsome rbind existsb]. destruct (g x); [reflexivity | exact IH].
Qed.

(** When the candidate prints as [s], the test is made on [s]: some term of
    the trimmed search term, as typed, occurs in [s] lower-cased. *)
Lemma isWordMatch_printed (term : string) (skip : bool) (val : Value) (s : string) :
  Js.toString val = Ok s ->
  isWordMatch term skip val
  = Ok (skip || existsb (fun t => Str.includes (Str.toLowerCase s) t)
                        (Str.split " " (Str.trim term))).
Proof.
  intros H. unfold isWordMatch. destruct skip; [reflexivity|]. rewrite H.
  cbn [rbind orb]. apply rsome_pure.
Qed.

(** When the candidate cannot be printed, the test throws, unless it is
    skipped. *)
Lemma isWordMatch_throws (term : string) (val : Value) (e : error) :
  Js.toString val = Throw e -> isWordMatch term false val = Throw e.
Proof.
  intros H. unfold isWordMatch. pose proof (split_not_nil " " (Str.trim term)) as Hne.
  destruct (Str.split " " (Str.trim term)) as [|t ts]; [contradiction|].
  cbn [rsome]. rewrite H. reflexivity.
Qed.

Lemma isWordMatch_returns (term : string) (skip : bool) (val : Value) :
  (exists s, Js.toString val = Ok s) -> exists b, isWordMatch term skip val = Ok b.
Proof. intros [s H]. rewrite (isWordMatch_printed _ _ _ _ H). eauto. Qed.

Lemma isWordMatch_spec (term : string) (skip : bool) (val : Value) (s : string) :
  Js.toString val = Ok s ->
  isWordMatch term skip val = Ok true <->
  skip = true \/
  exists t, In t (Str.split " " (Str.trim term)) /\
            Str.includes (Str.toLowerCase s) t = true.
Proof.
  intros H. rewrite (isWordMatch_printed _ _ _ _ H).
  split.
  - intros E. injection E as E. apply orb_true_iff in E as [E|E]; [left; exact E|].
    right. apply existsb_exists. exact E.
  - intros E. f_equal. apply orb_true_iff. destruct E as [E|E]; [left; exact E|].
    right. apply existsb_exists. exact E.
Qed.

Lemma wordMatches_printed (term : string) (skip : bool) (val : Value) (s : string) :
  Js.toString val = Ok s ->
  wordMatches term skip val
  = skip || existsb (fun t => Str.includes (Str.toLowerCase s) t)
                    (Str.split " " (Str.trim term)).
Proof. intros H. unfold wordMatches. rewrite (isWordMatch_printed _ _ _ _ H). reflexivity. Qed.

(** A value that is no array and no object with [toString] of its own can
    be printed, and so can an array of such values. *)
Lemma toString_returns (v : Value) :
  Js.isArray v = false -> ownToString v = false -> exists s, Js.toString v = Ok s.
Proof.
  destruct v as [| |[|]| | | |]; cbn [Js.toString]; try discriminate; eauto.
  intros _ H. cbn [ownToString] in H. rewrite H. eauto.
Qed.

Lemma toString_flat_returns (r : ref) (l : list Value) :
  (forall x, In x l -> Js.isArray x = false /\ ownToString x = false) ->
  exists s, Js.toString (VArr r l) = Ok s.
Proof.
  intros H. cbn [Js.toString].
  assert (Hl : exists ss,
             (fix each (l : list Value) : result (list string) :=
                match l with
                | [] => Ok []
                | x :: t =>
                    rbind (match x with
                           | VUndef | VNull => Ok ""
                           | _ => Js.toString x
                           end)
                          (fun s => rbind (each t) (fun ss => Ok (s :: ss)))
                end) l = Ok ss).
  { induction l as [|x t IH]; [eauto|].
    destruct IH as [ss Hss]; [intros y Hy; apply H; right; exact Hy|].
    destruct (H x (or_introl eq_refl)) as [Ha Ho].
    destruct (toString_returns x Ha Ho) as [sx Hx].
    rewrite Hss. destruct x; rewrite ?Hx; cbn [rbind]; eauto. }
  destruct Hl as [ss ->]. cbn [rbind]. eauto.
Qed.

Lemma get_returns (v : Value) (k : string) :
  Js.isNullish v = false -> exists v', Js.get v k = Ok v'.
Proof.
  destruct v; try discriminate; intros _; cbn [Js.get]; eauto;
    destruct (String.eqb k "length"); eauto; destruct (Str.to_index k); eauto.
Qed.

(** ** Computations: how relations and termination lift *)

Section Preserves.

Context {S : Type} (R : S -> S -> Prop).
Hypothesis R_refl : forall s, R s s.
Hypothesis R_trans : forall a b c, R a b -> R b c -> R a c.

Lemma preserves_ret {A : Type} (a : A) : preserves R (ret a).
Proof. intros st a' st' H. injection H as _ <-. apply R_refl. Qed.

Lemma preserves_lift {A : Type} (r : result A) : preserves R (lift r).
Proof.
  intros st a st' H. unfold lift in H. destruct r; [|discriminate].
  injection H as _ <-. apply R_refl.
Qed.

Lemma preserves_bind {A B : Type} (m : M S A) (k : A -> M S B) :
  preserves R m -> (forall a, preserves R (k a)) -> preserves R (bind m k).
Proof.
  intros Hm Hk st b st' H. unfold bind in H.
  destruct (m st) as [[a st1]|e] eqn:E; [|discriminate].
  eapply R_trans; [eapply Hm; exact E | eapply Hk; exact H].
Qed.

Lemma preserves_forEach {A B : Type} (f : A -> M S B) (l : list A) :
  (forall x, preserves R (f x)) -> preserves R (forEach f l).
Proof.
  intros Hf. induction l as [|x t IH]; simpl.
  - apply preserves_ret.
  - apply preserves_bind; [apply Hf | intros _; exact IH].
Qed.

Lemma preserves_some {A : Type} (f : A -> M S bool) (l : list A) :
  (forall x, preserves R (f x)) -> preserves R (some f l).
Proof.
  intros Hf. induction l as [|x t IH]; simpl.
  - apply preserves_ret.
  - apply preserves_bind; [apply Hf|].
    intros [|]; [apply preserves_ret | exact IH].
Qed.

Lemma preserves_if {A : Type} (b : bool) (m1 m2 : M S A) :
  preserves R m1 -> preserves R m2 -> preserves R (if b then m1 else m2).
Proof. destruct b; auto. Qed.

End Preserves.

Section Returns.

Context {S : Type}.

Lemma returns_ret {A : Type} (a : A) : returns (S := S) (ret a).
Proof. intros st. exists a, st. reflexivity. Qed.

Lemma returns_bind {A B : Type} (m : M S A) (k : A -> M S B) :
  returns m -> (forall a, returns (k a)) -> returns (bind m k).
Proof.
  intros Hm Hk st. destruct (Hm st) as (a & st1 & E).
  destruct (Hk a st1) as (b & st2 & E2).
  exists b, st2. unfold bind. rewrite E. exact E2.
Qed.

Lemma returns_forEach {A B : Type} (f : A -> M S B) (l : list A) :
  (forall x, In x l -> returns (f x)) -> returns (forEach f l).
Proof.
  induction l as [|x t IH]; intros Hf; simpl.
  - apply returns_ret.
  - apply returns_bind; [apply Hf; left; reflexivity|].
    intros _. apply IH. intros y Hy. apply Hf. right. exact Hy.
Qed.

Lemma returns_some {A : Type} (f : A -> M S bool) (l : list A) :
  (forall x, In x l -> returns (f x)) -> returns (some f l).
Proof.
  induction l as [|x t IH]; intros Hf; simpl.
  - apply returns_ret.
  - apply returns_bind; [apply Hf; left; reflexivity|].
    intros [|]; [apply returns_ret|].
    apply IH. intros y Hy. apply Hf. right. exact Hy.
Qed.

Lemma returns_bind_lift {A B : Type} (r : result A) (k : A -> M S B) :
  (exists a, r = Ok a /\ returns (k a)) -> returns (bind (lift r) k).
Proof.
  intros (a & -> & Hk) st. destruct (Hk st) as (b & st' & E).
  exists b, st'. exact E.
Qed.

Lemma returns_if {A : Type} (b : bool) (m1 m2 : M S A) :
  returns m1 -> returns m2 -> returns (if b then m1 else m2).
Proof. destruct b; auto. Qed.

End Returns.

(** ** The traversal moves the state as the collector does *)

Section TraversalPreserves.

Variable R : State -> State -> Prop.
Hypothesis R_refl : forall s, R s s.
Hypothesis R_trans : forall a b c, R a b -> R b c -> R a c.

Variable currentValue : string.
Variable showDistinctSuggestions : bool.

Hypothesis populate_R :
  forall val parsedSource source,
    preserves R (populateSuggestionsList currentValue showDistinctSuggestions
                                         val parsedSource source).
Hypothesis extract_R : forall val, preserves R (extractSuggestion val).

Lemma parseFieldNodes_preserves (rest : list string) :
  forall node0 parsedSource source,
    preserves R (parseFieldNodes currentValue showDistinctSuggestions
                                 node0 rest parsedSource source).
Proof.
  induction rest as [|node1 rest' IH]; intros node0 parsedSource source;
    cbn [parseFieldNodes];
    (destruct (Js.typeof_object parsedSource); [|apply preserves_ret; assumption]);
    (apply preserves_bind; [assumption | apply preserves_lift; assumption |]);
    intros lbl; (destruct (Js.truthy lbl); [|apply preserves_ret; assumption]).
  - apply preserves_bind; [assumption | apply extract_R |].
    intros val. destruct (Js.truthy val); [|apply preserves_ret; assumption].
    destruct val; try apply populate_R.
    apply preserves_if.
    + apply preserves_some; [assumption..|]. intros x. apply populate_R.
    + apply preserves_bind; [assumption| |intros _; apply populate_R].
      apply preserves_forEach; [assumption..|]. intros x. apply populate_R.
  - destruct lbl;
      (apply preserves_bind;
       [assumption | | intros _; apply preserves_ret; assumption]);
      try apply IH.
    apply preserves_forEach; [assumption..|]. intros x. apply IH.
Qed.

Lemma parseField_preserves (parsedSource : Value) (field : string) (source : Value) :
  preserves R (parseField currentValue showDistinctSuggestions
                          parsedSource field source).
Proof.
  unfold parseField. destruct (Str.split "." field).
  - apply preserves_ret; assumption.
  - apply parseFieldNodes_preserves.
Qed.

Lemma traverseSuggestions_preserves (fields : list string) (suggestions : list Value) :
  preserves R (traverseSuggestions fields suggestions currentValue
                                   showDistinctSuggestions).
Proof.
  unfold traverseSuggestions. apply preserves_if.
  - apply preserves_forEach; [assumption..|]. intros item.
    apply preserves_some; [assumption..|]. intros field.
    apply parseField_preserves.
  - apply preserves_forEach; [assumption..|]. intros item.
    apply preserves_forEach; [assumption..|]. intros field.
    apply parseField_preserves.
Qed.

End TraversalPreserves.

(** ** The collector *)

Section Collector.

Variable currentValue : string.
Variable showDistinctSuggestions : bool.

Local Abbreviation populate :=
  (populateSuggestionsList currentValue showDistinctSuggestions).

(** One call logs the candidate and then either accepts it or leaves the
    lists alone; the answer is true only on acceptance in distinct mode. *)
Lemma populate_cases (val parsedSource source : Value) (st : State) (b : bool)
      (st' : State) :
  populate val parsedSource source st = Ok (b, st') ->
  (b = (accepted currentValue val source st && showDistinctSuggestions)) /\
  st' = (if accepted currentValue val source st
         then accept val source (log val st) else log val st).
Proof.
  unfold populateSuggestionsList, accepted, wordMatches, isPromoted.
  cbn [skipWordMatch labelsList log].
  destruct (isWordMatch currentValue (skipWordMatch st) val) as [wordMatch|];
    [|discriminate].
  destruct (wordMatch && negb (Js.includes (labelsList st) val)); cbn [orb andb].
  - intros H. injection H as <- <-. split; reflexivity.
  - destruct (Js.get source "_promoted") as [p|e]; [|discriminate].
    destruct (Js.truthy p); intros H; injection H as <- <-; split; reflexivity.
Qed.

Lemma populate_returns (val parsedSource source : Value) :
  Js.isNullish source = false ->
  (exists s, Js.toString val = Ok s) ->
  returns (populate val parsedSource source).
Proof.
  intros Hs Hv st. unfold populateSuggestionsList.
  destruct (isWordMatch_returns currentValue (skipWordMatch (log val st)) val Hv)
    as [wordMatch ->].
  destruct (_ && _); [eauto|].
  destruct source; try discriminate; cbn [Js.get];
    repeat match goal with
           | |- context [if ?c then _ else _] => destruct c
           | |- context [match ?c with Some _ => _ | None => _ end] => destruct c
           end; eauto.
Qed.

Lemma populate_extends (val parsedSource source : Value) :
  preserves extends (populate val parsedSource source).
Proof.
  intros st b st' H. apply populate_cases in H as [_ ->].
  destruct (accepted _ _ _ _).
  - eexists. reflexivity.
  - exists []. cbn. rewrite app_nil_r. reflexivity.
Qed.

Lemma populate_skip (val parsedSource source : Value) :
  preserves (fun st st' => skipWordMatch st' = skipWordMatch st)
            (populate val parsedSource source).
Proof.
  intros st b st' H. apply populate_cases in H as [_ ->].
  destruct (accepted _ _ _ _); reflexivity.
Qed.

End Collector.

Lemma extract_cases (val : Value) (st : State) (v : Value) (st' : State) :
  extractSuggestion val st = Ok (v, st') ->
  suggestionsList st' = suggestionsList st /\ labelsList st' = labelsList st /\
  skipWordMatch st' = skipWordMatch st /\ offered st' = offered st.
Proof.
  unfold extractSuggestion.
  destruct (Js.typeof_object val); [destruct val|];
    intros H; injection H as <- <-; repeat split.
Qed.

Lemma extends_refl (st : State) : extends st st.
Proof. exists []. rewrite app_nil_r. reflexivity. Qed.

Lemma extends_trans (a b c : State) : extends a b -> extends b c -> extends a c.
Proof.
  intros [x Hx] [y Hy]. exists (x ++ y). rewrite Hy, Hx, app_assoc. reflexivity.
Qed.

Lemma traverseSuggestions_extends fields suggestions currentValue showDistinctSuggestions :
  preserves extends
    (traverseSuggestions fields suggestions currentValue showDistinctSuggestions).
Proof.
  apply traverseSuggestions_preserves.
  - apply extends_refl.
  - apply extends_trans.
  - intros. apply populate_extends.
  - intros val st v st' H. apply extract_cases in H as (H & _).
    exists []. rewrite app_nil_r. exact H.
Qed.

Lemma traverseSuggestions_skip fields suggestions currentValue showDistinctSuggestions :
  preserves (fun st st' => skipWordMatch st' = skipWordMatch st)
    (traverseSuggestions fields suggestions currentValue showDistinctSuggestions).
Proof.
  apply traverseSuggestions_preserves.
  - reflexivity.
  - intros a b c H1 H2. congruence.
  - intros. apply populate_skip.
  - intros val st v st' H. apply extract_cases in H. tauto.
Qed.

(** ** The second pass *)

(** When the first pass leaves fewer suggestions than there are documents,
    the traversal is run again with [skipWordMatch] set, on the lists the
    first pass left: what it returns extends the list of the first pass (a
    throw of the second pass is the throw of the call). *)
Lemma getSuggestions_second_pass_appends
      (fields : list string) (suggestions : list Value) (currentValue : string)
      (showDistinctSuggestions : bool) (st1 : State) :
  traverseSuggestions fields suggestions currentValue showDistinctSuggestions initial
  = Ok (tt, st1) ->
  (List.length (suggestionsList st1) < List.length suggestions)%nat ->
  match traverseSuggestions fields suggestions currentValue showDistinctSuggestions
                            (setSkipWordMatch st1) with
  | Ok (_, st2) =>
      skipWordMatch (setSkipWordMatch st1) = true /\
      getSuggestions fields suggestions currentValue showDistinctSuggestions
      = Ok (suggestionsList st2) /\
      exists added, suggestionsList st2 = suggestionsList st1 ++ added
  | Throw e =>
      getSuggestions fields suggestions currentValue showDistinctSuggestions = Throw e
  end.
Proof.
  intros H1 Hlt.
  assert (Hskip : skipWordMatch st1 = false).
  { apply traverseSuggestions_skip in H1. exact H1. }
  unfold getSuggestions. rewrite H1, Hskip.
  apply Nat.ltb_lt in Hlt. rewrite Hlt. cbn [andb negb].
  destruct (traverseSuggestions _ _ _ _ (setSkipWordMatch st1)) as [[u st2]|e] eqn:E2;
    [|reflexivity].
  repeat split.
  apply traverseSuggestions_extends in E2. exact E2.
Qed.

(** ** Labels *)

Lemma same_value_zero_sym (x y : Value) :
  Js.same_value_zero x y = Js.same_value_zero y x.
Proof.
  destruct x, y; cbn; try reflexivity.
  - destruct b, b0; reflexivity.
  - destruct n, n0; cbn; try reflexivity. apply Z.eqb_sym.
  - apply String.eqb_sym.
  - destruct r, r0; cbn; try reflexivity; apply Nat.eqb_sym.
  - destruct r, r0; cbn; try reflexivity; apply Nat.eqb_sym.
Qed.

Lemma same_value_zero_refl (x : Value) : Js.same_value_zero x x = true.
Proof.
  destruct x; cbn; try reflexivity.
  - destruct b; reflexivity.
  - destruct n; cbn; try reflexivity. apply Z.eqb_refl.
  - apply String.eqb_refl.
  - destruct r; cbn; apply Nat.eqb_refl.
  - destruct r; cbn; apply Nat.eqb_refl.
Qed.

Lemma guardedLabels_nil : guardedLabels [].
Proof. intros i j si sj _ Hi. destruct i; discriminate. Qed.

Lemma guardedLabels_snoc (l : list Suggestion) (s : Suggestion) :
  guardedLabels l ->
  isPromoted (source s) = true \/
  Js.includes (map label l) (label s) = false ->
  guardedLabels (l ++ [s]).
Proof.
  intros Hl Hs i j si sj Hij Hi Hj Hsame.
  destruct (Nat.lt_ge_cases j (List.length l)) as [Hj'|Hj'].
  - rewrite nth_error_app1 in Hi by lia. rewrite nth_error_app1 in Hj by lia.
    exact (Hl i j si sj Hij Hi Hj Hsame).
  - rewrite nth_error_app2 in Hj by lia.
    destruct (j - List.length l)%nat as [|k] eqn:Ek;
      [|destruct k; discriminate].
    injection Hj as <-.
    destruct Hs as [Hp|Hnew]; [exact Hp|].
    rewrite nth_error_app1 in Hi by lia.
    apply nth_error_In in Hi.
    unfold Js.includes in Hnew.
    assert (Hex : existsb (fun x => Js.same_value_zero x (label s)) (map label l) = true).
    { apply existsb_exists. exists (label si). split; [|exact Hsame].
      apply in_map. exact Hi. }
    congruence.
Qed.

Lemma labelsInv_initial : labelsInv initial.
Proof. split; [reflexivity | apply guardedLabels_nil]. Qed.

Lemma labelsInv_setSkip (st : State) : labelsInv st -> labelsInv (setSkipWordMatch st).
Proof. intros H. exact H. Qed.

Lemma populate_labelsInv currentValue showDistinctSuggestions val parsedSource source :
  preserves (fun st st' => labelsInv st -> labelsInv st')
            (populateSuggestionsList currentValue showDistinctSuggestions
                                     val parsedSource source).
Proof.
  intros st b st' H [Hmap Hg]. apply populate_cases in H as [_ ->].
  destruct (accepted currentValue val source st) eqn:Hacc; [|split; assumption].
  split; cbn [accept log suggestionsList labelsList].
  - rewrite map_app, Hmap. reflexivity.
  - apply guardedLabels_snoc; [exact Hg|]. simpl.
    unfold accepted in Hacc. apply orb_true_iff in Hacc as [Hacc|Hp]; [|left; exact Hp].
    apply andb_true_iff in Hacc as [_ Hnew]. apply negb_true_iff in Hnew.
    right. rewrite Hmap. exact Hnew.
Qed.

Lemma traverseSuggestions_labelsInv fields suggestions currentValue showDistinctSuggestions :
  preserves (fun st st' => labelsInv st -> labelsInv st')
    (traverseSuggestions fields suggestions currentValue showDistinctSuggestions).
Proof.
  apply traverseSuggestions_preserves.
  - auto.
  - auto.
  - intros. apply populate_labelsInv.
  - intros val st v st' H [Hmap Hg]. apply extract_cases in H as (H1 & H2 & _).
    split; rewrite H1; [rewrite H2|]; assumption.
Qed.

Lemma getSuggestions_guarded fields suggestions currentValue showDistinctSuggestions r :
  getSuggestions fields suggestions currentValue showDistinctSuggestions = Ok r ->
  guardedLabels r.
Proof.
  unfold getSuggestions.
  destruct (traverseSuggestions _ _ _ _ initial) as [[u st1]|e] eqn:E1; [|discriminate].
  assert (I1 : labelsInv st1).
  { apply (traverseSuggestions_labelsInv _ _ _ _ _ _ _ E1). apply labelsInv_initial. }
  destruct (_ && _).
  - destruct (traverseSuggestions _ _ _ _ (setSkipWordMatch st1)) as [[u2 st2]|e] eqn:E2;
      [|discriminate].
    intros H. injection H as <-.
    apply (traverseSuggestions_labelsInv _ _ _ _ _ _ _ E2).
    apply labelsInv_setSkip. exact I1.
  - intros H. injection H as <-. apply I1.
Qed.

(** C3 (as amended).  Labels are compared as values, as
    [labelsList.includes] compares them (SameValueZero), before any
    conversion to a string.  In the list a call of [getSuggestions]
    returns, of two entries whose labels are the same value the later one
    comes from a promoted document: so no two entries from documents that
    are not promoted have the same value as label, and in particular no two
    of them have the same string as label.  A candidate for which the
    word-match test answers is accepted exactly when (it is a word match and
    its label is not used yet) or its source is promoted: a promoted source
    is accepted without a word match and with a label already used. *)
Theorem getSuggestions_labels_unique
        (fields : list string) (suggestions : list Value) (currentValue : string)
        (showDistinctSuggestions : bool) :
  (forall r,
      getSuggestions fields suggestions currentValue showDistinctSuggestions = Ok r ->
      (forall i j si sj,
          (i < j)%nat -> nth_error r i = Some si -> nth_error r j = Some sj ->
          Js.same_value_zero (label si) (label sj) = true ->
          isPromoted (source sj) = true) /\
      (forall i j si sj,
          (i < j)%nat -> nth_error r i = Some si -> nth_error r j = Some sj ->
          label si = label sj ->
          isPromoted (source sj) = true) /\
      (forall i j si sj,
          i <> j -> nth_error r i = Some si -> nth_error r j = Some sj ->
          isPromoted (source si) = false -> isPromoted (source sj) = false ->
          Js.same_value_zero (label si) (label sj) = false
          /\ Js.same_value_zero (label sj) (label si) = false) /\
      (forall i j si sj a b,
          i <> j -> nth_error r i = Some si -> nth_error r j = Some sj ->
          isPromoted (source si) = false -> isPromoted (source sj) = false ->
          label si = VStr a -> label sj = VStr b ->
          a <> b)) /\
  (forall val parsedSource source st wordMatch,
      Js.isNullish source = false ->
      isWordMatch currentValue (skipWordMatch st) val = Ok wordMatch ->
      let ok := (wordMatch && negb (Js.includes (labelsList st) val))
                || isPromoted source in
      exists st',
        populateSuggestionsList currentValue showDistinctSuggestions
                                val parsedSource source st
        = Ok (ok && showDistinctSuggestions, st') /\
        suggestionsList st'
        = suggestionsList st ++ (if ok then [mkSuggestion val val source] else []) /\
        labelsList st' = labelsList st ++ (if ok then [val] else [])).
Proof.
  split.
  - intros r Hr. pose proof (getSuggestions_guarded _ _ _ _ _ Hr) as Hg.
    assert (Hdiff : forall i j si sj,
               i <> j -> nth_error r i = Some si -> nth_error r j = Some sj ->
               isPromoted (source si) = false -> isPromoted (source sj) = false ->
               Js.same_value_zero (label si) (label sj) = false
               /\ Js.same_value_zero (label sj) (label si) = false).
    { intros i j si sj Hij Hi Hj Hpi Hpj.
      split; apply not_true_is_false; intros Hsame.
      + destruct (Nat.lt_gt_cases i j) as [Hne _]. destruct (Hne Hij) as [Hlt|Hgt].
        * pose proof (Hg i j si sj Hlt Hi Hj Hsame). congruence.
        * rewrite same_value_zero_sym in Hsame.
          pose proof (Hg j i sj si Hgt Hj Hi Hsame). congruence.
      + destruct (Nat.lt_gt_cases i j) as [Hne _]. destruct (Hne Hij) as [Hlt|Hgt].
        * rewrite same_value_zero_sym in Hsame.
          pose proof (Hg i j si sj Hlt Hi Hj Hsame). congruence.
        * pose proof (Hg j i sj si Hgt Hj Hi Hsame). congruence. }
    split; [exact Hg|]. split; [|split; [exact Hdiff|]].
    { intros i j si sj Hij Hi Hj Heq. apply (Hg i j si sj Hij Hi Hj).
      rewrite Heq. apply same_value_zero_refl. }
    intros i j si sj a b Hij Hi Hj Hpi Hpj Ha Hb Hab.
    destruct (Hdiff i j si sj Hij Hi Hj Hpi Hpj) as [Hd _].
    rewrite Ha, Hb, Hab in Hd. cbn [Js.same_value_zero] in Hd.
    rewrite String.eqb_refl in Hd. discriminate.
  - intros val parsedSource source st wordMatch Hs Hm ok.
    assert (Hret : exists b st',
               populateSuggestionsList currentValue showDistinctSuggestions
                                       val parsedSource source st = Ok (b, st')).
    { unfold populateSuggestionsList. cbn [log skipWordMatch labelsList]. rewrite Hm.
      destruct (_ && _); [eauto|].
      destruct (get_returns source "_promoted" Hs) as [p ->].
      destruct (Js.truthy p); eauto. }
    destruct Hret as (b & st' & E).
    pose proof (populate_cases _ _ _ _ _ _ _ _ E) as [-> ->].
    assert (Hacc : accepted currentValue val source st = ok).
    { unfold accepted, wordMatches. rewrite Hm. reflexivity. }
    rewrite Hacc in E.
    exists (if ok then accept val source (log val st) else log val st).
    split; [exact E|].
    destruct ok; cbn; rewrite ?app_nil_r; split; reflexivity.
Qed.

Lemma getSuggestions_labels_unique_witness :
  exists r,
    getSuggestions ["a"] promotedDocs "x" true = Ok r /\
    map label r = [VStr "x"; VStr "x"] /\
    (forall i j si sj,
        (i < j)%nat -> nth_error r i = Some si -> nth_error r j = Some sj ->
        Js.same_value_zero (label si) (label sj) = true ->
        isPromoted (source sj) = true) /\
    Js.isNullish (obj 0 []) = false /\
    isWordMatch "x" false (VStr "y") = Ok false /\
    exists st',
      populateSuggestionsList "x" true (VStr "y") (obj 0 []) (obj 0 []) initial
      = Ok (false, st') /\
      suggestionsList st' = [].
Proof.
  destruct (getSuggestions_labels_unique ["a"] promotedDocs "x" true) as [H1 H2].
  eexists. split; [vm_compute; reflexivity|]. split; [reflexivity|].
  split; [|split; [reflexivity|split; [reflexivity|]]].
  - apply (H1 _ eq_refl).
  - destruct (H2 (VStr "y") (obj 0 []) (obj 0 []) initial false eq_refl eq_refl)
      as (st' & E & Hl & _).
    exists st'. split; [exact E | exact Hl].
Defined.

(** C3 (as stated) fails for labels read as the text shown: the documents
    {n: 1} and {n: "1"}, neither promoted, give two entries whose labels,
    the number 1 and the string "1", both print as "1". *)
Lemma labels_print_alike :
  exists si sj,
    getSuggestions ["n"] sameTextDocs "" true = Ok [si; sj] /\
    isPromoted (source si) = false /\
    isPromoted (source sj) = false /\
    Js.toString (label si) = Ok "1" /\
    Js.toString (label sj) = Ok "1" /\
    Js.same_value_zero (label si) (label sj) = false.
Proof. do 2 eexists. repeat split; vm_compute; reflexivity. Qed.

(** ** flatten *)

Lemma flatten_flat_map (l : list Value) : flatten l = flat_map flatten_item l.
Proof.
  unfold flatten.
  assert (H : forall acc,
             fold_left (fun flat toFlatten => flat ++ flatten_item toFlatten) l acc
             = acc ++ flat_map flatten_item l).
  { induction l as [|x t IH]; intros acc; cbn [fold_left flat_map].
    - rewrite app_nil_r. reflexivity.
    - rewrite IH, app_assoc. reflexivity. }
  apply H.
Qed.

(** An array without arrays among its elements is flat already. *)
Lemma flatten_flat (l : list Value) :
  forallb (fun x => negb (Js.isArray x)) l = true -> flatten l = l.
Proof.
  rewrite flatten_flat_map. induction l as [|x t IH]; [reflexivity|].
  cbn [forallb flat_map]. intros H. apply andb_true_iff in H as [Hx Ht].
  rewrite (IH Ht). destruct x; try reflexivity. discriminate.
Qed.

Lemma flatten_item_arr (r : ref) (l : list Value) :
  flatten_item (VArr r l) = flatten l.
Proof.
  unfold flatten. cbn [flatten_item]. generalize (@nil Value) as flat.
  induction l as [|y t IH]; intros flat; [reflexivity|].
  cbn [fold_left]. apply IH.
Qed.

(** Induction on the values nested in a list of values. *)
Lemma forall_nested (P : Value -> Prop) :
  (forall v, Js.isArray v = false -> P v) ->
  (forall r l, Forall P l -> P (VArr r l)) ->
  forall v, P v.
Proof.
  intros Hleaf Harr.
  fix IH 1. intros v. destruct v as [| | | | |r l|r props];
    try (apply Hleaf; reflexivity).
  apply Harr. induction l as [|x t IHl]; constructor; [apply IH | exact IHl].
Qed.

Lemma flatten_item_no_array (x : Value) :
  Forall (fun y => Js.isArray y = false) (flatten_item x).
Proof.
  revert x. apply forall_nested.
  - intros v Hv. destruct v; try discriminate; repeat constructor.
  - intros r l Hl. rewrite flatten_item_arr, flatten_flat_map.
    induction Hl as [|x t Hx Ht IH]; cbn [flat_map]; [constructor|].
    apply Forall_app. split; assumption.
Qed.

Lemma flatten_no_array (l : list Value) :
  Forall (fun y => Js.isArray y = false) (flatten l).
Proof. rewrite <- (flatten_item_arr (Fresh 0)). apply flatten_item_no_array. Qed.

(** ** Exceptions *)

Section ArraysAvoid.

Variable bad : Value -> bool.

Lemma arraysAvoid_arr (r : ref) (elems : list Value) :
  arraysAvoid bad (VArr r elems)
  = forallb (fun x => negb (bad x) && arraysAvoid bad x) elems.
Proof.
  cbn [arraysAvoid]. induction elems as [|x t IH]; [reflexivity|].
  cbn [forallb]. rewrite <- IH. reflexivity.
Qed.

Lemma arraysAvoid_obj (r : ref) (props : Obj) :
  arraysAvoid bad (VObj r props) = forallb (fun kv => arraysAvoid bad (snd kv)) props.
Proof.
  cbn [arraysAvoid]. induction props as [|[k x] t IH]; [reflexivity|].
  cbn [forallb snd]. rewrite <- IH. reflexivity.
Qed.

Lemma arraysAvoid_nth (elems : list Value) (i : nat) :
  forallb (fun x => negb (bad x) && arraysAvoid bad x) elems = true ->
  arraysAvoid bad (nth i elems VUndef) = true.
Proof.
  revert i. induction elems as [|x t IH]; intros i H.
  - destruct i; reflexivity.
  - cbn [forallb] in H. apply andb_true_iff in H as [Hx Ht].
    destruct i; cbn [nth]; [|apply IH; exact Ht].
    apply andb_true_iff in Hx as [_ Hx]. exact Hx.
Qed.

Lemma arraysAvoid_lookup (props : Obj) (k : string) :
  forallb (fun kv => arraysAvoid bad (snd kv)) props = true ->
  arraysAvoid bad (Js.lookup props k) = true.
Proof.
  induction props as [|[k' x] t IH]; intros H; [reflexivity|].
  cbn [forallb snd] in H. apply andb_true_iff in H as [Hx Ht].
  cbn [Js.lookup]. destruct (String.eqb k' k); [exact Hx | apply IH; exact Ht].
Qed.

Lemma arraysAvoid_chars (s : string) (i : nat) :
  arraysAvoid bad (nth i (map VStr (Str.chars s)) VUndef) = true.
Proof.
  revert i. induction s as [|c t IH]; intros i; cbn [Str.chars map].
  - destruct i; reflexivity.
  - destruct i; cbn [nth]; [reflexivity | apply IH].
Qed.

(** A lookup stays inside the value. *)
Lemma arraysAvoid_get (v : Value) (k : string) (v' : Value) :
  arraysAvoid bad v = true -> Js.get v k = Ok v' -> arraysAvoid bad v' = true.
Proof.
  intros Hv. destruct v; cbn [Js.get]; try discriminate;
    try (intros H; injection H as <-; reflexivity).
  - destruct (String.eqb k "length"); [intros H; injection H as <-; reflexivity|].
    destruct (Str.to_index k); intros H; injection H as <-;
      [apply arraysAvoid_chars | reflexivity].
  - rewrite arraysAvoid_arr in Hv.
    destruct (String.eqb k "length"); [intros H; injection H as <-; reflexivity|].
    destruct (Str.to_index k); intros H; injection H as <-;
      [apply arraysAvoid_nth; exact Hv | reflexivity].
  - rewrite arraysAvoid_obj in Hv. intros H. injection H as <-.
    apply arraysAvoid_lookup. exact Hv.
Qed.

(** What [flatten] brings up from nested arrays is an element of one of
    them. *)
Lemma flatten_item_avoid (v : Value) :
  negb (bad v) && arraysAvoid bad v = true ->
  forall x, In x (flatten_item v) -> bad x = false.
Proof.
  revert v. apply (forall_nested
    (fun v => negb (bad v) && arraysAvoid bad v = true ->
              forall x, In x (flatten_item v) -> bad x = false)).
  - intros v Ha Hv x Hx. apply andb_true_iff in Hv as [Hv _].
    apply negb_true_iff in Hv.
    destruct v; try discriminate Ha; destruct Hx as [<-|[]]; exact Hv.
  - intros r l IH Hv x Hx. apply andb_true_iff in Hv as [_ Hv].
    rewrite arraysAvoid_arr in Hv. rewrite forallb_forall in Hv.
    rewrite flatten_item_arr, flatten_flat_map in Hx.
    apply in_flat_map in Hx as (y & Hy & Hx).
    rewrite Forall_forall in IH. exact (IH y Hy (Hv y Hy) x Hx).
Qed.

Lemma flatten_avoid (r : ref) (l : list Value) :
  arraysAvoid bad (VArr r l) = true ->
  forall x, In x (flatten l) -> bad x = false.
Proof.
  intros Hv x Hx. rewrite arraysAvoid_arr in Hv. rewrite forallb_forall in Hv.
  rewrite flatten_flat_map in Hx. apply in_flat_map in Hx as (y & Hy & Hx).
  exact (flatten_item_avoid y (Hv y Hy) x Hx).
Qed.

End ArraysAvoid.

Lemma nullFreeArrays_arr (r : ref) (elems : list Value) :
  nullFreeArrays (VArr r elems) = forallb walkable elems.
Proof. apply arraysAvoid_arr. Qed.

Lemma extract_returns (val : Value) : returns (extractSuggestion val).
Proof.
  intros st. unfold extractSuggestion.
  destruct (Js.typeof_object val); [destruct val|]; eauto.
Qed.

Lemma truthy_not_null (v : Value) : Js.truthy v = true -> isNull v = false.
Proof. destruct v; try reflexivity; discriminate. Qed.

(** The candidates [extractSuggestion] makes of a value without
    unprintable array elements can be printed. *)
Lemma extract_printable (lbl : Value) (st : State) :
  printableArrays lbl = true ->
  exists val st',
    extractSuggestion lbl st = Ok (val, st') /\
    (exists s, Js.toString val = Ok s) /\
    (forall r l, val = VArr r l ->
                 forall x, In x l -> exists s, Js.toString x = Ok s).
Proof.
  intros Hp. unfold extractSuggestion.
  destruct lbl as [| |b|n|s|r elems|r props]; cbn [Js.typeof_object];
    try (eexists; eexists; split; [reflexivity|]; split;
         [eexists; reflexivity | intros ? ? Hv; discriminate Hv]).
  - destruct b; eexists; eexists; (split; [reflexivity|]); (split;
      [eexists; reflexivity | intros ? ? Hv; discriminate Hv]).
  - assert (Hall : forall x, In x (flatten elems) ->
                             Js.isArray x = false /\ ownToString x = false).
    { intros x Hx. split.
      - pose proof (flatten_no_array elems) as Hf. rewrite Forall_forall in Hf.
        apply Hf. exact Hx.
      - apply (flatten_avoid ownToString r elems Hp x Hx). }
    eexists. eexists. split; [reflexivity|]. split.
    + apply toString_flat_returns. exact Hall.
    + intros r' l Hv x Hx. injection Hv as _ <-.
      destruct (Hall x Hx) as [Ha Ho]. apply toString_returns; assumption.
Qed.

Section TraversalReturns.

Variable currentValue : string.
Variable showDistinctSuggestions : bool.

Lemma returns_bind_post {A B : Type} (P : A -> Prop) (m : M State A) (k : A -> M State B) :
  (forall st, exists a st', m st = Ok (a, st') /\ P a) ->
  (forall a, P a -> returns (k a)) ->
  returns (bind m k).
Proof.
  intros Hm Hk st. destruct (Hm st) as (a & st1 & E & HP).
  destruct (Hk a HP st1) as (b & st2 & E2).
  exists b, st2. unfold bind. rewrite E. exact E2.
Qed.

Lemma parseFieldNodes_returns (rest : list string) :
  forall node0 parsedSource source,
    walkable parsedSource = true ->
    printableArrays parsedSource = true ->
    Js.isNullish source = false ->
    returns (parseFieldNodes currentValue showDistinctSuggestions
                             node0 rest parsedSource source).
Proof.
  induction rest as [|node1 rest' IH]; intros node0 parsedSource source Hw Hp Hs;
    cbn [parseFieldNodes];
    apply andb_true_iff in Hw as [Hnn Hnf]; apply negb_true_iff in Hnn;
    (destruct (Js.typeof_object parsedSource) eqn:Ht; [|apply returns_ret]);
    (assert (Hg : exists lbl, Js.get parsedSource node0 = Ok lbl)
      by (apply get_returns; destruct parsedSource; try discriminate; reflexivity));
    destruct Hg as [lbl Hg];
    pose proof (arraysAvoid_get _ _ _ _ Hnf Hg) as Hlbl;
    pose proof (arraysAvoid_get _ _ _ _ Hp Hg) as Hlp;
    apply returns_bind_lift; exists lbl; (split; [exact Hg|]);
    (destruct (Js.truthy lbl) eqn:Htr; [|apply returns_ret]).
  - apply (returns_bind_post
             (fun val => (exists s, Js.toString val = Ok s) /\
                         (forall r l, val = VArr r l ->
                                      forall x, In x l -> exists s, Js.toString x = Ok s))).
    { intros st. destruct (extract_printable lbl st Hlp) as (val & st' & E & H1 & H2).
      exists val, st'. split; [exact E|]. split; assumption. }
    intros val [Hval Helems]. destruct (Js.truthy val); [|apply returns_ret].
    destruct val; try (apply populate_returns; assumption).
    apply returns_if.
    + apply returns_some. intros x Hx. apply populate_returns; [exact Hs|].
      apply (Helems _ _ eq_refl x Hx).
    + apply returns_bind; [|intros _; apply populate_returns; assumption].
      apply returns_forEach. intros x Hx. apply populate_returns; [exact Hs|].
      apply (Helems _ _ eq_refl x Hx).
  - assert (Hrec : returns (parseFieldNodes currentValue showDistinctSuggestions
                                            node1 rest' lbl source)).
    { apply IH; [|exact Hlp|exact Hs]. unfold walkable.
      rewrite (truthy_not_null _ Htr). exact Hlbl. }
    destruct lbl;
      (apply returns_bind; [|intros _; apply returns_ret]); try exact Hrec.
    apply returns_forEach. intros x Hx.
    rewrite nullFreeArrays_arr in Hlbl. rewrite forallb_forall in Hlbl.
    unfold printableArrays in Hlp. rewrite arraysAvoid_arr in Hlp.
    rewrite forallb_forall in Hlp. specialize (Hlp x Hx).
    apply andb_true_iff in Hlp as [_ Hlp].
    apply IH; [apply Hlbl; exact Hx | exact Hlp | exact Hs].
Qed.

Lemma parseField_returns (item : Value) (field : string) :
  walkable item = true ->
  printableArrays item = true ->
  returns (parseField currentValue showDistinctSuggestions item field item).
Proof.
  intros Hw Hp. unfold parseField.
  destruct (Str.split "." field) as [|node0 rest]; [apply returns_ret|].
  destruct (Js.isNullish item) eqn:Hn.
  - destruct item; try discriminate.
    destruct rest; cbn [parseFieldNodes Js.typeof_object]; apply returns_ret.
  - apply parseFieldNodes_returns; assumption.
Qed.

Lemma traverseSuggestions_returns (fields : list string) (suggestions : list Value) :
  forallb walkable suggestions = true ->
  forallb printableArrays suggestions = true ->
  returns (traverseSuggestions fields suggestions currentValue
                               showDistinctSuggestions).
Proof.
  intros Hw Hp. rewrite forallb_forall in Hw, Hp.
  unfold traverseSuggestions. apply returns_if.
  - apply returns_forEach. intros item Hi.
    apply returns_some. intros field _. apply parseField_returns; auto.
  - apply returns_forEach. intros item Hi.
    apply returns_forEach. intros field _. apply parseField_returns; auto.
Qed.

Lemma getSuggestions_returns (fields : list string) (suggestions : list Value) :
  forallb walkable suggestions = true ->
  forallb printableArrays suggestions = true ->
  exists r,
    getSuggestions fields suggestions currentValue showDistinctSuggestions = Ok r.
Proof.
  intros Hw Hp. unfold getSuggestions.
  destruct (traverseSuggestions_returns fields suggestions Hw Hp initial)
    as (u & st1 & ->).
  destruct (_ && _); [|eauto].
  destruct (traverseSuggestions_returns fields suggestions Hw Hp (setSkipWordMatch st1))
    as (u2 & st2 & ->).
  eauto.
Qed.

End TraversalReturns.

(** ** Property lists *)

Lemma lookup_set (o : Obj) (k : string) (v : Value) (k' : string) :
  Js.lookup (Js.set o k v) k' = if String.eqb k k' then v else Js.lookup o k'.
Proof.
  induction o as [|[k0 v0] t IH]; cbn [Js.set Js.lookup].
  - destruct (String.eqb k k'); reflexivity.
  - destruct (String.eqb k0 k) eqn:E0; cbn [Js.lookup].
    + apply String.eqb_eq in E0. subst k0.
      destruct (String.eqb k k'); reflexivity.
    + destruct (String.eqb k0 k') eqn:E1; [|exact IH].
      apply String.eqb_eq in E1. subst k0. rewrite String.eqb_sym, E0. reflexivity.
Qed.

Lemma has_key_set (o : Obj) (k : string) (v : Value) (k' : string) :
  Js.has_key (Js.set o k v) k' = String.eqb k k' || Js.has_key o k'.
Proof.
  induction o as [|[k0 v0] t IH]; cbn [Js.set Js.has_key].
  - reflexivity.
  - destruct (String.eqb k0 k) eqn:E0; cbn [Js.has_key].
    + apply String.eqb_eq in E0. subst k0.
      destruct (String.eqb k k'); reflexivity.
    + rewrite IH. destruct (String.eqb k0 k'), (String.eqb k k'); reflexivity.
Qed.

Lemma lookup_filter_other (o : Obj) (k k' : string) :
  String.eqb k' k = false ->
  Js.lookup (filter (fun kv => negb (String.eqb (fst kv) k)) o) k' = Js.lookup o k'.
Proof.
  intros Hk. induction o as [|[k0 v0] t IH]; [reflexivity|].
  cbn [filter fst]. destruct (String.eqb k0 k) eqn:E0; cbn [negb Js.lookup].
  - apply String.eqb_eq in E0. subst k0. rewrite String.eqb_sym, Hk. exact IH.
  - rewrite IH. reflexivity.
Qed.

Lemma has_key_filter_other (o : Obj) (k k' : string) :
  String.eqb k' k = false ->
  Js.has_key (filter (fun kv => negb (String.eqb (fst kv) k)) o) k' = Js.has_key o k'.
Proof.
  intros Hk. induction o as [|[k0 v0] t IH]; [reflexivity|].
  cbn [filter fst]. destruct (String.eqb k0 k) eqn:E0; cbn [negb Js.has_key].
  - apply String.eqb_eq in E0. subst k0. rewrite String.eqb_sym, Hk. exact IH.
  - rewrite IH. reflexivity.
Qed.

Lemma lookup_dedupe (o : Obj) (k : string) :
  Js.lookup (Js.dedupe o) k = Js.lookup o k.
Proof.
  induction o as [|[k0 v0] t IH]; [reflexivity|].
  cbn [Js.dedupe Js.lookup]. destruct (String.eqb k0 k) eqn:E; [reflexivity|].
  rewrite lookup_filter_other; [exact IH|]. rewrite String.eqb_sym. exact E.
Qed.

Lemma has_key_dedupe (o : Obj) (k : string) :
  Js.has_key (Js.dedupe o) k = Js.has_key o k.
Proof.
  induction o as [|[k0 v0] t IH]; [reflexivity|].
  cbn [Js.dedupe Js.has_key]. destruct (String.eqb k0 k) eqn:E; [reflexivity|].
  cbn [orb]. rewrite has_key_filter_other; [exact IH|]. rewrite String.eqb_sym. exact E.
Qed.

Lemma has_key_In (o : Obj) (k : string) :
  Js.has_key o k = true <-> In k (map fst o).
Proof.
  induction o as [|[k0 v0] t IH]; cbn [Js.has_key map fst In].
  - split; [discriminate | tauto].
  - rewrite orb_true_iff, IH, String.eqb_eq. reflexivity.
Qed.

Lemma dedupe_NoDup (o : Obj) : NoDup (map fst (Js.dedupe o)).
Proof.
  induction o as [|[k0 v0] t IH]; cbn [Js.dedupe map fst]; constructor.
  - intros Hin. apply in_map_iff in Hin as ([k v] & Hk & Hin). cbn in Hk. subst k.
    apply filter_In in Hin as [_ Hne]. cbn in Hne.
    rewrite String.eqb_refl in Hne. discriminate.
  - induction (Js.dedupe t) as [|[k v] d IHd]; [constructor|].
    cbn [filter fst]. inversion IH; subst.
    destruct (negb (String.eqb k k0)); [|apply IHd; assumption].
    cbn [map fst]. constructor; [|apply IHd; assumption].
    intros Hin. apply in_map_iff in Hin as ([k' v'] & Hk & Hin). cbn in Hk. subst k'.
    apply filter_In in Hin as [Hin _].
    match goal with H : ~ In k _ |- _ => apply H end.
    apply in_map_iff. exists (k, v'). split; [reflexivity | exact Hin].
Qed.

(** On a list without repeated keys, nothing is shadowed. *)
Lemma dedupe_id (o : Obj) : NoDup (map fst o) -> Js.dedupe o = o.
Proof.
  induction o as [|[k0 v0] t IH]; [reflexivity|].
  cbn [map fst]. intros H. inversion H as [|? ? Hnot Hnd]; subst.
  cbn [Js.dedupe]. rewrite (IH Hnd). f_equal.
  clear IH H Hnd. induction t as [|[k v] t IH]; [reflexivity|].
  cbn [filter fst]. cbn [map fst In] in Hnot.
  destruct (String.eqb k k0) eqn:E.
  - apply String.eqb_eq in E. subst k. exfalso. apply Hnot. left. reflexivity.
  - cbn [negb]. f_equal. apply IH. intros Hin. apply Hnot. right. exact Hin.
Qed.

Lemma lookup_assign (o src : Obj) (k : string) :
  NoDup (map fst src) ->
  Js.lookup (Js.assign o src) k
  = if Js.has_key src k then Js.lookup src k else Js.lookup o k.
Proof.
  unfold Js.assign. revert o.
  induction src as [|[k0 v0] t IH]; intros o Hnd; [reflexivity|].
  cbn [map fst] in Hnd. inversion Hnd as [|? ? Hnot Hnd']; subst.
  cbn [fold_left fst snd Js.has_key Js.lookup]. rewrite (IH _ Hnd').
  destruct (String.eqb k0 k) eqn:E; cbn [orb].
  - apply String.eqb_eq in E. subst k0.
    destruct (Js.has_key t k) eqn:Hk.
    + apply has_key_In in Hk. contradiction.
    + rewrite lookup_set, String.eqb_refl. reflexivity.
  - rewrite lookup_set, E. reflexivity.
Qed.

Lemma has_key_assign (o src : Obj) (k : string) :
  Js.has_key (Js.assign o src) k = Js.has_key src k || Js.has_key o k.
Proof.
  unfold Js.assign. revert o.
  induction src as [|[k0 v0] t IH]; intros o; [reflexivity|].
  cbn [fold_left fst snd Js.has_key]. rewrite IH, has_key_set.
  destruct (String.eqb k0 k), (Js.has_key t k); reflexivity.
Qed.

Lemma lookup_spread (v : Value) (k : string) :
  Js.lookup (Js.spread v) k = Js.lookup (Js.own v) k.
Proof. apply lookup_dedupe. Qed.

Lemma has_key_spread (v : Value) (k : string) :
  Js.has_key (Js.spread v) k = Js.has_key (Js.own v) k.
Proof. apply has_key_dedupe. Qed.

(** ** Aggregation buckets *)

Lemma rmap_returns {A B : Type} (f : A -> result B) (l : list A) :
  (forall x, In x l -> exists y, f x = Ok y) ->
  exists ys,
    rmap f l = Ok ys /\
    List.length ys = List.length l /\
    forall i x, nth_error l i = Some x ->
                exists y, nth_error ys i = Some y /\ f x = Ok y.
Proof.
  induction l as [|x t IH]; intros Hf.
  - exists []. repeat split. intros [|i] x H; discriminate.
  - destruct (Hf x (or_introl eq_refl)) as [y Hy].
    destruct IH as (ys & E & Hlen & Hnth).
    { intros z Hz. apply Hf. right. exact Hz. }
    exists (y :: ys). cbn [rmap rbind]. rewrite Hy. cbn [rbind]. rewrite E.
    repeat split; [cbn; congruence|].
    intros [|i] z Hz; cbn [nth_error] in *.
    + injection Hz as <-. eauto.
    + apply Hnth. exact Hz.
Qed.

Lemma rmap_throws {A B : Type} (f : A -> result B) (l : list A) (x : A) :
  In x l -> f x = Throw TypeError -> rmap f l = Throw TypeError.
Proof.
  induction l as [|z t IH]; intros Hin Hx; [destruct Hin|].
  cbn [rmap]. destruct Hin as [->|Hin].
  - rewrite Hx. reflexivity.
  - destruct (f z) as [y|[]]; [|reflexivity]. cbn [rbind].
    rewrite (IH Hin Hx). reflexivity.
Qed.

Lemma keyed_not_nullish (bucket : Value) :
  keyed bucket = true -> Js.isNullish bucket = false.
Proof. destruct bucket; try reflexivity; discriminate. Qed.

Lemma compAggHit_keyed (aggFieldName : string) (bucket : Value) :
  keyed bucket = true ->
  exists doc_count key data keyField,
    Js.get bucket "doc_count" = Ok doc_count /\
    Js.get bucket "key" = Ok key /\
    Js.get bucket aggFieldName = Ok data /\
    Js.get key aggFieldName = Ok keyField /\
    compAggHit aggFieldName bucket
    = Ok (Js.assign [("_doc_count", doc_count);
                     ("_key", match keyField with VUndef => key | _ => keyField end)]
                    (Js.spread data)).
Proof.
  intros Hk. pose proof (keyed_not_nullish _ Hk) as Hb.
  destruct (get_returns bucket "doc_count" Hb) as [dc Hdc].
  destruct (get_returns bucket aggFieldName Hb) as [data Hdata].
  unfold keyed in Hk. destruct (Js.get bucket "key") as [key|] eqn:Hkey; [|discriminate].
  apply negb_true_iff in Hk.
  destruct (get_returns key aggFieldName Hk) as [kf Hkf].
  exists dc, key, data, kf. repeat split; try assumption.
  unfold compAggHit. rewrite Hdc, Hkey. cbn [rbind]. rewrite Hdata. cbn [rbind].
  rewrite Hkf. reflexivity.
Qed.

Lemma compAggHit_not_keyed (aggFieldName : string) (bucket : Value) :
  keyed bucket = false -> compAggHit aggFieldName bucket = Throw TypeError.
Proof.
  intros Hk. unfold compAggHit.
  destruct (Js.isNullish bucket) eqn:Hb.
  - destruct bucket; try discriminate; reflexivity.
  - destruct (get_returns bucket "doc_count" Hb) as [dc ->].
    destruct (get_returns bucket aggFieldName Hb) as [data Hdata].
    unfold keyed in Hk. destruct (get_returns bucket "key" Hb) as [key Hkey].
    rewrite Hkey in *. apply negb_false_iff in Hk. cbn [rbind].
    rewrite Hdata. cbn [rbind].
    destruct key; try discriminate; reflexivity.
Qed.

Lemma parseCompAggToHits_keyed_returns (aggFieldName : string) (r : ref)
      (buckets : list Value) :
  forallb keyed buckets = true ->
  exists hits, parseCompAggToHits aggFieldName (VArr r buckets) = Ok hits.
Proof.
  intros Hk. rewrite forallb_forall in Hk.
  destruct (rmap_returns (compAggHit aggFieldName) buckets) as (hits & E & _).
  { intros b Hb. destruct (compAggHit_keyed aggFieldName b (Hk b Hb))
      as (dc & key & data & kf & _ & _ & _ & _ & ->). eauto. }
  exists hits. exact E.
Qed.

(** C6.  [parseCompAggToHits] turns the buckets one by one, in order, into
    records: the record of a bucket has the fields of the bucket's
    aggregation document, and besides them [_doc_count], the bucket's
    [doc_count], and [_key], which is [key[aggFieldName]] when that is
    defined and [key] otherwise.  The bucket of the example gives the record
    of the example, and an absent [buckets] gives the empty array. *)
Theorem parseCompAggToHits_spec (aggFieldName : string) :
  (forall r buckets,
      forallb keyed buckets = true ->
      exists hits,
        parseCompAggToHits aggFieldName (VArr r buckets) = Ok hits /\
        List.length hits = List.length buckets /\
        forall i bucket,
          nth_error buckets i = Some bucket ->
          exists hit doc_count key data keyField,
            nth_error hits i = Some hit /\
            Js.get bucket "doc_count" = Ok doc_count /\
            Js.get bucket "key" = Ok key /\
            Js.get bucket aggFieldName = Ok data /\
            Js.get key aggFieldName = Ok keyField /\
            forall k,
              Js.lookup hit k
              = (if Js.has_key (Js.spread data) k then Js.lookup (Js.spread data) k
                 else if String.eqb k "_doc_count" then doc_count
                 else if String.eqb k "_key"
                      then match keyField with VUndef => key | _ => keyField end
                      else VUndef) /\
              Js.has_key hit k
              = Js.has_key (Js.spread data) k
                || String.eqb k "_doc_count" || String.eqb k "_key") /\
  parseCompAggToHits "colorAgg" (arr 0 [colorBucket])
  = Ok [[("_doc_count", VNum (Fin 4)); ("_key", VStr "red");
         ("avgPrice", VNum (Fin 10))]] /\
  parseCompAggToHits aggFieldName VUndef = Ok [].
Proof.
  split; [|split; reflexivity].
  intros r buckets Hk. rewrite forallb_forall in Hk.
  destruct (rmap_returns (compAggHit aggFieldName) buckets) as (hits & E & Hlen & Hnth).
  { intros b Hb. destruct (compAggHit_keyed aggFieldName b (Hk b Hb))
      as (dc & key & data & kf & _ & _ & _ & _ & ->). eauto. }
  exists hits. split; [exact E|]. split; [exact Hlen|].
  intros i bucket Hi. destruct (Hnth i bucket Hi) as (hit & Hhit & Hc).
  destruct (compAggHit_keyed aggFieldName bucket (Hk bucket (nth_error_In _ _ Hi)))
    as (dc & key & data & kf & Hdc & Hkey & Hdata & Hkf & Hc').
  rewrite Hc' in Hc. injection Hc as <-.
  exists (Js.assign [("_doc_count", dc);
                     ("_key", match kf with VUndef => key | _ => kf end)]
                    (Js.spread data)), dc, key, data, kf.
  repeat split; try assumption.
  - rewrite lookup_assign by apply dedupe_NoDup.
    destruct (Js.has_key (Js.spread data) k); [reflexivity|].
    cbn [Js.lookup]. rewrite (String.eqb_sym k "_doc_count"), (String.eqb_sym k "_key").
    reflexivity.
  - rewrite has_key_assign. cbn [Js.has_key].
    rewrite (String.eqb_sym k "_doc_count"), (String.eqb_sym k "_key").
    rewrite orb_false_r, orb_assoc. reflexivity.
Qed.

Lemma parseCompAggToHits_spec_witness :
  forallb keyed [colorBucket; colorBucket] = true /\
  exists hits,
    parseCompAggToHits "colorAgg" (arr 0 [colorBucket; colorBucket]) = Ok hits /\
    List.length hits = 2%nat.
Proof.
  split; [reflexivity|].
  destruct (parseCompAggToHits_spec "colorAgg") as [H _].
  destruct (H (Input 0) [colorBucket; colorBucket] eq_refl) as (hits & E & Hlen & _).
  exists hits. split; [exact E | exact Hlen].
Defined.

Lemma some_unchanged {S A : Type} (f : A -> M S bool) (l : list A) (st : S) :
  (forall x, In x l -> f x st = Ok (false, st)) -> some f l st = Ok (false, st).
Proof.
  induction l as [|x t IH]; intros Hf; [reflexivity|].
  cbn [some]. unfold bind. rewrite (Hf x (or_introl eq_refl)).
  apply IH. intros y Hy. apply Hf. right. exact Hy.
Qed.

Lemma forEach_unchanged {S A B : Type} (f : A -> M S B) (b : B) (l : list A) (st : S) :
  (forall x, In x l -> f x st = Ok (b, st)) -> forEach f l st = Ok (tt, st).
Proof.
  induction l as [|x t IH]; intros Hf; [reflexivity|].
  cbn [forEach]. unfold bind. rewrite (Hf x (or_introl eq_refl)).
  apply IH. intros y Hy. apply Hf. right. exact Hy.
Qed.

(** A path that finds nothing leaves the state as it is. *)
Lemma parseFieldNodes_absent currentValue showDistinctSuggestions (rest : list string) :
  forall node0 parsedSource source st,
    absentPath node0 rest parsedSource = true ->
    parseFieldNodes currentValue showDistinctSuggestions node0 rest parsedSource source st
    = Ok (false, st).
Proof.
  induction rest as [|node1 rest' IH]; intros node0 parsedSource source st H;
    cbn [parseFieldNodes absentPath] in *;
    (destruct (Js.typeof_object parsedSource); [|reflexivity]);
    cbn [negb orb] in H; unfold bind at 1;
    (destruct (Js.get parsedSource node0) as [lbl|]; [|discriminate H]);
    cbn [lift]; (destruct (Js.truthy lbl) eqn:Htr; [|reflexivity]);
    cbn [negb orb] in H.
  - destruct lbl; try discriminate H. reflexivity.
  - destruct lbl as [| | | | |r items|r props]; unfold bind;
      try (rewrite (IH _ _ source st H); reflexivity).
    rewrite (forEach_unchanged _ false items st); [reflexivity|].
    intros x Hx. apply IH. rewrite forallb_forall in H. apply H. exact Hx.
Qed.

Lemma traverseSuggestions_absent fields suggestions currentValue showDistinctSuggestions st :
  (forall field doc, In field fields -> In doc suggestions -> absent field doc = true) ->
  traverseSuggestions fields suggestions currentValue showDistinctSuggestions st
  = Ok (tt, st).
Proof.
  intros H.
  assert (Hf : forall doc field,
             In doc suggestions -> In field fields ->
             parseField currentValue showDistinctSuggestions doc field doc st
             = Ok (false, st)).
  { intros doc field Hd Hfd. specialize (H field doc Hfd Hd).
    unfold absent in H. unfold parseField.
    destruct (Str.split "." field) as [|node0 rest]; [reflexivity|].
    apply parseFieldNodes_absent. exact H. }
  unfold traverseSuggestions. destruct showDistinctSuggestions.
  - apply (forEach_unchanged _ false). intros doc Hd. apply some_unchanged.
    intros field Hfd. apply Hf; assumption.
  - apply (forEach_unchanged _ tt). intros doc Hd. apply (forEach_unchanged _ false).
    intros field Hfd. apply Hf; assumption.
Qed.

(** C5 (as amended).  Called with an array of field names, an array of
    documents and a string as search term, [getSuggestions] does not throw
    when no document is [null], no array inside a document has [null] as an
    element, and no array inside a document has as an element an object
    with a property [toString] of its own (which [String] cannot print).
    A field path that finds nothing in a document (the document is no
    object, the lookup of a segment gives [undefined] or another falsy
    value, or the path ends at a plain object) gives no candidate and no
    error, the state being left as it was: when that is so for every field
    and document the result is the empty list.
    [parseCompAggToHits] returns when every bucket has a [key] other than
    [null] and [undefined], returns the empty array when [buckets] is
    absent, and throws a [TypeError] when some bucket has no such key. *)
Theorem transformations_throw_only_on_null
        (fields : list string) (currentValue : string) (showDistinctSuggestions : bool)
        (aggFieldName : string) :
  (forall suggestions,
      forallb walkable suggestions = true ->
      forallb printableArrays suggestions = true ->
      exists r,
        getSuggestions fields suggestions currentValue showDistinctSuggestions = Ok r) /\
  (forall field doc source st,
      absent field doc = true ->
      parseField currentValue showDistinctSuggestions doc field source st
      = Ok (false, st)) /\
  (forall suggestions,
      (forall field doc, In field fields -> In doc suggestions ->
                         absent field doc = true) ->
      getSuggestions fields suggestions currentValue showDistinctSuggestions = Ok []) /\
  (forall r buckets,
      forallb keyed buckets = true ->
      exists hits, parseCompAggToHits aggFieldName (VArr r buckets) = Ok hits) /\
  parseCompAggToHits aggFieldName VUndef = Ok [] /\
  (forall r buckets,
      forallb keyed buckets = false ->
      parseCompAggToHits aggFieldName (VArr r buckets) = Throw TypeError).
Proof.
  split; [|split; [|split; [|split; [|split]]]].
  - intros suggestions Hw Hp. apply getSuggestions_returns; assumption.
  - intros field doc source st H. unfold absent in H. unfold parseField.
    destruct (Str.split "." field) as [|node0 rest]; [reflexivity|].
    apply parseFieldNodes_absent. exact H.
  - intros suggestions H. unfold getSuggestions.
    rewrite (traverseSuggestions_absent _ _ _ _ initial H).
    destruct (_ && _); [|reflexivity].
    rewrite (traverseSuggestions_absent _ _ _ _ (setSkipWordMatch initial) H).
    reflexivity.
  - intros r buckets Hk.
    destruct (parseCompAggToHits_keyed_returns aggFieldName r buckets Hk) as (hits & E).
    eauto.
  - reflexivity.
  - intros r buckets Hk.
    assert (Hex : exists b, In b buckets /\ keyed b = false).
    { induction buckets as [|b t IH]; [discriminate|].
      cbn [forallb] in Hk. apply andb_false_iff in Hk as [Hb|Ht].
      - exists b. split; [left; reflexivity | exact Hb].
      - destruct (IH Ht) as (b' & Hin & Hb'). exists b'. split; [right|]; assumption. }
    destruct Hex as (b & Hin & Hb).
    cbn [parseCompAggToHits].
    apply (rmap_throws _ _ b Hin). apply compAggHit_not_keyed. exact Hb.
Qed.

Lemma transformations_throw_only_on_null_witness :
  (exists r, getSuggestions ["a"; "b"] twoFieldDocs "x" true = Ok r) /\
  parseField "x" true nestedPathDoc "a..b" nestedPathDoc initial = Ok (false, initial) /\
  getSuggestions ["c"; "a.b"; "b.c.d"] twoFieldDocs "x" true = Ok [] /\
  (exists hits, parseCompAggToHits "colorAgg" (arr 0 [colorBucket]) = Ok hits) /\
  parseCompAggToHits "colorAgg" (arr 0 [colorBucket; bucketWithoutKey]) = Throw TypeError.
Proof.
  destruct (transformations_throw_only_on_null ["a"; "b"] "x" true "colorAgg")
    as (H1 & H0 & _ & H3 & _ & H5).
  destruct (transformations_throw_only_on_null ["c"; "a.b"; "b.c.d"] "x" true "colorAgg")
    as (_ & _ & H2 & _).
  split; [|split; [|split; [|split]]].
  - apply H1; reflexivity.
  - apply H0. reflexivity.
  - apply H2. intros field doc Hf Hd.
    destruct Hf as [<-|[<-|[<-|[]]]]; destruct Hd as [<-|[<-|[]]]; reflexivity.
  - apply (H3 (Input 0) [colorBucket]). reflexivity.
  - apply (H5 (Input 0) [colorBucket; bucketWithoutKey]). reflexivity.
Defined.

(** C5 (as stated) fails: a bucket without [key] makes [parseCompAggToHits]
    throw. *)
Lemma parseCompAggToHits_throws_without_key :
  keyed bucketWithoutKey = false /\
  parseCompAggToHits "colorAgg" (arr 0 [bucketWithoutKey]) = Throw TypeError.
Proof. split; vm_compute; reflexivity. Qed.

(** The two conditions on the documents are needed: an object that cannot
    be printed, offered as a candidate, makes the word match throw, and a
    [null] element of an array on the path is looked into. *)
Example getSuggestions_unprintable :
  printableArrays unprintableDoc = false /\
  getSuggestions ["tags"] [unprintableDoc] "" true = Throw TypeError.
Proof. split; vm_compute; reflexivity. Qed.
Example getSuggestions_null_item :
  walkable docWithNullItem = false /\
  getSuggestions ["a.b"] [docWithNullItem] "" true = Throw TypeError.
Proof. split; vm_compute; reflexivity. Qed.

(** ** The empty search term *)

(** C10.  With the empty search term the trimmed term splits into the
    single term "", which occurs in every string: every candidate that
    prints is a word match.  So in the first pass already a candidate is
    accepted as soon as its label is not used yet, the suggestion and the
    label being appended to the lists; in general it is accepted exactly
    when its label is not used or its source is promoted: the words of the
    term filter nothing. *)
Theorem empty_term_matches_everything :
  Str.split " " (Str.trim "") = [""] /\
  (forall s, Str.includes s "" = true) /\
  (forall skip val s, Js.toString val = Ok s -> isWordMatch "" skip val = Ok true) /\
  (forall showDistinctSuggestions val parsedSource source st s,
      Js.toString val = Ok s ->
      Js.includes (labelsList st) val = false ->
      exists st',
        populateSuggestionsList "" showDistinctSuggestions val parsedSource source st
        = Ok (showDistinctSuggestions, st') /\
        suggestionsList st' = suggestionsList st ++ [mkSuggestion val val source] /\
        labelsList st' = labelsList st ++ [val] /\
        skipWordMatch st' = skipWordMatch st) /\
  (forall showDistinctSuggestions val parsedSource source st s,
      Js.toString val = Ok s ->
      Js.isNullish source = false ->
      let ok := negb (Js.includes (labelsList st) val) || isPromoted source in
      exists st',
        populateSuggestionsList "" showDistinctSuggestions val parsedSource source st
        = Ok (ok && showDistinctSuggestions, st') /\
        suggestionsList st'
        = suggestionsList st ++ (if ok then [mkSuggestion val val source] else []) /\
        labelsList st' = labelsList st ++ (if ok then [val] else [])).
Proof.
  assert (Hm : forall skip val s,
             Js.toString val = Ok s -> isWordMatch "" skip val = Ok true).
  { intros skip val s H. rewrite (isWordMatch_printed _ _ _ _ H).
    cbn [Str.trim Str.trimStart Str.trimEnd Str.split existsb].
    rewrite includes_empty, orb_true_r. reflexivity. }
  split; [reflexivity|]. split; [exact includes_empty|]. split; [exact Hm|]. split.
  - intros d val parsedSource source st s Hv Hnew.
    unfold populateSuggestionsList. cbn [log skipWordMatch labelsList].
    rewrite (Hm _ _ _ Hv), Hnew. cbn [andb negb].
    eexists. split; [reflexivity|]. repeat split.
  - intros d val parsedSource source st s Hv Hs ok.
    unfold populateSuggestionsList. cbn [log skipWordMatch labelsList].
    rewrite (Hm _ _ _ Hv). cbn [andb]. subst ok. unfold isPromoted.
    destruct (negb (Js.includes (labelsList st) val)); cbn [orb andb].
    + eexists. split; [reflexivity|]. split; reflexivity.
    + destruct (get_returns source "_promoted" Hs) as [p ->].
      destruct (Js.truthy p); cbn [andb]; eexists; (split; [reflexivity|]);
        cbn; rewrite ?app_nil_r; split; reflexivity.
Qed.

Lemma empty_term_matches_everything_witness :
  Js.toString (VStr "Zebra") = Ok "Zebra" /\
  Js.includes (labelsList initial) (VStr "Zebra") = false /\
  isWordMatch "" false (VStr "Zebra") = Ok true /\
  exists st',
    populateSuggestionsList "" true (VStr "Zebra") (obj 0 []) (obj 0 []) initial
    = Ok (true, st') /\
    suggestionsList st' = [mkSuggestion (VStr "Zebra") (VStr "Zebra") (obj 0 [])] /\
    labelsList st' = [VStr "Zebra"].
Proof.
  destruct empty_term_matches_everything as (_ & _ & H3 & H4 & _).
  split; [reflexivity|]. split; [reflexivity|].
  split; [apply (H3 false (VStr "Zebra") "Zebra"); reflexivity|].
  destruct (H4 true (VStr "Zebra") (obj 0 []) (obj 0 []) initial "Zebra"
               eq_refl eq_refl) as (st' & E & Hl & Hb & _).
  exists st'. split; [exact E|]. split; [exact Hl | exact Hb].
Defined.

(** ** Letter case *)

(** C4 on the code.  Only the candidate is lower-cased, the terms are
    compared as typed: the term "Apple" is no word match for the candidate
    "Apple", nor for "apple", while "apple" is one for both.  With the term
    "Pear" the first pass therefore finds nothing, and the document "Pear"
    is listed after "Apple", in document order. *)
Theorem isWordMatch_upper_case_term :
  isWordMatch "Apple" false (VStr "Apple") = Ok false /\
  isWordMatch "Apple" false (VStr "apple") = Ok false /\
  isWordMatch "apple" false (VStr "Apple") = Ok true /\
  isWordMatch "apple" false (VStr "apple") = Ok true /\
  labelsOf (getSuggestions ["a"] [obj 0 [("a", VStr "Apple")]; obj 1 [("a", VStr "Pear")];
                                 obj 2 [("a", VStr "Apple")]]
                          "Pear" true)
  = Some [VStr "Apple"; VStr "Pear"].
Proof. repeat split; vm_compute; reflexivity. Qed.

(** ** Field specifications *)



Section FieldSpecs.

Variable parseFloat : Value -> Num.
Hypothesis parseFloat_finite :
  forall z, Number_isNaN (parseFloat (VNum (Fin z))) = false.



End FieldSpecs.


(** ** Hits *)

Lemma existsb_keys (o : Obj) (k : string) :
  existsb (String.eqb k) (map fst o) = Js.has_key o k.
Proof.
  induction o as [|[k0 v0] t IH]; [reflexivity|].
  cbn [map fst existsb Js.has_key]. rewrite IH, (String.eqb_sym k k0). reflexivity.
Qed.

(** The loop leaves every key but [_source] alone, and in [_source] sets the
    keys it runs over to their first fragment. *)
Lemma highlight_loop (highlight : Value) (ks : list string) :
  (forall k, In k ks ->
             exists fragments, Js.get highlight k = Ok fragments /\
                               Js.isNullish fragments = false) ->
  forall (acc : M nat Obj) n data n1,
    acc n = Ok (data, n1) ->
    exists data' n2,
      fold_left (highlightStep highlight) ks acc n = Ok (data', n2) /\
      (forall k, String.eqb k "_source" = false ->
                 Js.lookup data' k = Js.lookup data k /\
                 Js.has_key data' k = Js.has_key data k) /\
      (forall k,
          Js.lookup (Js.spread (Js.lookup data' "_source")) k
          = (if existsb (String.eqb k) ks then firstFragment highlight k
             else Js.lookup (Js.spread (Js.lookup data "_source")) k) /\
          Js.has_key (Js.spread (Js.lookup data' "_source")) k
          = existsb (String.eqb k) ks
            || Js.has_key (Js.spread (Js.lookup data "_source")) k).
Proof.
  induction ks as [|k0 ks IH]; intros Hok acc n data n1 Hacc.
  - exists data, n1. cbn [fold_left existsb]. repeat split. exact Hacc.
  - destruct (Hok k0 (or_introl eq_refl)) as (fr & Hfr & Hnn).
    destruct (get_returns fr "0" Hnn) as [hv Hhv].
    set (src1 := Js.set (Js.spread (Js.lookup data "_source")) k0 hv).
    set (data1 := Js.set data "_source" (VObj (Fresh n1) src1)).
    assert (Hstep : highlightStep highlight acc k0 n = Ok (data1, S n1)).
    { unfold highlightStep, bind, lift, newObject, ret. rewrite Hacc, Hfr, Hhv.
      reflexivity. }
    destruct (IH (fun k Hk => Hok k (or_intror Hk)) _ n data1 (S n1) Hstep)
      as (data' & n2 & E & Hother & Hsrc).
    exists data', n2. cbn [fold_left]. split; [exact E|]. split.
    + intros k Hk. destruct (Hother k Hk) as [Hl Hh]. rewrite Hl, Hh.
      unfold data1. rewrite lookup_set, has_key_set, (String.eqb_sym "_source" k), Hk.
      split; reflexivity.
    + intros k. destruct (Hsrc k) as [Hl Hh]. rewrite Hl, Hh.
      assert (Hd1 : Js.lookup data1 "_source" = VObj (Fresh n1) src1).
      { unfold data1. rewrite lookup_set, String.eqb_refl. reflexivity. }
      rewrite Hd1, lookup_spread, has_key_spread. cbn [Js.own existsb].
      unfold src1. rewrite lookup_set, has_key_set, (String.eqb_sym k0 k).
      assert (Hff : firstFragment highlight k0 = hv).
      { unfold firstFragment. rewrite Hfr, Hhv. reflexivity. }
      destruct (String.eqb k k0) eqn:Ek.
      * apply String.eqb_eq in Ek. subst k.
        destruct (existsb (String.eqb k0) ks); cbn [orb];
          rewrite ?Hff; split; reflexivity.
      * cbn [orb]. split; reflexivity.
Qed.

Lemma highlightResults_spec (hit : Value) (n : nat) :
  fragmentsOk hit = true ->
  let highlight := Js.lookup (Js.spread hit) "highlight" in
  let src := Js.lookup (Js.spread hit) "_source" in
  exists data n',
    highlightResults hit n = Ok (data, n') /\
    (forall k, String.eqb k "_source" = false ->
               Js.lookup data k = Js.lookup (Js.spread hit) k /\
               Js.has_key data k = Js.has_key (Js.spread hit) k) /\
    (forall k,
        let highlighted := Js.truthy highlight && Js.has_key (Js.spread highlight) k in
        Js.lookup (Js.spread (Js.lookup data "_source")) k
        = (if highlighted then firstFragment highlight k
           else Js.lookup (Js.spread src) k) /\
        Js.has_key (Js.spread (Js.lookup data "_source")) k
        = highlighted || Js.has_key (Js.spread src) k).
Proof.
  intros Hok highlight src. unfold highlightResults. cbn zeta.
  unfold fragmentsOk in Hok. fold highlight in Hok |- *.
  destruct (Js.truthy highlight) eqn:Ht.
  - rewrite forallb_forall in Hok.
    destruct (highlight_loop highlight (Js.keys highlight)) with
      (acc := ret (S := nat) (Js.spread hit)) (n := n) (data := Js.spread hit) (n1 := n)
      as (data' & n2 & E & Hother & Hsrc).
    + intros k Hk. specialize (Hok k Hk).
      destruct (Js.get highlight k) as [fr|]; [|discriminate].
      exists fr. split; [reflexivity|]. apply negb_true_iff. exact Hok.
    + reflexivity.
    + exists data', n2. split; [exact E|]. split; [exact Hother|].
      intros k. cbn zeta. cbn [andb]. unfold Js.keys in Hsrc.
      rewrite <- existsb_keys. apply Hsrc.
  - exists (Js.spread hit), n. split; [reflexivity|]. split.
    + intros k _. split; reflexivity.
    + intros k. cbn. split; reflexivity.
Qed.

Lemma copy_keys (data : Obj) (ks : list string) :
  forall (o : Obj) (k : string),
    Js.lookup (fold_left (fun obj key => Js.set obj key (Js.lookup data key)) ks o) k
    = (if existsb (String.eqb k) ks then Js.lookup data k else Js.lookup o k) /\
    Js.has_key (fold_left (fun obj key => Js.set obj key (Js.lookup data key)) ks o) k
    = existsb (String.eqb k) ks || Js.has_key o k.
Proof.
  induction ks as [|k0 ks IH]; intros o k; cbn [fold_left existsb].
  - split; reflexivity.
  - destruct (IH (Js.set o k0 (Js.lookup data k0)) k) as [Hl Hh].
    rewrite Hl, Hh, lookup_set, has_key_set, (String.eqb_sym k0 k).
    destruct (String.eqb k k0) eqn:Ek.
    + apply String.eqb_eq in Ek. subst k.
      destruct (existsb (String.eqb k0) ks); split; reflexivity.
    + split; reflexivity.
Qed.

Lemma existsb_metadata (data : Obj) (k : string) :
  existsb (String.eqb k)
          (filter (fun key => negb (String.eqb key "_source")) (map fst data))
  = negb (String.eqb k "_source") && Js.has_key data k.
Proof.
  induction data as [|[k0 v0] t IH]; cbn [map fst filter Js.has_key].
  - rewrite andb_false_r. reflexivity.
  - destruct (String.eqb k0 "_source") eqn:E0; cbn [negb existsb]; rewrite IH.
    + apply String.eqb_eq in E0. subst k0. rewrite (String.eqb_sym "_source" k).
      destruct (String.eqb k "_source"); reflexivity.
    + rewrite (String.eqb_sym k k0). destruct (String.eqb k0 k) eqn:Ek.
      * apply String.eqb_eq in Ek. subst k0. rewrite E0. reflexivity.
      * reflexivity.
Qed.

(** The flattened record: the top-level fields but [_source], and under
    them the fields of [_source]. *)
Lemma flattenHit_spec (data : Obj) (k : string) :
  let metadata := negb (String.eqb k "_source") && Js.has_key data k in
  Js.lookup (flattenHit data) k
  = (if metadata then Js.lookup data k
     else Js.lookup (Js.spread (Js.lookup data "_source")) k) /\
  Js.has_key (flattenHit data) k
  = metadata || Js.has_key (Js.spread (Js.lookup data "_source")) k.
Proof.
  cbn zeta. unfold flattenHit.
  destruct (copy_keys data
              (filter (fun key => negb (String.eqb key "_source")) (map fst data))
              (Js.spread (Js.lookup data "_source")) k) as [Hl Hh].
  rewrite Hl, Hh, existsb_metadata. split; reflexivity.
Qed.

Lemma mapM_returns {S A B : Type} (f : A -> M S B) (P : A -> B -> Prop) (l : list A) :
  (forall x n, In x l -> exists y n', f x n = Ok (y, n') /\ P x y) ->
  forall n,
  exists ys n',
    mapM f l n = Ok (ys, n') /\
    List.length ys = List.length l /\
    forall i x, nth_error l i = Some x -> exists y, nth_error ys i = Some y /\ P x y.
Proof.
  induction l as [|x t IH]; intros Hf n.
  - exists [], n. repeat split. intros [|i] x H; discriminate.
  - destruct (Hf x n (or_introl eq_refl)) as (y & n1 & Hy & HP).
    destruct (IH (fun z m Hz => Hf z m (or_intror Hz)) n1) as (ys & n2 & E & Hlen & Hnth).
    exists (y :: ys), n2. cbn [mapM]. unfold bind at 1. rewrite Hy.
    unfold bind at 1. rewrite E. split; [reflexivity|].
    split; [cbn; congruence|].
    intros [|i] z Hz; cbn [nth_error] in *.
    + injection Hz as <-. eauto.
    + apply Hnth. exact Hz.
Qed.

(** C8.  [parseHits] gives one record for each hit, in order.  A key of the
    record is a top-level key of the hit other than [_source], or a key of
    the highlight map, or a key of [_source]; its value is the top-level
    value when there is one, else the first fragment of the highlight when
    the key is highlighted, else the value in [_source].  Of a list of
    fragments only the first is used, and without highlight [_source] is
    read as it is. *)
Theorem parseHits_spec :
  (forall r hits n,
      forallb fragmentsOk hits = true ->
      exists records n',
        parseHits (VArr r hits) n = Ok (records, n') /\
        List.length records = List.length hits /\
        forall i hit,
          nth_error hits i = Some hit ->
          exists record,
            nth_error records i = Some record /\
            forall k,
              let highlight := Js.lookup (Js.spread hit) "highlight" in
              let src := Js.lookup (Js.spread hit) "_source" in
              let metadata :=
                negb (String.eqb k "_source") && Js.has_key (Js.spread hit) k in
              let highlighted :=
                Js.truthy highlight && Js.has_key (Js.spread highlight) k in
              Js.lookup record k
              = (if metadata then Js.lookup (Js.spread hit) k
                 else if highlighted then firstFragment highlight k
                      else Js.lookup (Js.spread src) k) /\
              Js.has_key record k
              = metadata || (highlighted || Js.has_key (Js.spread src) k)) /\
  (forall highlight k r first others,
      Js.get highlight k = Ok (VArr r (first :: others)) ->
      firstFragment highlight k = first) /\
  (forall n, parseHits VUndef n = Ok ([], n)) /\
  parseHits (arr 0 [helloHit]) 0
  = Ok ([[("title", VStr "<em>hello</em> world"); ("_id", VNum (Fin 1));
          ("highlight", Js.lookup (Js.spread helloHit) "highlight")]], 1%nat).
Proof.
  split; [|split; [|split]].
  - intros r hits n Hok. rewrite forallb_forall in Hok.
    unfold parseHits. cbn [Js.truthy iterate lift]. unfold bind at 1.
    apply (mapM_returns
             (fun item => data <- highlightResults item ;; ret (flattenHit data))
             (fun hit record =>
                forall k,
                  let highlight := Js.lookup (Js.spread hit) "highlight" in
                  let src := Js.lookup (Js.spread hit) "_source" in
                  let metadata :=
                    negb (String.eqb k "_source") && Js.has_key (Js.spread hit) k in
                  let highlighted :=
                    Js.truthy highlight && Js.has_key (Js.spread highlight) k in
                  Js.lookup record k
                  = (if metadata then Js.lookup (Js.spread hit) k
                     else if highlighted then firstFragment highlight k
                          else Js.lookup (Js.spread src) k) /\
                  Js.has_key record k
                  = metadata || (highlighted || Js.has_key (Js.spread src) k))).
    intros hit m Hin.
    destruct (highlightResults_spec hit m (Hok hit Hin))
      as (data & m' & E & Hother & Hsrc).
    exists (flattenHit data), m'. unfold bind. rewrite E. split; [reflexivity|].
    intros k. cbn zeta. destruct (flattenHit_spec data k) as [Hl Hh].
    destruct (Hsrc k) as [Hsl Hsh]. cbn zeta in Hl, Hh, Hsl, Hsh.
    rewrite Hl, Hh, Hsl, Hsh.
    destruct (String.eqb k "_source") eqn:Ek; cbn [negb andb orb].
    + split; reflexivity.
    + destruct (Hother k Ek) as [Hol Hoh]. rewrite Hol, Hoh. split; reflexivity.
  - intros highlight k r first others H. unfold firstFragment. rewrite H. reflexivity.
  - reflexivity.
  - vm_compute. reflexivity.
Qed.

Lemma parseHits_spec_witness :
  forallb fragmentsOk [helloHit; VNum (Fin 7)] = true /\
  (exists records n',
      parseHits (arr 0 [helloHit; VNum (Fin 7)]) 0 = Ok (records, n') /\
      List.length records = 2%nat) /\
  firstFragment (Js.lookup (Js.spread helloHit) "highlight") "title"
  = VStr "<em>hello</em> world".
Proof.
  destruct parseHits_spec as (H1 & H2 & _).
  split; [reflexivity|]. split.
  - destruct (H1 (Input 0) [helloHit; VNum (Fin 7)] 0%nat eq_refl)
      as (records & n' & E & Hlen & _).
    exists records, n'. split; [exact E | exact Hlen].
  - apply (H2 _ "title" (Input 4) _ [VStr "world"]). reflexivity.
Defined.

(** ** The path resolver and its candidates *)

Section Candidates.

Variable currentValue : string.
Variable showDistinctSuggestions : bool.

Local Abbreviation populate :=
  (populateSuggestionsList currentValue showDistinctSuggestions).
Local Abbreviation parseNodes :=
  (parseFieldNodes currentValue showDistinctSuggestions).

(** A call of the collector logs its candidate. *)
Lemma populate_offered (val parsedSource source : Value) (st : State) :
  Js.isNullish source = false ->
  (exists s, Js.toString val = Ok s) ->
  exists b st',
    populate val parsedSource source st = Ok (b, st') /\
    offered st' = offered st ++ [val] /\
    allocated st' = allocated st /\
    (b = true -> showDistinctSuggestions = true /\
                 accepted currentValue val source st = true).
Proof.
  intros Hs Hv.
  destruct (populate_returns currentValue showDistinctSuggestions val parsedSource
                             source Hs Hv st) as (b & st' & E).
  exists b, st'. split; [exact E|].
  apply populate_cases in E as [-> ->].
  destruct (accepted currentValue val source st); cbn.
  - repeat split. destruct showDistinctSuggestions; [reflexivity | discriminate].
  - repeat split; discriminate.
Qed.

Lemma forEach_offered (elems : list Value) (parsedSource source : Value) :
  Js.isNullish source = false ->
  (forall x, In x elems -> exists s, Js.toString x = Ok s) ->
  forall st,
  exists st',
    forEach (fun suggestion => populate suggestion parsedSource source) elems st
    = Ok (tt, st') /\
    offered st' = offered st ++ elems /\
    allocated st' = allocated st.
Proof.
  intros Hs. induction elems as [|x t IH]; intros Hv st.
  - exists st. cbn. rewrite app_nil_r. repeat split.
  - destruct (populate_offered x parsedSource source st Hs (Hv x (or_introl eq_refl)))
      as (b & st1 & E & Ho & Ha & _).
    destruct (IH (fun y Hy => Hv y (or_intror Hy)) st1) as (st2 & E2 & Ho2 & Ha2).
    exists st2. cbn [forEach]. unfold bind at 1. rewrite E.
    split; [exact E2|]. rewrite Ho2, Ho, Ha2, Ha, <- app_assoc. split; reflexivity.
Qed.

End Candidates.

(** In distinct mode the elements are offered one by one, in order, up to
    and including the first that is accepted: the ones before it are
    rejected, it gives the one suggestion added, and the ones after it are
    not offered. *)
Lemma some_offered currentValue (elems : list Value) (parsedSource source : Value) :
  Js.isNullish source = false ->
  (forall x, In x elems -> exists s, Js.toString x = Ok s) ->
  forall st,
  exists b st' n,
    some (fun suggestion =>
            populateSuggestionsList currentValue true suggestion parsedSource source)
         elems st
    = Ok (b, st') /\
    offered st' = offered st ++ firstn n elems /\
    (forall x, In x (firstn (n - 1) elems) ->
               accepted currentValue x source st = false) /\
    (b = true ->
     (1 <= n)%nat /\
     exists x, nth_error elems (n - 1) = Some x /\
               accepted currentValue x source st = true /\
               suggestionsList st' = suggestionsList st ++ [mkSuggestion x x source]) /\
    (b = false ->
     n = List.length elems /\
     (forall x, In x elems -> accepted currentValue x source st = false) /\
     suggestionsList st' = suggestionsList st).
Proof.
  intros Hs. induction elems as [|x t IH]; intros Hv st.
  - exists false, st, 0%nat. cbn. rewrite app_nil_r.
    split; [reflexivity|]. split; [reflexivity|]. split; [intros x []|].
    split; [discriminate|]. intros _. split; [reflexivity|]. split; [intros x []|].
    reflexivity.
  - destruct (populate_returns currentValue true x parsedSource source Hs
                               (Hv x (or_introl eq_refl)) st) as (b1 & st1 & E).
    pose proof (populate_cases _ _ _ _ _ _ _ _ E) as [Hb1 Hst1].
    cbn [some]. unfold bind at 1. rewrite E.
    destruct (accepted currentValue x source st) eqn:Hacc.
    + subst b1 st1. cbn [andb].
      exists true, (accept x source (log x st)), 1%nat. cbn [firstn Nat.sub].
      split; [reflexivity|]. split; [reflexivity|]. split; [intros y []|].
      split; [|discriminate]. intros _. split; [lia|].
      exists x. cbn [nth_error]. split; [reflexivity|]. split; [exact Hacc|]. reflexivity.
    + subst b1 st1. cbn [andb].
      destruct (IH (fun y Hy => Hv y (or_intror Hy)) (log x st))
        as (b2 & st2 & n & E2 & Ho2 & Hrej & Htrue & Hfalse).
      exists b2, st2, (S n). split; [exact E2|]. cbn [firstn].
      split; [rewrite Ho2; cbn [log offered]; rewrite <- app_assoc; reflexivity|].
      assert (Hsame : forall y, accepted currentValue y source (log x st)
                                = accepted currentValue y source st)
        by (intros y; reflexivity).
      split; [|split].
      * replace (S n - 1)%nat with n by lia. intros y Hy.
        destruct n as [|m]; [destruct Hy|]. cbn [firstn] in Hy.
        destruct Hy as [<-|Hy]; [exact Hacc|].
        rewrite <- Hsame. apply Hrej. replace (S m - 1)%nat with m by lia. exact Hy.
      * intros Hb. destruct (Htrue Hb) as (Hn & y & Hy & Hay & Hl).
        split; [lia|]. exists y. replace (S n - 1)%nat with n by lia.
        destruct n as [|m]; [lia|]. replace (S m - 1)%nat with m in Hy by lia.
        cbn [nth_error]. split; [exact Hy|]. split; [rewrite <- Hsame; exact Hay|].
        exact Hl.
      * intros Hb. destruct (Hfalse Hb) as (Hn & Hall & Hl).
        split; [cbn; lia|]. split; [|exact Hl].
        intros y [<-|Hy]; [exact Hacc|]. rewrite <- Hsame. apply Hall. exact Hy.
Qed.

Section CandidateSteps.

Variable currentValue : string.
Variable showDistinctSuggestions : bool.

Local Abbreviation populate :=
  (populateSuggestionsList currentValue showDistinctSuggestions).
Local Abbreviation parseNodes :=
  (parseFieldNodes currentValue showDistinctSuggestions).

Lemma parseNodes_intermediate_array node0 node1 rest parsedSource source r items st :
  Js.typeof_object parsedSource = true ->
  Js.get parsedSource node0 = Ok (VArr r items) ->
  parseNodes node0 (node1 :: rest) parsedSource source st
  = (forEach (fun arrayItem => parseNodes node1 rest arrayItem source) items ;;
     ret false) st.
Proof.
  intros Ht Hg. cbn [parseFieldNodes]. rewrite Ht.
  unfold bind at 1. rewrite Hg. reflexivity.
Qed.

Lemma parseNodes_intermediate_node node0 node1 rest parsedSource source lbl st :
  Js.typeof_object parsedSource = true ->
  Js.get parsedSource node0 = Ok lbl ->
  Js.truthy lbl = true ->
  Js.isArray lbl = false ->
  parseNodes node0 (node1 :: rest) parsedSource source st
  = (parseNodes node1 rest lbl source ;; ret false) st.
Proof.
  intros Ht Hg Htr Ha. cbn [parseFieldNodes]. rewrite Ht.
  unfold bind at 1. rewrite Hg. cbn [lift]. rewrite Htr.
  destruct lbl; try reflexivity. discriminate.
Qed.

Lemma parseNodes_terminal_scalar node0 parsedSource source lbl st :
  Js.typeof_object parsedSource = true ->
  Js.get parsedSource node0 = Ok lbl ->
  Js.truthy lbl = true ->
  Js.typeof_object lbl = false ->
  parseNodes node0 [] parsedSource source st
  = populate lbl parsedSource source st.
Proof.
  intros Ht Hg Htr Ho. cbn [parseFieldNodes]. rewrite Ht.
  unfold bind at 1. rewrite Hg. cbn [lift]. rewrite Htr.
  unfold bind, extractSuggestion. rewrite Ho, Htr.
  destruct lbl; try reflexivity; discriminate.
Qed.

Lemma parseNodes_terminal_object node0 parsedSource source r props st :
  Js.typeof_object parsedSource = true ->
  Js.get parsedSource node0 = Ok (VObj r props) ->
  parseNodes node0 [] parsedSource source st = Ok (false, st).
Proof.
  intros Ht Hg. cbn [parseFieldNodes]. rewrite Ht.
  unfold bind at 1. rewrite Hg. reflexivity.
Qed.

End CandidateSteps.

Lemma flatten_printable (elems : list Value) :
  (forall x, In x (flatten elems) -> ownToString x = false) ->
  (forall x, In x (flatten elems) -> exists s, Js.toString x = Ok s) /\
  (forall r, exists s, Js.toString (VArr r (flatten elems)) = Ok s).
Proof.
  intros H. pose proof (flatten_no_array elems) as Hf. rewrite Forall_forall in Hf.
  split.
  - intros x Hx. apply toString_returns; [apply Hf | apply H]; exact Hx.
  - intros r. apply toString_flat_returns. intros x Hx.
    split; [apply Hf | apply H]; exact Hx.
Qed.

Lemma parseFieldNodes_terminal_array_all
      currentValue node0 parsedSource source r elems st :
  Js.typeof_object parsedSource = true ->
  Js.get parsedSource node0 = Ok (VArr r elems) ->
  Js.isNullish source = false ->
  (forall x, In x (flatten elems) -> ownToString x = false) ->
  exists b st',
    parseFieldNodes currentValue false node0 [] parsedSource source st = Ok (b, st') /\
    offered st'
    = offered st ++ flatten elems ++ [VArr (Fresh (allocated st)) (flatten elems)].
Proof.
  intros Ht Hg Hs Hp. destruct (flatten_printable elems Hp) as [Hpe Hpa].
  cbn [parseFieldNodes]. rewrite Ht.
  unfold bind at 1. rewrite Hg. cbn [lift Js.truthy].
  unfold bind at 1. cbn [extractSuggestion Js.typeof_object Js.truthy].
  set (st0 := mkState _ _ _ _ _).
  destruct (forEach_offered currentValue false (flatten elems) parsedSource source
                            Hs Hpe st0)
    as (st1 & E1 & Ho1 & Ha1).
  unfold bind at 1. rewrite E1.
  destruct (populate_offered currentValue false
              (VArr (Fresh (allocated st)) (flatten elems)) parsedSource source st1 Hs
              (Hpa _))
    as (b & st2 & E2 & Ho2 & _).
  exists b, st2. split; [exact E2|].
  rewrite Ho2, Ho1, <- app_assoc. reflexivity.
Qed.

Lemma parseFieldNodes_terminal_array_distinct
      currentValue node0 parsedSource source r elems st :
  Js.typeof_object parsedSource = true ->
  Js.get parsedSource node0 = Ok (VArr r elems) ->
  Js.isNullish source = false ->
  (forall x, In x (flatten elems) -> ownToString x = false) ->
  exists b st' n,
    parseFieldNodes currentValue true node0 [] parsedSource source st = Ok (b, st') /\
    offered st' = offered st ++ firstn n (flatten elems) /\
    (forall x, In x (firstn (n - 1) (flatten elems)) ->
               accepted currentValue x source st = false) /\
    (b = true ->
     (1 <= n)%nat /\
     exists x, nth_error (flatten elems) (n - 1) = Some x /\
               accepted currentValue x source st = true /\
               suggestionsList st' = suggestionsList st ++ [mkSuggestion x x source]) /\
    (b = false ->
     n = List.length (flatten elems) /\
     (forall x, In x (flatten elems) -> accepted currentValue x source st = false) /\
     suggestionsList st' = suggestionsList st).
Proof.
  intros Ht Hg Hs Hp. destruct (flatten_printable elems Hp) as [Hpe _].
  cbn [parseFieldNodes]. rewrite Ht.
  unfold bind at 1. rewrite Hg. cbn [lift Js.truthy].
  unfold bind at 1. cbn [extractSuggestion Js.typeof_object Js.truthy].
  set (st0 := mkState _ _ _ _ _).
  destruct (some_offered currentValue (flatten elems) parsedSource source Hs Hpe st0)
    as (b & st1 & n & E1 & Ho1 & Hrej & Htrue & Hfalse).
  exists b, st1, n. split; [exact E1|]. split; [exact Ho1|].
  split; [exact Hrej|]. split; assumption.
Qed.

Lemma nestedDoc_candidates currentValue showDistinctSuggestions st :
  exists b st',
    parseField currentValue showDistinctSuggestions nestedDoc "a.b.c" nestedDoc st
    = Ok (b, st') /\
    offered st' = offered st ++ [VStr "x"; VStr "y"].
Proof.
  unfold parseField. change (Str.split "." "a.b.c") with ["a"; "b"; "c"].
  cbv beta iota.
  rewrite (parseNodes_intermediate_node _ _ "a" "b" ["c"] nestedDoc nestedDoc
             (obj 1 [("b", arr 2 [obj 3 [("c", VStr "x")]; obj 4 [("c", VStr "y")]])]))
    by reflexivity.
  unfold bind at 1.
  rewrite (parseNodes_intermediate_array _ _ "b" "c" [] _ nestedDoc (Input 2)
             [obj 3 [("c", VStr "x")]; obj 4 [("c", VStr "y")]])
    by reflexivity.
  cbn [forEach]. unfold bind at 1. unfold bind at 1. unfold bind at 1.
  rewrite (parseNodes_terminal_scalar _ _ "c" _ nestedDoc (VStr "x")) by reflexivity.
  destruct (populate_offered currentValue showDistinctSuggestions (VStr "x")
              (obj 3 [("c", VStr "x")]) nestedDoc st eq_refl
              (ex_intro _ "x" eq_refl))
    as (b1 & st1 & E1 & Ho1 & _).
  rewrite E1.
  rewrite (parseNodes_terminal_scalar _ _ "c" _ nestedDoc (VStr "y")) by reflexivity.
  destruct (populate_offered currentValue showDistinctSuggestions (VStr "y")
              (obj 4 [("c", VStr "y")]) nestedDoc st1 eq_refl
              (ex_intro _ "y" eq_refl))
    as (b2 & st2 & E2 & Ho2 & _).
  rewrite E2. cbn [ret].
  exists false, st2. split; [reflexivity|].
  rewrite Ho2, Ho1, <- app_assoc. reflexivity.
Qed.

(** C7 (as amended).  The path "a.b.c" in the document
    {a:{b:[{c:"x"},{c:"y"}]}} hands the collector the candidates "x" and
    "y", and no other.  An array at a segment that is not the last is gone
    through element by element with the rest of the path.  An array at the
    last segment is flattened and its elements are offered to the collector
    one by one, in order: all of them when the mode is not distinct, and in
    distinct mode up to and including the first element that is accepted,
    which gives the one suggestion added, the elements after it not being
    offered (all are offered, and none is added, when none is accepted).
    An object at the last segment gives no candidate. *)
Theorem parseField_candidates (currentValue : string) (showDistinctSuggestions : bool) :
  (forall st,
      exists b st',
        parseField currentValue showDistinctSuggestions nestedDoc "a.b.c" nestedDoc st
        = Ok (b, st') /\
        offered st' = offered st ++ [VStr "x"; VStr "y"]) /\
  (forall field node0 node1 rest parsedSource source r items st,
      Str.split "." field = node0 :: node1 :: rest ->
      Js.typeof_object parsedSource = true ->
      Js.get parsedSource node0 = Ok (VArr r items) ->
      parseField currentValue showDistinctSuggestions parsedSource field source st
      = (forEach (fun arrayItem =>
                    parseField currentValue showDistinctSuggestions arrayItem
                               (Str.substring (String.length node0 + 1) field) source)
                 items ;;
         ret false) st) /\
  (forall field node0 parsedSource source r elems st,
      Str.split "." field = [node0] ->
      Js.typeof_object parsedSource = true ->
      Js.get parsedSource node0 = Ok (VArr r elems) ->
      Js.isNullish source = false ->
      (forall x, In x (flatten elems) -> ownToString x = false) ->
      (exists b st',
          parseField currentValue false parsedSource field source st = Ok (b, st') /\
          offered st'
          = offered st ++ flatten elems
                       ++ [VArr (Fresh (allocated st)) (flatten elems)]) /\
      (exists b st' n,
          parseField currentValue true parsedSource field source st = Ok (b, st') /\
          offered st' = offered st ++ firstn n (flatten elems) /\
          (forall x, In x (firstn (n - 1) (flatten elems)) ->
                     accepted currentValue x source st = false) /\
          (b = true ->
           (1 <= n)%nat /\
           exists x, nth_error (flatten elems) (n - 1) = Some x /\
                     accepted currentValue x source st = true /\
                     suggestionsList st'
                     = suggestionsList st ++ [mkSuggestion x x source]) /\
          (b = false ->
           n = List.length (flatten elems) /\
           (forall x, In x (flatten elems) ->
                      accepted currentValue x source st = false) /\
           suggestionsList st' = suggestionsList st))) /\
  (forall elems,
      forallb (fun x => negb (Js.isArray x)) elems = true -> flatten elems = elems) /\
  (forall field node0 parsedSource source r props st,
      Str.split "." field = [node0] ->
      Js.typeof_object parsedSource = true ->
      Js.get parsedSource node0 = Ok (VObj r props) ->
      parseField currentValue showDistinctSuggestions parsedSource field source st
      = Ok (false, st)).
Proof.
  split; [|split; [|split; [|split]]].
  - apply nestedDoc_candidates.
  - intros field node0 node1 rest parsedSource source r items st Hsplit Ht Hg.
    unfold parseField. rewrite (split_children _ _ _ _ _ Hsplit), Hsplit.
    apply (parseNodes_intermediate_array _ _ _ _ _ _ _ r); assumption.
  - intros field node0 parsedSource source r elems st Hsplit Ht Hg Hs Hp.
    unfold parseField. rewrite Hsplit. split.
    + apply (parseFieldNodes_terminal_array_all _ _ _ _ r); assumption.
    + apply (parseFieldNodes_terminal_array_distinct _ _ _ _ r); assumption.
  - apply flatten_flat.
  - intros field node0 parsedSource source r props st Hsplit Ht Hg.
    unfold parseField. rewrite Hsplit.
    apply (parseNodes_terminal_object _ _ _ _ _ r props); assumption.
Qed.

Lemma parseField_candidates_witness :
  (parseField "y" true itemsDoc "items.name" itemsDoc initial
   = (forEach (fun arrayItem => parseField "y" true arrayItem "name" itemsDoc)
              [obj 2 [("name", VStr "x")]; obj 3 [("name", VStr "y")]] ;;
      ret false) initial) /\
  (exists b st',
      parseField "y" false tagsDoc "tags" tagsDoc initial = Ok (b, st') /\
      offered st' = [VStr "x"; VStr "y"; VArr (Fresh 0) [VStr "x"; VStr "y"]]) /\
  (exists st',
      parseField "y" true tagsDoc "tags" tagsDoc initial = Ok (true, st') /\
      offered st' = [VStr "x"; VStr "y"] /\
      accepted "y" (VStr "x") tagsDoc initial = false /\
      accepted "y" (VStr "y") tagsDoc initial = true /\
      suggestionsList st' = [mkSuggestion (VStr "y") (VStr "y") tagsDoc]) /\
  flatten [VStr "x"; VStr "y"] = [VStr "x"; VStr "y"] /\
  parseField "y" true tagsDoc "geo" tagsDoc initial = Ok (false, initial).
Proof.
  destruct (parseField_candidates "y" true) as (_ & H2 & H3 & H4 & H5).
  assert (Hp : forall x, In x (flatten [VStr "x"; VStr "y"]) -> ownToString x = false).
  { intros x [<-|[<-|[]]]; reflexivity. }
  split; [|split; [|split; [|split]]].
  - apply (H2 "items.name" "items" "name" [] itemsDoc itemsDoc (Input 1)); reflexivity.
  - destruct (H3 "tags" "tags" tagsDoc tagsDoc (Input 1) [VStr "x"; VStr "y"] initial
                 eq_refl eq_refl eq_refl eq_refl Hp) as [(b & st' & E & Ho) _].
    exists b, st'. split; [exact E | exact Ho].
  - destruct (H3 "tags" "tags" tagsDoc tagsDoc (Input 1) [VStr "x"; VStr "y"] initial
                 eq_refl eq_refl eq_refl eq_refl Hp)
      as [_ (b & st' & n & E & Ho & Hrej & Htrue & Hfalse)].
    assert (Hb : b = true).
    { destruct b; [reflexivity|]. destruct (Hfalse eq_refl) as (_ & Hall & _).
      specialize (Hall (VStr "y") (or_intror (or_introl eq_refl))).
      vm_compute in Hall. discriminate Hall. }
    subst b. destruct (Htrue eq_refl) as (Hn & x & Hx & Hax & Hl).
    assert (Hn2 : n = 2%nat).
    { destruct n as [|[|[|m]]]; [lia| |reflexivity|].
      - cbn in Hx. injection Hx as <-. vm_compute in Hax. discriminate Hax.
      - cbn in Hx. destruct m; discriminate Hx. }
    subst n. cbn in Hx. injection Hx as <-.
    exists st'. split; [exact E|]. split; [exact Ho|].
    split; [apply Hrej; left; reflexivity|]. split; [exact Hax | exact Hl].
  - apply H4. reflexivity.
  - apply (H5 "geo" "geo" tagsDoc tagsDoc (Input 2) [("lat", VNum (Fin 1))]); reflexivity.
Defined.

(** C7 (as stated) fails in distinct mode: of the two elements of [tags]
    in {tags: ["x", "y"]} the first is accepted with the empty term, and
    the second is never handed to the collector, so that the call returns
    "x" alone. *)
Lemma distinct_mode_stops_offering :
  exists st',
    parseField "" true tagsDoc "tags" tagsDoc initial = Ok (true, st') /\
    Js.get tagsDoc "tags" = Ok (arr 1 [VStr "x"; VStr "y"]) /\
    offered st' = [VStr "x"] /\
    ~ In (VStr "y") (offered st') /\
    labelsOf (getSuggestions ["tags"] [tagsDoc] "" true) = Some [VStr "x"].
Proof.
  eexists. split; [vm_compute; reflexivity|]. split; [reflexivity|].
  split; [reflexivity|]. split; [|vm_compute; reflexivity].
  cbn. intros [H|[]]. discriminate H.
Qed.

(** ** Distinct mode *)

(** C2 on the code.  In distinct mode one document gives two suggestions
    when a field with a nested path is accepted (the answer of the nested
    call is dropped, and the next field is tried), and when the second pass
    accepts an earlier field of a document the first pass took a later
    field from: the list is then longer than the list of documents. *)
Theorem distinct_mode_exceeds_documents :
  (exists r,
      getSuggestions ["a.b"; "c"] [nestedPathDoc] "" true = Ok r /\
      map label r = [VStr "x"; VStr "y"] /\
      map source r = [nestedPathDoc; nestedPathDoc] /\
      (List.length r > List.length [nestedPathDoc])%nat) /\
  (exists r,
      getSuggestions ["a"; "b"] twoFieldDocs "x" true = Ok r /\
      map label r = [VStr "x"; VStr "zz"; VStr "y"] /\
      (List.length r > List.length twoFieldDocs)%nat).
Proof.
  split; eexists; (split; [vm_compute; reflexivity|]);
    repeat split; cbn; lia.
Qed.

(** What does hold in distinct mode: with fields of a single node, one
    traversal adds at most one suggestion for each document. *)

Lemma populate_oneOrNone currentValue val parsedSource source :
  oneOrNone (populateSuggestionsList currentValue true val parsedSource source).
Proof.
  intros st b st' H. apply populate_cases in H as [-> ->].
  destruct (accepted currentValue val source st); [left | right]; split;
    try reflexivity.
  cbn. rewrite length_app. cbn. lia.
Qed.

Lemma some_oneOrNone {A : Type} (f : A -> M State bool) (l : list A) :
  (forall x, In x l -> oneOrNone (f x)) -> oneOrNone (some f l).
Proof.
  induction l as [|x t IH]; intros Hf st b st' H.
  - injection H as <- <-. right. split; reflexivity.
  - cbn [some] in H. unfold bind in H.
    destruct (f x st) as [[b1 st1]|] eqn:E; [|discriminate].
    destruct (Hf x (or_introl eq_refl) st b1 st1 E) as [[-> Hlen]|[-> Heq]].
    + injection H as <- <-. left. split; [reflexivity | exact Hlen].
    + rewrite <- Heq. apply IH; [|exact H].
      intros y Hy. apply Hf. right. exact Hy.
Qed.

Lemma parseFieldNodes_oneOrNone currentValue node0 parsedSource source :
  oneOrNone (parseFieldNodes currentValue true node0 [] parsedSource source).
Proof.
  intros st b st'. cbn [parseFieldNodes].
  destruct (Js.typeof_object parsedSource);
    [|intros H; injection H as <- <-; right; split; reflexivity].
  unfold bind at 1. unfold lift.
  destruct (Js.get parsedSource node0) as [lbl|]; [|discriminate].
  destruct (Js.truthy lbl);
    [|intros H; injection H as <- <-; right; split; reflexivity].
  unfold bind at 1.
  destruct (extractSuggestion lbl st) as [[val st1]|] eqn:E; [|discriminate].
  apply extract_cases in E as (Hs & _). rewrite <- Hs.
  destruct (Js.truthy val);
    [|intros H; injection H as <- <-; right; split; reflexivity].
  destruct val; try apply populate_oneOrNone.
  apply some_oneOrNone. intros x _. apply populate_oneOrNone.
Qed.

Lemma traverse_distinct_bound currentValue fields suggestions :
  forallb singleNode fields = true ->
  forall st u st',
    traverseSuggestions fields suggestions currentValue true st = Ok (u, st') ->
    (List.length (suggestionsList st')
     <= List.length (suggestionsList st) + List.length suggestions)%nat.
Proof.
  intros Hf. rewrite forallb_forall in Hf. cbn [traverseSuggestions].
  induction suggestions as [|item t IH]; intros st u st' H.
  - injection H as _ <-. cbn. lia.
  - cbn [forEach] in H. unfold bind at 1 in H.
    destruct (some _ fields st) as [[b st1]|] eqn:E; [|discriminate].
    apply IH in H.
    assert (Hone : oneOrNone
                     (some (fun field => parseField currentValue true item field item)
                           fields)).
    { apply some_oneOrNone. intros field Hin. specialize (Hf field Hin).
      unfold singleNode in Hf. unfold parseField.
      destruct (Str.split "." field) as [|node0 [|node1 rest]]; try discriminate.
      apply parseFieldNodes_oneOrNone. }
    destruct (Hone st b st1 E) as [[_ Hl]|[_ Hl]]; cbn [List.length]; rewrite ?Hl in H;
      lia.
Qed.

Lemma getSuggestions_distinct_bound currentValue fields suggestions r :
  forallb singleNode fields = true ->
  getSuggestions fields suggestions currentValue true = Ok r ->
  (List.length r <= List.length suggestions + (List.length suggestions - 1))%nat.
Proof.
  intros Hf. unfold getSuggestions.
  destruct (traverseSuggestions _ _ _ _ initial) as [[u st1]|] eqn:E1; [|discriminate].
  pose proof (traverse_distinct_bound _ _ _ Hf _ _ _ E1) as H1. cbn in H1.
  destruct (List.length (suggestionsList st1) <? List.length suggestions)%nat eqn:Hlt;
    cbn [andb].
  - apply Nat.ltb_lt in Hlt.
    destruct (negb (skipWordMatch st1)); [|intros H; injection H as <-; lia].
    destruct (traverseSuggestions _ _ _ _ (setSkipWordMatch st1)) as [[u2 st2]|] eqn:E2;
      [|discriminate].
    pose proof (traverse_distinct_bound _ _ _ Hf _ _ _ E2) as H2. cbn in H2.
    intros H. injection H as <-. lia.
  - apply Nat.ltb_ge in Hlt. intros H. injection H as <-. lia.
Qed.

(** ** The second pass on one field *)

Lemma includes_app (l l' : list Value) (v : Value) :
  Js.includes l v = true -> Js.includes (l ++ l') v = true.
Proof.
  unfold Js.includes. rewrite existsb_app. intros ->. reflexivity.
Qed.

Lemma traverseSuggestions_labels_grow fields suggestions currentValue d :
  preserves (fun st st' => exists added, labelsList st' = labelsList st ++ added)
    (traverseSuggestions fields suggestions currentValue d).
Proof.
  apply traverseSuggestions_preserves.
  - intros s. exists []. rewrite app_nil_r. reflexivity.
  - intros a b c [x Hx] [y Hy]. exists (x ++ y). rewrite Hy, Hx, app_assoc. reflexivity.
  - intros val ps src st b st' H. apply populate_cases in H as [_ ->].
    destruct (accepted _ _ _ _); cbn; [eexists; reflexivity|].
    exists []. rewrite app_nil_r. reflexivity.
  - intros val st v st' H. apply extract_cases in H as (_ & -> & _).
    exists []. rewrite app_nil_r. reflexivity.
Qed.

Lemma covered_after fields suggestions currentValue d v st u st' :
  traverseSuggestions fields suggestions currentValue d st = Ok (u, st') ->
  covered v st -> covered v st'.
Proof.
  intros H Hc. apply traverseSuggestions_labels_grow in H as [added Hl].
  unfold covered in *. rewrite Hl. apply includes_app. exact Hc.
Qed.

(** In distinct mode a document with a scalar under the one field is just
    one call of the collector. *)
Lemma distinct_step currentValue field node item v st :
  Str.split "." field = [node] ->
  Js.typeof_object item = true ->
  Js.get item node = Ok v ->
  Js.truthy v = true ->
  Js.typeof_object v = false ->
  some (fun f => parseField currentValue true item f item) [field] st
  = match populateSuggestionsList currentValue true v item item st with
    | Ok (b, st') => Ok (b, st')
    | Throw e => Throw e
    end.
Proof.
  intros Hs Ho Hg Ht Hv. cbn [some]. unfold bind at 1. unfold parseField. rewrite Hs.
  rewrite (parseNodes_terminal_scalar _ _ node item item v st Ho Hg Ht Hv).
  destruct (populateSuggestionsList _ _ _ _ _ _) as [[[|] st1]|]; reflexivity.
Qed.

Lemma distinct_step_cases currentValue field node item st b st' :
  Str.split "." field = [node] ->
  hasScalar node item = true ->
  some (fun f => parseField currentValue true item f item) [field] st = Ok (b, st') ->
  exists v,
    Js.get item node = Ok v /\
    b = accepted currentValue v item st /\
    st' = (if accepted currentValue v item st
           then accept v item (log v st) else log v st).
Proof.
  intros Hs Hd H. unfold hasScalar in Hd. apply andb_true_iff in Hd as [Ho Hd].
  destruct (Js.get item node) as [v|] eqn:Hg; [|discriminate].
  apply andb_true_iff in Hd as [Ht Hv]. apply negb_true_iff in Hv.
  rewrite (distinct_step _ _ _ _ _ _ Hs Ho Hg Ht Hv) in H.
  destruct (populateSuggestionsList _ _ _ _ _ _) as [[b1 st1]|] eqn:E; [|discriminate].
  injection H as <- <-. apply populate_cases in E as [-> ->].
  exists v. rewrite andb_true_r. repeat split.
Qed.

Lemma filter_partition_length {A : Type} (p : A -> bool) (l : list A) :
  (List.length (filter p l) + List.length (filter (fun x => negb (p x)) l)
   = List.length l)%nat.
Proof.
  induction l as [|x t IH]; [reflexivity|].
  cbn [filter]. destruct (p x); cbn [negb List.length]; lia.
Qed.

Lemma hasScalar_not_nullish (node : string) (doc : Value) :
  hasScalar node doc = true -> Js.isNullish doc = false.
Proof. destruct doc; try reflexivity; discriminate. Qed.

(** With [skipWordMatch] set, the pass over documents that hold a scalar
    under the one field returns. *)
Lemma skip_pass_returns currentValue field node (suggestions : list Value) :
  Str.split "." field = [node] ->
  forallb (hasScalar node) suggestions = true ->
  forall st,
    skipWordMatch st = true ->
    exists st', traverseSuggestions [field] suggestions currentValue true st
                = Ok (tt, st').
Proof.
  intros Hs. induction suggestions as [|d t IH]; intros Hall st Hskip.
  - exists st. reflexivity.
  - cbn [forallb] in Hall. apply andb_true_iff in Hall as [Hd Ht].
    pose proof (hasScalar_not_nullish _ _ Hd) as Hnn.
    unfold hasScalar in Hd. apply andb_true_iff in Hd as [Ho Hd].
    destruct (Js.get d node) as [v|] eqn:Hg; [|discriminate].
    apply andb_true_iff in Hd as [Htr Hv]. apply negb_true_iff in Hv.
    assert (Hpop : exists b st1,
               populateSuggestionsList currentValue true v d d st = Ok (b, st1)).
    { unfold populateSuggestionsList, isWordMatch. cbn [log skipWordMatch labelsList].
      rewrite Hskip. destruct (_ && _); [eauto|].
      destruct (get_returns d "_promoted" Hnn) as [p ->].
      destruct (Js.truthy p); eauto. }
    destruct Hpop as (b & st1 & E).
    pose proof (populate_skip _ _ _ _ _ _ _ _ E) as Hskip1. cbn beta in Hskip1.
    destruct (IH Ht st1) as [st' E']; [congruence|].
    exists st'. cbn [traverseSuggestions forEach]. unfold bind at 1.
    rewrite (distinct_step _ _ _ _ _ _ Hs Ho Hg Htr Hv), E. exact E'.
Qed.

(** A pass adds at most one suggestion for each document whose value is a
    label when the pass ends. *)
Lemma pass_count_used currentValue field node (suggestions : list Value) :
  Str.split "." field = [node] ->
  forallb (hasScalar node) suggestions = true ->
  forall st u st',
    traverseSuggestions [field] suggestions currentValue true st = Ok (u, st') ->
    (List.length (suggestionsList st')
     <= List.length (suggestionsList st)
        + List.length (filter (fun doc => Js.includes (labelsList st') (valueAt node doc))
                              suggestions))%nat.
Proof.
  intros Hs. induction suggestions as [|d t IH]; intros Hall st u st' H.
  - injection H as _ <-. cbn. lia.
  - cbn [forallb] in Hall. apply andb_true_iff in Hall as [Hd Ht].
    cbn [traverseSuggestions forEach] in H. unfold bind at 1 in H.
    destruct (some _ [field] st) as [[b st1]|] eqn:E; [|discriminate].
    destruct (distinct_step_cases _ _ _ _ _ _ _ Hs Hd E) as (v & Hg & _ & Hst1).
    pose proof (IH Ht st1 u st' H) as Hle.
    cbn [filter]. unfold valueAt at 1. rewrite Hg.
    destruct (accepted currentValue v d st) eqn:Ha.
    + assert (Hc : covered v st').
      { apply (covered_after [field] t currentValue true v st1 u st' H).
        rewrite Hst1. unfold covered. cbn [accept log labelsList].
        unfold Js.includes. rewrite existsb_app. cbn [existsb].
        rewrite same_value_zero_refl, orb_true_r. reflexivity. }
      unfold covered in Hc. rewrite Hc. rewrite Hst1 in Hle.
      cbn [accept log suggestionsList] in Hle. rewrite length_app in Hle.
      cbn [List.length] in *. lia.
    + rewrite Hst1 in Hle. cbn [log suggestionsList] in Hle.
      destruct (Js.includes (labelsList st') v); cbn [List.length]; lia.
Qed.

(** What a pass adds, over documents that are not promoted, to lists that
    hold the labels [L]: suggestions with labels that are not in [L], at
    most one for each document whose value is not in [L]. *)
Lemma pass_adds_unused currentValue field node (L : list Value)
      (suggestions : list Value) :
  Str.split "." field = [node] ->
  forallb (hasScalar node) suggestions = true ->
  forallb (fun doc => negb (isPromoted doc)) suggestions = true ->
  forall st u st',
    (forall x, Js.includes L x = true -> Js.includes (labelsList st) x = true) ->
    traverseSuggestions [field] suggestions currentValue true st = Ok (u, st') ->
    exists added,
      suggestionsList st' = suggestionsList st ++ added /\
      (forall s, In s added ->
                 Js.includes L (label s) = false /\ In (source s) suggestions) /\
      (List.length added
       <= List.length (filter (fun doc => negb (Js.includes L (valueAt node doc)))
                              suggestions))%nat.
Proof.
  intros Hs. induction suggestions as [|d t IH]; intros Hall Hnp st u st' HL H.
  - injection H as _ <-. exists []. rewrite app_nil_r.
    split; [reflexivity|]. split; [intros s []|]. cbn. lia.
  - cbn [forallb] in Hall, Hnp. apply andb_true_iff in Hall as [Hd Ht].
    apply andb_true_iff in Hnp as [Hpd Hpt]. apply negb_true_iff in Hpd.
    cbn [traverseSuggestions forEach] in H. unfold bind at 1 in H.
    destruct (some _ [field] st) as [[b st1]|] eqn:E; [|discriminate].
    destruct (distinct_step_cases _ _ _ _ _ _ _ Hs Hd E) as (v & Hg & _ & Hst1).
    cbn [filter]. unfold valueAt at 1. rewrite Hg.
    destruct (accepted currentValue v d st) eqn:Ha.
    + assert (Hnew : Js.includes L v = false).
      { unfold accepted in Ha. rewrite Hpd, orb_false_r in Ha.
        apply andb_true_iff in Ha as [_ Ha]. apply negb_true_iff in Ha.
        apply not_true_is_false. intros HLv. rewrite (HL v HLv) in Ha. discriminate. }
      destruct (IH Ht Hpt st1 u st') as (added & Hl & Hadded & Hlen); [|exact H|].
      { intros x Hx. rewrite Hst1. cbn [accept log labelsList].
        apply includes_app. apply HL. exact Hx. }
      exists (mkSuggestion v v d :: added). rewrite Hl, Hst1.
      cbn [accept log suggestionsList]. rewrite <- app_assoc.
      split; [reflexivity|]. rewrite Hnew. cbn [negb List.length]. split; [|lia].
      intros s [<-|Hin]; [split; [exact Hnew | left; reflexivity]|].
      destruct (Hadded s Hin) as [H1 H2]. split; [exact H1 | right; exact H2].
    + destruct (IH Ht Hpt st1 u st') as (added & Hl & Hadded & Hlen); [|exact H|].
      { intros x Hx. rewrite Hst1. cbn [log labelsList]. apply HL. exact Hx. }
      exists added. rewrite Hl, Hst1. cbn [log suggestionsList].
      split; [reflexivity|]. split.
      * intros s Hin. destruct (Hadded s Hin) as [H1 H2].
        split; [exact H1 | right; exact H2].
      * destruct (negb (Js.includes L v)); cbn [List.length]; lia.
Qed.

(** C1 (as amended).  The second pass does not start from scratch: it runs
    with [skipWordMatch] set on the lists the first pass left.  With one
    field that names a single key, in distinct mode, over documents that are
    not promoted and hold a truthy scalar under that key, when the first
    pass leaves fewer suggestions than there are documents the second pass
    returns, and the list returned is the list of the first pass followed by
    what the second pass adds: suggestions of the documents given, with
    labels that the first pass has not used.  The list returned has at most
    one suggestion for each document. *)
Theorem second_pass_merges
        (field node : string) (suggestions : list Value) (currentValue : string)
        (st1 : State) :
  Str.split "." field = [node] ->
  forallb (hasScalar node) suggestions = true ->
  forallb (fun doc => negb (isPromoted doc)) suggestions = true ->
  traverseSuggestions [field] suggestions currentValue true initial = Ok (tt, st1) ->
  (List.length (suggestionsList st1) < List.length suggestions)%nat ->
  exists st2 added,
    traverseSuggestions [field] suggestions currentValue true (setSkipWordMatch st1)
    = Ok (tt, st2) /\
    suggestionsList st2 = suggestionsList st1 ++ added /\
    getSuggestions [field] suggestions currentValue true
    = Ok (suggestionsList st1 ++ added) /\
    (forall s, In s added ->
               Js.includes (map label (suggestionsList st1)) (label s) = false /\
               In (source s) suggestions) /\
    (List.length (suggestionsList st1 ++ added) <= List.length suggestions)%nat.
Proof.
  intros Hs Hall Hnp H1 Hlt.
  destruct (skip_pass_returns currentValue field node suggestions Hs Hall
                              (setSkipWordMatch st1) eq_refl) as [st2 E2].
  pose proof (getSuggestions_second_pass_appends [field] suggestions currentValue true
                                                 st1 H1 Hlt) as Hg.
  rewrite E2 in Hg. destruct Hg as (_ & Hget & _).
  destruct (traverseSuggestions_labelsInv _ _ _ _ _ _ _ H1 labelsInv_initial)
    as [Hmap _].
  destruct (pass_adds_unused currentValue field node (labelsList st1) suggestions
                             Hs Hall Hnp (setSkipWordMatch st1) tt st2)
    as (added & Hl & Hadded & Hlen); [intros x Hx; exact Hx | exact E2 |].
  cbn [setSkipWordMatch suggestionsList] in Hl.
  pose proof (pass_count_used currentValue field node suggestions Hs Hall
                              initial tt st1 H1) as Hfirst.
  cbn [initial suggestionsList List.length] in Hfirst.
  pose proof (filter_partition_length
                (fun doc => Js.includes (labelsList st1) (valueAt node doc))
                suggestions) as Hpart.
  exists st2, added. split; [exact E2|]. split; [exact Hl|].
  split; [rewrite Hget, Hl; reflexivity|]. split.
  - rewrite Hmap. exact Hadded.
  - rewrite length_app. lia.
Qed.

Lemma second_pass_merges_witness :
  exists st1 st2,
    traverseSuggestions ["a"] yxDocs "x" true initial = Ok (tt, st1) /\
    map label (suggestionsList st1) = [VStr "x"] /\
    traverseSuggestions ["a"] yxDocs "x" true (setSkipWordMatch st1) = Ok (tt, st2) /\
    map label (suggestionsList st2) = [VStr "x"; VStr "y"] /\
    labelsOf (getSuggestions ["a"] yxDocs "x" true) = Some [VStr "x"; VStr "y"] /\
    (List.length (suggestionsList st2) <= List.length yxDocs)%nat.
Proof.
  assert (H1 : exists st1,
             traverseSuggestions ["a"] yxDocs "x" true initial = Ok (tt, st1) /\
             map label (suggestionsList st1) = [VStr "x"])
    by (eexists; split; vm_compute; reflexivity).
  destruct H1 as (st1 & H1 & Hl1).
  assert (Hlt : (List.length (suggestionsList st1) < List.length yxDocs)%nat).
  { rewrite <- (length_map label), Hl1. cbn. lia. }
  destruct (second_pass_merges "a" "a" yxDocs "x" st1 eq_refl eq_refl eq_refl H1 Hlt)
    as (st2 & added & E2 & Hl2 & Hget & _ & Hlen).
  exists st1, st2. split; [exact H1|]. split; [exact Hl1|]. split; [exact E2|].
  assert (Hr : labelsOf (getSuggestions ["a"] yxDocs "x" true)
               = Some [VStr "x"; VStr "y"]) by (vm_compute; reflexivity).
  rewrite Hget in Hr. cbn [labelsOf] in Hr. injection Hr as Hr.
  rewrite Hl2. split; [exact Hr|]. split; [vm_compute; reflexivity | exact Hlen].
Defined.

(** C1 (as stated) fails: on the documents {a: "y"} and {a: "x"} and the
    term "x" the first pass finds "x"; a second pass from scratch would give
    "y", "x", in document order, and the call returns "x", "y": the first
    pass's suggestion stays at the head. *)
Lemma getSuggestions_not_from_scratch :
  exists st1,
    traverseSuggestions ["a"] yxDocs "x" true initial = Ok (tt, st1) /\
    (List.length (suggestionsList st1) < List.length yxDocs)%nat /\
    labelsOf (secondPassFromScratch ["a"] yxDocs "x" true)
    = Some [VStr "y"; VStr "x"] /\
    labelsOf (getSuggestions ["a"] yxDocs "x" true)
    = Some [VStr "x"; VStr "y"] /\
    getSuggestions ["a"] yxDocs "x" true
    <> secondPassFromScratch ["a"] yxDocs "x" true.
Proof.
  eexists. split; [vm_compute; reflexivity|].
  split; [vm_compute; lia|].
  split; [vm_compute; reflexivity|].
  split; [vm_compute; reflexivity|].
  vm_compute. discriminate.
Qed.

(** * Further properties of the code *)

(** ** Click identifiers *)





(** ** flatten *)

(** X2.  [flatten] leaves no array among the elements of its result, so
    flattening twice is flattening once; it goes through the concatenation
    of two arrays part by part, and the array [extractSuggestion] gives for
    an array is flat in this sense. *)
Theorem flatten_is_flat (l l' : list Value) :
  (forall y, In y (flatten l) -> Js.isArray y = false) /\
  flatten (flatten l) = flatten l /\
  flatten (l ++ l') = flatten l ++ flatten l' /\
  (forall r st,
      exists elems st',
        extractSuggestion (VArr r l) st = Ok (VArr (Fresh (allocated st)) elems, st') /\
        elems = flatten l /\
        forall y, In y elems -> Js.isArray y = false).
Proof.
  pose proof (flatten_no_array l) as Hf. rewrite Forall_forall in Hf.
  split; [exact Hf|]. split; [|split].
  - apply flatten_flat. apply forallb_forall. intros y Hy.
    rewrite (Hf y Hy). reflexivity.
  - rewrite !flatten_flat_map. apply flat_map_app.
  - intros r st. eexists. eexists. split; [reflexivity|]. split; [reflexivity | exact Hf].
Qed.

(** ** flatReactProp *)

Lemma filter_filter_key (seen : list string) (r : string) (o : Obj) :
  filter (fun kv => negb (existsb (String.eqb (fst kv)) (r :: seen))) o
  = filter (fun kv => negb (existsb (String.eqb (fst kv)) seen))
           (filter (fun kv => negb (String.eqb (fst kv) r)) o).
Proof.
  induction o as [|[k v] t IH]; simpl in *; [reflexivity|].
  destruct (String.eqb k r); simpl; [exact IH|].
  destruct (existsb (String.eqb k) seen); simpl; rewrite IH; reflexivity.
Qed.

Lemma filter_seen_key (seen : list string) (r : string) (o : Obj) :
  existsb (String.eqb r) seen = true ->
  filter (fun kv => negb (existsb (String.eqb (fst kv)) seen))
         (filter (fun kv => negb (String.eqb (fst kv) r)) o)
  = filter (fun kv => negb (existsb (String.eqb (fst kv)) seen)) o.
Proof.
  intros Hr. induction o as [|[k v] t IH]; [reflexivity|].
  cbn [filter fst]. destruct (String.eqb k r) eqn:E; cbn [negb].
  - apply String.eqb_eq in E. subst k. rewrite Hr. cbn [negb]. exact IH.
  - cbn [filter fst]. rewrite IH. reflexivity.
Qed.

(** [flatReact] goes through the properties of the object, each with its
    value. *)
Lemma flatReact_properties (r : ref) (props : Obj) :
  flatReact (VObj r props)
  = flat_map (fun kv => reactItem (snd kv)) (Js.spread (VObj r props)).
Proof.
  unfold Js.spread. cbn [Js.own flatReact].
  rewrite <- (filter_true (Js.dedupe props)) at 1.
  change (fun _ : string * Value => true)
    with (fun kv : string * Value => negb (existsb (String.eqb (fst kv)) [])).
  generalize (@nil string) as seen.
  induction props as [|[k v] t IH]; intros seen; [reflexivity|].
  cbn [Js.dedupe filter fst]. destruct (existsb (String.eqb k) seen) eqn:Hk;
    cbn [negb].
  - rewrite IH, filter_seen_key by exact Hk. reflexivity.
  - cbn [flat_map snd]. rewrite IH, filter_filter_key. reflexivity.
Qed.

Lemma flatReactAll_properties (react : Value) :
  flatReactAll react
  = if Js.truthy react
    then flat_map (fun kv => reactItem (snd kv)) (Js.spread react)
    else [].
Proof.
  unfold flatReactAll. destruct (Js.truthy react); [|reflexivity].
  destruct react; try reflexivity. apply flatReact_properties.
Qed.

Lemma filter_absent_key (o : Obj) (k : string) :
  Js.has_key o k = false ->
  filter (fun kv => negb (String.eqb (fst kv) k)) o = o.
Proof.
  induction o as [|[k0 v0] t IH]; [reflexivity|].
  cbn [Js.has_key filter fst]. intros H. apply orb_false_iff in H as [Hk Ht].
  rewrite Hk. cbn [negb]. rewrite (IH Ht). reflexivity.
Qed.

Lemma flatReactAll_cons (r : ref) (k : string) (v : Value) (rest : Obj) :
  Js.has_key rest k = false ->
  flatReactAll (VObj r ((k, v) :: rest)) = reactItem v ++ flatReactAll (VObj r rest).
Proof.
  intros Hk. rewrite !flatReactAll_properties. cbn [Js.truthy]. unfold Js.spread.
  cbn [Js.own Js.dedupe flat_map snd].
  rewrite filter_absent_key; [reflexivity|]. rewrite has_key_dedupe. exact Hk.
Qed.

(** X3.  [flatReactProp] lists what the traversal of [reactProp] meets,
    in order, but for the component itself.  For an object it is the
    contribution of the first property followed by the list for the other
    properties: a non-empty string contributes itself unless it is
    [componentID], an array its elements other than [componentID], a
    nested object its own list, and a falsy value, a number or [true]
    nothing.  The empty object and a falsy [reactProp] give the empty list,
    and no element of the result is strictly equal to [componentID]. *)
Theorem flatReactProp_spec (componentID : Value) (r : ref) (k : string) (rest : Obj) :
  Js.has_key rest k = false ->
  (forall s, s <> "" ->
             flatReactProp (VObj r ((k, VStr s) :: rest)) componentID
             = (if strict_eq (VStr s) componentID then [] else [VStr s])
               ++ flatReactProp (VObj r rest) componentID) /\
  (forall r' elems,
      flatReactProp (VObj r ((k, VArr r' elems) :: rest)) componentID
      = filter (fun x => negb (strict_eq x componentID)) elems
        ++ flatReactProp (VObj r rest) componentID) /\
  (forall r' props,
      flatReactProp (VObj r ((k, VObj r' props) :: rest)) componentID
      = flatReactProp (VObj r' props) componentID
        ++ flatReactProp (VObj r rest) componentID) /\
  (forall v,
      Js.truthy v = false \/ (exists n, v = VNum n) \/ v = VBool true ->
      flatReactProp (VObj r ((k, v) :: rest)) componentID
      = flatReactProp (VObj r rest) componentID) /\
  flatReactProp (VObj r []) componentID = [] /\
  (forall reactProp,
      Js.truthy reactProp = false -> flatReactProp reactProp componentID = []) /\
  (forall reactProp x,
      In x (flatReactProp reactProp componentID) -> strict_eq x componentID = false).
Proof.
  intros Hk.
  assert (Hcons : forall v,
             flatReactProp (VObj r ((k, v) :: rest)) componentID
             = filter (fun x => negb (strict_eq x componentID)) (reactItem v)
               ++ flatReactProp (VObj r rest) componentID).
  { intros v. unfold flatReactProp. rewrite (flatReactAll_cons r k v rest Hk).
    apply filter_app. }
  split; [|split; [|split; [|split; [|split; [|split]]]]].
  - intros s Hs. rewrite Hcons. unfold reactItem. cbn [Js.truthy].
    destruct (String.eqb s "") eqn:E; [apply String.eqb_eq in E; contradiction|].
    cbn [negb filter]. destruct (strict_eq (VStr s) componentID); reflexivity.
  - intros r' elems. rewrite Hcons. reflexivity.
  - intros r' props. rewrite Hcons. reflexivity.
  - intros v Hv. rewrite Hcons.
    assert (Hnil : reactItem v = []).
    { unfold reactItem. destruct Hv as [Hf|[[n ->]| ->]].
      - rewrite Hf. reflexivity.
      - destruct (Js.truthy (VNum n)); reflexivity.
      - reflexivity. }
    rewrite Hnil. reflexivity.
  - reflexivity.
  - intros reactProp Hf. unfold flatReactProp, flatReactAll. rewrite Hf. reflexivity.
  - intros reactProp x Hx. unfold flatReactProp in Hx.
    apply filter_In in Hx as [_ Hne]. apply negb_true_iff. exact Hne.
Qed.

Lemma flatReactProp_spec_witness :
  Js.has_key [("or", obj 2 [("and", VStr "b")])] "and" = false /\
  flatReactProp (obj 0 [("and", arr 1 [VStr "a"; VStr "me"]);
                        ("or", obj 2 [("and", VStr "b")])]) (VStr "me")
  = [VStr "a"; VStr "b"] /\
  flatReactProp (obj 0 [("and", VStr "me"); ("or", obj 2 [("and", VStr "b")])])
                (VStr "me")
  = [VStr "b"].
Proof.
  destruct (flatReactProp_spec (VStr "me") (Input 0) "and"
                               [("or", obj 2 [("and", VStr "b")])] eq_refl)
    as (Hstr & Harr & _).
  split; [reflexivity|]. split.
  - exact (eq_trans (Harr (Input 1) [VStr "a"; VStr "me"]) eq_refl).
  - assert (Hne : "me" <> "") by discriminate.
    exact (eq_trans (Hstr "me" Hne) eq_refl).
Defined.

(** X4.  The dependencies of an object are those of its first property
    followed by those of the rest: a non-empty string counts itself, an
    array its elements as they are, a nested object its own dependencies,
    and anything else nothing. *)
Theorem flatReactAll_compose (r : ref) (k : string) (v : Value) (rest : Obj) :
  Js.has_key rest k = false ->
  flatReactAll (VObj r ((k, v) :: rest)) = reactItem v ++ flatReactAll (VObj r rest) /\
  (forall s, s <> "" -> reactItem (VStr s) = [VStr s]) /\
  (forall r' elems, reactItem (VArr r' elems) = elems) /\
  (forall r' props, reactItem (VObj r' props) = flatReactAll (VObj r' props)) /\
  (forall n, reactItem (VNum n) = []) /\
  (forall b, reactItem (VBool b) = []).
Proof.
  intros Hk. split; [|split; [|split; [|split; [|split]]]].
  - rewrite !flatReactAll_properties. cbn [Js.truthy]. unfold Js.spread.
    cbn [Js.own Js.dedupe flat_map snd].
    rewrite filter_absent_key; [reflexivity|]. rewrite has_key_dedupe. exact Hk.
  - intros s Hs. unfold reactItem. cbn [Js.truthy].
    destruct (String.eqb s "") eqn:E; [apply String.eqb_eq in E; contradiction|].
    reflexivity.
  - reflexivity.
  - reflexivity.
  - intros n. unfold reactItem. destruct (Js.truthy (VNum n)); reflexivity.
  - intros b. unfold reactItem. destruct (Js.truthy (VBool b)); reflexivity.
Qed.

Lemma flatReactAll_compose_witness :
  Js.has_key [("or", arr 1 [VStr "b"; VStr "c"])] "and" = false /\
  flatReactAll (obj 0 [("and", VStr "a"); ("or", arr 1 [VStr "b"; VStr "c"])])
  = reactItem (VStr "a") ++ flatReactAll (obj 0 [("or", arr 1 [VStr "b"; VStr "c"])]).
Proof.
  split; [reflexivity|].
  apply (flatReactAll_compose (Input 0) "and" (VStr "a")
                              [("or", arr 1 [VStr "b"; VStr "c"])]).
  reflexivity.
Defined.

(** ** Field specifications: alignment and errors *)

Lemma pushEach_pieces (f : Value -> list Value -> result (list Value))
      (Q : Value -> list Value -> Prop) (l : list Value) :
  (forall x acc acc', In x l -> f x acc = Ok acc' ->
                      exists piece, acc' = acc ++ piece /\ Q x piece) ->
  forall acc r,
    pushEach f l acc = Ok r ->
    exists pieces, r = acc ++ List.concat pieces /\ Forall2 Q l pieces.
Proof.
  induction l as [|x t IH]; intros Hf acc r H.
  - injection H as <-. exists []. cbn. rewrite app_nil_r. split; constructor.
  - cbn [pushEach] in H. destruct (f x acc) as [acc'|] eqn:E; [|discriminate].
    cbn [rbind] in H.
    destruct (Hf x acc acc' (or_introl eq_refl) E) as (piece & -> & HQ).
    destruct (IH (fun y a a' Hy => Hf y a a' (or_intror Hy)) _ _ H)
      as (pieces & -> & HF).
    exists (piece :: pieces). cbn [List.concat]. rewrite app_assoc.
    split; [reflexivity | constructor; assumption].
Qed.

Lemma pushEach_throws (f : Value -> list Value -> result (list Value))
      (l : list Value) (x : Value) :
  In x l -> (forall acc, f x acc = Throw TypeError) ->
  forall acc, pushEach f l acc = Throw TypeError.
Proof.
  induction l as [|z t IH]; intros Hin Hx acc; [destruct Hin|].
  cbn [pushEach]. destruct Hin as [->|Hin].
  - rewrite Hx. reflexivity.
  - destruct (f z acc) as [acc'|[]]; [|reflexivity]. cbn [rbind]. apply IH; assumption.
Qed.

Lemma concat_length_le {A : Type} (Q : Value -> list A -> Prop) (l : list Value)
      (pieces : list (list A)) (n : nat) :
  (forall x p, Q x p -> (List.length p <= n)%nat) ->
  Forall2 Q l pieces ->
  (List.length (List.concat pieces) <= n * List.length l)%nat.
Proof.
  intros HQ HF. induction HF as [|x p l' ps Hp HF IH]; cbn [List.concat List.length].
  - lia.
  - rewrite length_app. specialize (HQ x p Hp). lia.
Qed.

Lemma concat_singletons {A : Type} (Q : Value -> list A -> Prop) (l : list Value)
      (pieces : list (list A)) :
  (forall x p, Q x p -> List.length p = 1%nat) ->
  Forall2 Q l pieces ->
  List.length (List.concat pieces) = List.length l.
Proof.
  intros HQ HF. induction HF as [|x p l' ps Hp HF IH]; cbn [List.concat List.length].
  - reflexivity.
  - rewrite length_app, (HQ x p Hp), IH. reflexivity.
Qed.

Lemma concat_Forall {A : Type} (Q : Value -> list A -> Prop) (P : A -> Prop)
      (l : list Value) (pieces : list (list A)) :
  (forall x p, Q x p -> Forall P p) ->
  Forall2 Q l pieces -> Forall P (List.concat pieces).
Proof.
  intros HQ HF. induction HF as [|x p l' ps Hp HF IH]; cbn [List.concat].
  - constructor.
  - apply Forall_app. split; [apply (HQ x p Hp) | exact IH].
Qed.

(** X5.  Whatever [parseFloat] does, when [getNormalizedField] and
    [getNormalizedWeights] return arrays for an array of entries, there is
    one weight for each entry, every weight is a finite number, there are
    at most as many names as weights, and every name is a string or a
    truthy value. *)
Theorem names_and_weights_align (parseFloat : Value -> Num) (r : ref)
        (entries names weights : list Value) :
  getNormalizedField (VArr r entries) = Ok (Some names) ->
  getNormalizedWeights parseFloat (VArr r entries) = Ok (Some weights) ->
  List.length weights = List.length entries /\
  (List.length names <= List.length weights)%nat /\
  (forall w, In w weights -> exists z, w = VNum (Fin z)) /\
  (forall n, In n names -> Js.typeof_string n = true \/ Js.truthy n = true).
Proof.
  unfold getNormalizedField, getNormalizedWeights. cbn [Js.truthy Js.isArray andb].
  destruct (negb (Nat.eqb (List.length entries) 0)); [|discriminate].
  destruct (pushEach _ entries []) as [ns|] eqn:En; [|discriminate].
  cbn [rbind]. intros Hn. injection Hn as <-.
  destruct (pushEach _ entries []) as [ws|] eqn:Ew in |- *; [|discriminate].
  cbn [rbind]. intros Hw. injection Hw as <-.
  apply (pushEach_pieces _
           (fun _ p => (List.length p <= 1)%nat /\
                       Forall (fun n => Js.typeof_string n = true \/ Js.truthy n = true) p))
    in En.
  - apply (pushEach_pieces _
             (fun _ p => List.length p = 1%nat /\
                         Forall (fun w => exists z, w = VNum (Fin z)) p)) in Ew.
    + destruct En as (pn & -> & Fn). destruct Ew as (pw & -> & Fw). cbn [app].
      assert (Hlw : List.length (List.concat pw) = List.length entries).
      { apply (concat_singletons _ _ _ (fun x p H => proj1 H) Fw). }
      split; [exact Hlw|]. split; [|split].
      * rewrite Hlw.
        pose proof (concat_length_le _ _ _ 1 (fun x p H => proj1 H) Fn). lia.
      * apply Forall_forall. apply (concat_Forall _ _ _ _ (fun x p H => proj2 H) Fw).
      * apply Forall_forall. apply (concat_Forall _ _ _ _ (fun x p H => proj2 H) Fn).
    + intros x acc acc' _. destruct (Js.get x "weight") as [w|]; [|discriminate].
      cbn [rbind]. unfold isNumber.
      destruct (negb (Number_isNaN (parseFloat w)) && Number_isFinite w) eqn:E;
        intros H; injection H as <-; eexists; (split; [reflexivity|]);
        (split; [reflexivity|]); repeat constructor.
      * apply andb_true_iff in E as [_ E].
        destruct w as [| | |[]| | |]; try discriminate. eauto.
      * eauto.
  - intros x acc acc' _. destruct (Js.typeof_string x) eqn:Ts.
    + intros H. injection H as <-. eexists. split; [reflexivity|].
      split; [cbn; lia|]. constructor; [left; exact Ts | constructor].
    + destruct (Js.get x "field") as [f|]; [|discriminate]. cbn [rbind].
      destruct (Js.truthy f) eqn:Tf; intros H; injection H as <-.
      * eexists. split; [reflexivity|]. split; [cbn; lia|].
        constructor; [right; exact Tf | constructor].
      * exists []. rewrite app_nil_r. split; [reflexivity|]. split; [cbn; lia|].
        constructor.
Qed.

Lemma names_and_weights_align_witness :
  exists names weights,
    getNormalizedField (arr 0 [VStr "body"; VNum (Fin 7)]) = Ok (Some names) /\
    getNormalizedWeights parseFloatOfNumber (arr 0 [VStr "body"; VNum (Fin 7)])
    = Ok (Some weights) /\
    List.length weights = 2%nat /\
    (List.length names <= List.length weights)%nat.
Proof.
  exists [VStr "body"], [VNum (Fin 1); VNum (Fin 1)].
  destruct (names_and_weights_align parseFloatOfNumber (Input 0)
              [VStr "body"; VNum (Fin 7)] [VStr "body"] [VNum (Fin 1); VNum (Fin 1)]
              eq_refl eq_refl) as (H1 & H2 & _).
  split; [reflexivity|]. split; [reflexivity|]. split; [exact H1 | exact H2].
Defined.

(** X6.  An entry that is [null] or [undefined] makes both
    [getNormalizedField] and [getNormalizedWeights] throw a [TypeError]: they
    read [.field] and [.weight] of every entry that is not a string. *)
Theorem field_specs_throw_on_null (parseFloat : Value -> Num) (r : ref)
        (entries : list Value) :
  forallb (fun e => negb (Js.isNullish e)) entries = false ->
  getNormalizedField (VArr r entries) = Throw TypeError /\
  getNormalizedWeights parseFloat (VArr r entries) = Throw TypeError.
Proof.
  intros H.
  assert (Hex : exists x, In x entries /\ Js.isNullish x = true).
  { induction entries as [|e t IH]; [discriminate|].
    cbn [forallb] in H. apply andb_false_iff in H as [He|Ht].
    - exists e. split; [left; reflexivity|]. apply negb_false_iff. exact He.
    - destruct (IH Ht) as (x & Hin & Hx). exists x. split; [right|]; assumption. }
  destruct Hex as (x & Hin & Hx).
  assert (Hlen : negb (Nat.eqb (List.length entries) 0) = true)
    by (destruct entries; [destruct Hin | reflexivity]).
  unfold getNormalizedField, getNormalizedWeights. cbn [Js.truthy Js.isArray andb].
  rewrite Hlen. split.
  - rewrite (pushEach_throws _ entries x Hin); [reflexivity|].
    intros acc. destruct x; try discriminate; reflexivity.
  - rewrite (pushEach_throws _ entries x Hin); [reflexivity|].
    intros acc. destruct x; try discriminate; reflexivity.
Qed.

Lemma field_specs_throw_on_null_witness :
  forallb (fun e => negb (Js.isNullish e)) [VStr "title"; VNull] = false /\
  getNormalizedField (arr 0 [VStr "title"; VNull]) = Throw TypeError /\
  getNormalizedWeights parseFloatOfNumber (arr 0 [VStr "title"; VNull])
  = Throw TypeError.
Proof.
  split; [reflexivity|].
  apply (field_specs_throw_on_null parseFloatOfNumber (Input 0) [VStr "title"; VNull]).
  reflexivity.
Defined.

(** ** Hits: when parseHits throws *)

Lemma highlight_fold_thrown (highlight : Value) (ks : list string) :
  forall (acc : M nat Obj) n e,
    acc n = Throw e -> fold_left (highlightStep highlight) ks acc n = Throw e.
Proof.
  induction ks as [|k ks IH]; intros acc n e H; cbn [fold_left]; [exact H|].
  apply IH. unfold highlightStep, bind. rewrite H. reflexivity.
Qed.

Lemma highlight_loop_throws (highlight : Value) (ks : list string) :
  forallb (fun k => match Js.get highlight k with
                    | Ok fragments => negb (Js.isNullish fragments)
                    | Throw _ => false
                    end) ks = false ->
  forall (acc : M nat Obj) n data n1,
    acc n = Ok (data, n1) ->
    fold_left (highlightStep highlight) ks acc n = Throw TypeError.
Proof.
  induction ks as [|k ks IH]; intros Hbad acc n data n1 Hacc; [discriminate|].
  cbn [forallb] in Hbad. cbn [fold_left].
  destruct (Js.get highlight k) as [fr|[]] eqn:Hfr.
  - destruct (Js.isNullish fr) eqn:Hn.
    + apply highlight_fold_thrown. unfold highlightStep, bind, lift.
      rewrite Hacc, Hfr. destruct fr; try discriminate; reflexivity.
    + destruct (get_returns fr "0" Hn) as [hv Hhv].
      cbn [negb andb] in Hbad.
      apply (IH Hbad _ n
                (Js.set data "_source"
                        (VObj (Fresh n1)
                              (Js.set (Js.spread (Js.lookup data "_source")) k hv)))
                (S n1)).
      unfold highlightStep, bind, lift, newObject, ret. rewrite Hacc, Hfr, Hhv.
      reflexivity.
  - apply highlight_fold_thrown. unfold highlightStep, bind, lift.
    rewrite Hacc, Hfr. reflexivity.
Qed.

Lemma highlightResults_throws (hit : Value) (n : nat) :
  fragmentsOk hit = false -> highlightResults hit n = Throw TypeError.
Proof.
  unfold fragmentsOk, highlightResults. cbn zeta.
  destruct (Js.truthy (Js.lookup (Js.spread hit) "highlight")); [|discriminate].
  intros H. apply (highlight_loop_throws _ _ H _ n (Js.spread hit) n). reflexivity.
Qed.

Lemma mapM_throws {S A B : Type} (f : A -> M S B) (l : list A) (x : A) :
  In x l -> (forall n, f x n = Throw TypeError) ->
  forall n, mapM f l n = Throw TypeError.
Proof.
  induction l as [|z t IH]; intros Hin Hx n; [destruct Hin|].
  cbn [mapM]. unfold bind at 1. destruct Hin as [->|Hin].
  - rewrite Hx. reflexivity.
  - destruct (f z n) as [[y n1]|[]]; [|reflexivity].
    unfold bind at 1. rewrite (IH Hin Hx n1). reflexivity.
Qed.

(** X7.  [parseHits] throws a [TypeError] when some hit has a highlight
    map in which a field has no fragments ([null] or [undefined]), and when
    [hits] is truthy but neither an array nor a string; a falsy [hits]
    gives the empty array. *)
Theorem parseHits_throws (r : ref) (hits : list Value) (n : nat) :
  forallb fragmentsOk hits = false ->
  parseHits (VArr r hits) n = Throw TypeError /\
  (forall v, Js.truthy v = true -> Js.isArray v = false -> Js.typeof_string v = false ->
             parseHits v n = Throw TypeError) /\
  (forall v, Js.truthy v = false -> parseHits v n = Ok ([], n)).
Proof.
  intros H. split; [|split].
  - assert (Hex : exists x, In x hits /\ fragmentsOk x = false).
    { induction hits as [|h t IH]; [discriminate|].
      cbn [forallb] in H. apply andb_false_iff in H as [Hh|Ht].
      - exists h. split; [left; reflexivity | exact Hh].
      - destruct (IH Ht) as (x & Hin & Hx). exists x. split; [right|]; assumption. }
    destruct Hex as (x & Hin & Hx).
    unfold parseHits. cbn [Js.truthy iterate lift]. unfold bind at 1.
    apply (mapM_throws _ _ x Hin). intros m. unfold bind.
    rewrite (highlightResults_throws x m Hx). reflexivity.
  - intros v Ht Ha Hs. unfold parseHits. rewrite Ht.
    destruct v; try discriminate; reflexivity.
  - intros v Hf. unfold parseHits. rewrite Hf. reflexivity.
Qed.

Lemma parseHits_throws_witness :
  forallb fragmentsOk [helloHit; obj 5 [("highlight", obj 6 [("title", VNull)])]] = false /\
  parseHits (arr 0 [helloHit; obj 5 [("highlight", obj 6 [("title", VNull)])]]) 0
  = Throw TypeError.
Proof.
  split; [reflexivity|].
  destruct (parseHits_throws (Input 0)
              [helloHit; obj 5 [("highlight", obj 6 [("title", VNull)])]] 0 eq_refl)
    as [H _].
  exact H.
Defined.

(** ** getSuggestions: edges *)

Lemma forEach_throws {S A B : Type} (f : A -> M S B) (l : list A) (x : A) :
  In x l -> (forall st, f x st = Throw TypeError) ->
  forall st, forEach f l st = Throw TypeError.
Proof.
  induction l as [|z t IH]; intros Hin Hx st; [destruct Hin|].
  cbn [forEach]. unfold bind. destruct Hin as [->|Hin].
  - rewrite Hx. reflexivity.
  - destruct (f z st) as [[y st1]|[]]; [|reflexivity]. apply IH; assumption.
Qed.

Lemma traverseSuggestions_no_fields suggestions currentValue showDistinctSuggestions st :
  traverseSuggestions [] suggestions currentValue showDistinctSuggestions st
  = Ok (tt, st).
Proof.
  unfold traverseSuggestions. destruct showDistinctSuggestions.
  - apply (forEach_unchanged _ false). reflexivity.
  - apply (forEach_unchanged _ tt). reflexivity.
Qed.

(** X8.  Without fields, and without documents, [getSuggestions] returns
    the empty list: with no field no document is looked into, not even a
    [null] one. *)
Theorem getSuggestions_nothing_to_search (fields : list string)
        (suggestions : list Value) (currentValue : string)
        (showDistinctSuggestions : bool) :
  getSuggestions [] suggestions currentValue showDistinctSuggestions = Ok [] /\
  getSuggestions fields [] currentValue showDistinctSuggestions = Ok [].
Proof.
  split.
  - unfold getSuggestions. rewrite traverseSuggestions_no_fields.
    cbn [suggestionsList initial skipWordMatch negb].
    destruct (_ && _); [|reflexivity].
    rewrite traverseSuggestions_no_fields. reflexivity.
  - unfold getSuggestions, traverseSuggestions.
    destruct showDistinctSuggestions; reflexivity.
Qed.

Lemma parseField_null currentValue showDistinctSuggestions field source st :
  parseField currentValue showDistinctSuggestions VNull field source st
  = Throw TypeError.
Proof.
  unfold parseField. pose proof (split_not_nil "." field) as Hne.
  destruct (Str.split "." field) as [|node0 rest]; [contradiction|].
  destruct rest; reflexivity.
Qed.

(** X9.  A [null] among the documents makes [getSuggestions] throw a
    [TypeError] as soon as there is a field to look up. *)
Theorem getSuggestions_null_document (field : string) (fields : list string)
        (suggestions : list Value) (currentValue : string)
        (showDistinctSuggestions : bool) :
  In VNull suggestions ->
  getSuggestions (field :: fields) suggestions currentValue showDistinctSuggestions
  = Throw TypeError.
Proof.
  intros Hin. unfold getSuggestions.
  assert (H : forall st,
             traverseSuggestions (field :: fields) suggestions currentValue
                                 showDistinctSuggestions st = Throw TypeError).
  { intros st. unfold traverseSuggestions. destruct showDistinctSuggestions.
    - apply (forEach_throws _ _ VNull Hin). intros st1. cbn [some]. unfold bind.
      rewrite parseField_null. reflexivity.
    - apply (forEach_throws _ _ VNull Hin). intros st1. cbn [forEach]. unfold bind.
      rewrite parseField_null. reflexivity. }
  rewrite H. reflexivity.
Qed.

Lemma getSuggestions_null_document_witness :
  In VNull [obj 0 [("a", VStr "x")]; VNull] /\
  getSuggestions ["a"] [obj 0 [("a", VStr "x")]; VNull] "" false = Throw TypeError.
Proof.
  assert (Hin : In VNull [obj 0 [("a", VStr "x")]; VNull])
    by (right; left; reflexivity).
  split; [exact Hin|].
  apply (getSuggestions_null_document "a" [] _ "" false Hin).
Defined.

(** X10.  A field leaves the state as it is and answers false, offering no
    candidate, when the node it is looked up in is not an object (a string,
    a number, [undefined]) and when the value under its first node is
    missing or falsy (0, the empty string, [false], [null]). *)
Theorem parseField_no_value (currentValue : string) (showDistinctSuggestions : bool)
        (parsedSource : Value) (field : string) (source : Value) (st : State) :
  Js.typeof_object parsedSource = false \/
  (exists label, Js.get parsedSource (hd "" (Str.split "." field)) = Ok label /\
                 Js.truthy label = false) ->
  parseField currentValue showDistinctSuggestions parsedSource field source st
  = Ok (false, st).
Proof.
  intros H. unfold parseField.
  destruct (Str.split "." field) as [|node0 rest]; [reflexivity|]. cbn [hd] in H.
  destruct H as [Ht|(lbl & Hg & Hf)].
  - destruct rest; cbn [parseFieldNodes]; rewrite Ht; reflexivity.
  - destruct rest; cbn [parseFieldNodes];
      (destruct (Js.typeof_object parsedSource); [|reflexivity]);
      unfold bind at 1; rewrite Hg; cbn [lift]; rewrite Hf; reflexivity.
Qed.

Lemma parseField_no_value_witness :
  parseField "x" true (obj 0 [("price", VNum (Fin 0))]) "price"
             (obj 0 [("price", VNum (Fin 0))]) initial = Ok (false, initial) /\
  parseField "x" true (VStr "text") "a.b" (VStr "text") initial = Ok (false, initial).
Proof.
  split.
  - apply parseField_no_value. right. exists (VNum (Fin 0)). split; reflexivity.
  - apply parseField_no_value. left. reflexivity.
Defined.

(** ** What the traversal hands to the collector *)

Section PreservesOn.

Context {S : Type} (R : S -> S -> Prop).
Hypothesis R_refl : forall s, R s s.
Hypothesis R_trans : forall a b c, R a b -> R b c -> R a c.

Lemma preserves_forEach_in {A B : Type} (f : A -> M S B) (l : list A) :
  (forall x, In x l -> preserves R (f x)) -> preserves R (forEach f l).
Proof.
  induction l as [|x t IH]; intros Hf; cbn [forEach].
  - apply preserves_ret; assumption.
  - apply preserves_bind; [assumption | apply Hf; left; reflexivity|].
    intros _. apply IH. intros y Hy. apply Hf. right. exact Hy.
Qed.

Lemma preserves_some_in {A : Type} (f : A -> M S bool) (l : list A) :
  (forall x, In x l -> preserves R (f x)) -> preserves R (some f l).
Proof.
  induction l as [|x t IH]; intros Hf; cbn [some].
  - apply preserves_ret; assumption.
  - apply preserves_bind; [assumption | apply Hf; left; reflexivity|].
    intros [|]; [apply preserves_ret; assumption|].
    apply IH. intros y Hy. apply Hf. right. exact Hy.
Qed.

End PreservesOn.

(** The collector is called with the top-level document as [source], and
    with candidates that are not arrays, but for the flattened array that
    follows its elements when the mode is not distinct. *)
Lemma parseFieldNodes_preserves_on
      (R : State -> State -> Prop) (Q : Value -> Prop)
      (currentValue : string) (showDistinctSuggestions : bool) (source : Value) :
  (forall s, R s s) ->
  (forall a b c, R a b -> R b c -> R a c) ->
  (forall val parsedSource,
      Q val ->
      preserves R (populateSuggestionsList currentValue showDistinctSuggestions
                                           val parsedSource source)) ->
  (forall val, preserves R (extractSuggestion val)) ->
  (forall v, Js.isArray v = false -> Q v) ->
  (showDistinctSuggestions = false -> forall r l, Q (VArr r l)) ->
  forall rest node0 parsedSource,
    preserves R (parseFieldNodes currentValue showDistinctSuggestions
                                 node0 rest parsedSource source).
Proof.
  intros R_refl R_trans Hpop Hext Hleaf Harr.
  induction rest as [|node1 rest' IH]; intros node0 parsedSource;
    cbn [parseFieldNodes];
    (destruct (Js.typeof_object parsedSource); [|apply preserves_ret; assumption]);
    (apply preserves_bind; [assumption | apply preserves_lift; assumption |]);
    intros lbl; (destruct (Js.truthy lbl); [|apply preserves_ret; assumption]).
  - intros st b st' H. unfold bind at 1 in H.
    destruct (extractSuggestion lbl st) as [[val st1]|] eqn:E; [|discriminate].
    apply (R_trans _ st1); [apply (Hext _ _ _ _ E)|].
    assert (Hflat : forall r l, val = VArr r l ->
                                forall x, In x l -> Js.isArray x = false).
    { intros r l Hval x Hx. unfold extractSuggestion in E.
      destruct (Js.typeof_object lbl) eqn:Ho.
      - destruct lbl; try discriminate Ho; injection E as E1 _;
          rewrite Hval in E1; try discriminate E1.
        injection E1 as _ E1. subst l.
        pose proof (flatten_no_array elems) as Hf.
        rewrite Forall_forall in Hf. apply Hf. exact Hx.
      - injection E as E1 _. rewrite Hval in E1. subst lbl. discriminate Ho. }
    destruct (Js.truthy val);
      [|apply (preserves_ret R R_refl false _ _ _ H)].
    destruct val as [| | | | |r l|r props];
      try (refine (Hpop _ parsedSource _ _ _ _ H); apply Hleaf; reflexivity).
    destruct showDistinctSuggestions eqn:Hd.
    + revert H. apply preserves_some_in; [assumption..|]. intros x Hx.
      apply Hpop. apply Hleaf. apply (Hflat r l eq_refl x Hx).
    + revert H. apply preserves_bind;
        [assumption| |intros _; apply Hpop; apply Harr; reflexivity].
      apply preserves_forEach_in; [assumption..|]. intros x Hx.
      apply Hpop. apply Hleaf. apply (Hflat r l eq_refl x Hx).
  - destruct lbl;
      (apply preserves_bind;
       [assumption | | intros _; apply preserves_ret; assumption]);
      try apply IH.
    apply preserves_forEach; [assumption..|]. intros x. apply IH.
Qed.

Lemma traverseSuggestions_preserves_on
      (R : State -> State -> Prop) (Q : Value -> Prop)
      (fields : list string) (suggestions : list Value)
      (currentValue : string) (showDistinctSuggestions : bool) :
  (forall s, R s s) ->
  (forall a b c, R a b -> R b c -> R a c) ->
  (forall val parsedSource item,
      In item suggestions -> Q val ->
      preserves R (populateSuggestionsList currentValue showDistinctSuggestions
                                           val parsedSource item)) ->
  (forall val, preserves R (extractSuggestion val)) ->
  (forall v, Js.isArray v = false -> Q v) ->
  (showDistinctSuggestions = false -> forall r l, Q (VArr r l)) ->
  preserves R (traverseSuggestions fields suggestions currentValue
                                   showDistinctSuggestions).
Proof.
  intros R_refl R_trans Hpop Hext Hleaf Harr.
  assert (Hfield : forall item field,
             In item suggestions ->
             preserves R (parseField currentValue showDistinctSuggestions
                                     item field item)).
  { intros item field Hin. unfold parseField.
    destruct (Str.split "." field); [apply preserves_ret; assumption|].
    apply (parseFieldNodes_preserves_on R Q); try assumption.
    intros val ps HQ. apply Hpop; assumption. }
  unfold traverseSuggestions. apply preserves_if.
  - apply preserves_forEach_in; [assumption..|]. intros item Hin.
    apply preserves_some; [assumption..|]. intros field. apply Hfield. exact Hin.
  - apply preserves_forEach_in; [assumption..|]. intros item Hin.
    apply preserves_forEach; [assumption..|]. intros field. apply Hfield. exact Hin.
Qed.

Lemma getSuggestions_all (P : Suggestion -> Prop) (Q : Value -> Prop)
      (fields : list string) (suggestions : list Value)
      (currentValue : string) (showDistinctSuggestions : bool) (r : list Suggestion) :
  (forall val item, In item suggestions -> Q val -> P (mkSuggestion val val item)) ->
  (forall v, Js.isArray v = false -> Q v) ->
  (showDistinctSuggestions = false -> forall a l, Q (VArr a l)) ->
  getSuggestions fields suggestions currentValue showDistinctSuggestions = Ok r ->
  Forall P r.
Proof.
  intros HP Hleaf Harr.
  set (R := fun st st' : State =>
              Forall P (suggestionsList st) -> Forall P (suggestionsList st')).
  assert (Htr : preserves R (traverseSuggestions fields suggestions currentValue
                                                 showDistinctSuggestions)).
  { apply (traverseSuggestions_preserves_on R Q); try assumption.
    - intros s H. exact H.
    - intros a b c Hab Hbc H. apply Hbc, Hab, H.
    - intros val ps item Hin HQ st b st' H Hst.
      apply populate_cases in H as [_ ->].
      destruct (accepted currentValue val item st); [|exact Hst].
      cbn [accept log suggestionsList]. apply Forall_app. split; [exact Hst|].
      constructor; [apply HP; assumption | constructor].
    - intros val st v st' H Hst. apply extract_cases in H as (-> & _). exact Hst. }
  unfold getSuggestions.
  destruct (traverseSuggestions _ _ _ _ initial) as [[u st1]|] eqn:E1; [|discriminate].
  pose proof (Htr _ _ _ E1 (Forall_nil P)) as H1.
  destruct (_ && _).
  - destruct (traverseSuggestions _ _ _ _ (setSkipWordMatch st1)) as [[u2 st2]|] eqn:E2;
      [|discriminate].
    intros H. injection H as <-. apply (Htr _ _ _ E2). exact H1.
  - intros H. injection H as <-. exact H1.
Qed.

(** X11.  Every suggestion [getSuggestions] returns has the same [label]
    and [value], and its [source] is one of the documents given (the whole
    top-level document, also for a value found under a nested path). *)
Theorem getSuggestions_entries (fields : list string) (suggestions : list Value)
        (currentValue : string) (showDistinctSuggestions : bool)
        (r : list Suggestion) (s : Suggestion) :
  getSuggestions fields suggestions currentValue showDistinctSuggestions = Ok r ->
  In s r ->
  label s = value s /\ In (source s) suggestions.
Proof.
  intros Hr Hs.
  pose proof (getSuggestions_all
                (fun s => label s = value s /\ In (source s) suggestions)
                (fun _ => True) fields suggestions currentValue
                showDistinctSuggestions r) as H.
  rewrite Forall_forall in H. apply H; auto.
Qed.

Lemma getSuggestions_entries_witness :
  exists r s,
    getSuggestions ["a.b.c"] [nestedDoc] "" true = Ok r /\
    In s r /\ label s = VStr "x" /\ value s = VStr "x" /\ source s = nestedDoc.
Proof.
  exists [mkSuggestion (VStr "x") (VStr "x") nestedDoc;
          mkSuggestion (VStr "y") (VStr "y") nestedDoc],
         (mkSuggestion (VStr "x") (VStr "x") nestedDoc).
  assert (Hr : getSuggestions ["a.b.c"] [nestedDoc] "" true
               = Ok [mkSuggestion (VStr "x") (VStr "x") nestedDoc;
                     mkSuggestion (VStr "y") (VStr "y") nestedDoc])
    by (vm_compute; reflexivity).
  assert (Hin : In (mkSuggestion (VStr "x") (VStr "x") nestedDoc)
                   [mkSuggestion (VStr "x") (VStr "x") nestedDoc;
                    mkSuggestion (VStr "y") (VStr "y") nestedDoc])
    by (left; reflexivity).
  destruct (getSuggestions_entries _ _ _ _ _ _ Hr Hin) as [Hl _].
  split; [exact Hr|]. split; [exact Hin|]. split; [reflexivity|].
  split; [symmetry; exact Hl | reflexivity].
Defined.

(** X12.  In distinct mode no label is an array: an array value is
    flattened and its elements are offered one by one.  (When the mode is
    not distinct the flattened array is itself offered after its elements,
    and is accepted with the empty term.) *)
Theorem distinct_labels_are_not_arrays (fields : list string)
        (suggestions : list Value) (currentValue : string)
        (r : list Suggestion) (s : Suggestion) :
  getSuggestions fields suggestions currentValue true = Ok r ->
  In s r ->
  Js.isArray (label s) = false.
Proof.
  intros Hr Hs.
  pose proof (getSuggestions_all
                (fun s => Js.isArray (label s) = false)
                (fun v => Js.isArray v = false) fields suggestions currentValue
                true r) as H.
  rewrite Forall_forall in H. apply H; auto.
Qed.

Lemma distinct_labels_are_not_arrays_witness :
  exists r,
    getSuggestions ["tags"] [tagsDoc] "y" true = Ok r /\
    map label r = [VStr "y"] /\
    Js.isArray (VStr "y") = false /\
    labelsOf (getSuggestions ["tags"] [tagsDoc] "" false)
    = Some [VStr "x"; VStr "y"; VArr (Fresh 0) [VStr "x"; VStr "y"]].
Proof.
  exists [mkSuggestion (VStr "y") (VStr "y") tagsDoc].
  assert (Hr : getSuggestions ["tags"] [tagsDoc] "y" true
               = Ok [mkSuggestion (VStr "y") (VStr "y") tagsDoc])
    by (vm_compute; reflexivity).
  split; [exact Hr|]. split; [reflexivity|]. split.
  - apply (distinct_labels_are_not_arrays _ _ _ _
             (mkSuggestion (VStr "y") (VStr "y") tagsDoc) Hr).
    left. reflexivity.
  - vm_compute. reflexivity.
Defined.

(** X13.  In distinct mode, with fields that name a single key, one
    traversal adds at most one suggestion for each document, so the list
    returned has fewer than twice as many entries as there are documents
    (the second pass adds to the list of the first). *)
Theorem distinct_single_node_bound (fields : list string) (suggestions : list Value)
        (currentValue : string) (r : list Suggestion) :
  forallb singleNode fields = true ->
  getSuggestions fields suggestions currentValue true = Ok r ->
  (List.length r <= List.length suggestions + (List.length suggestions - 1))%nat /\
  (forall st u st',
      traverseSuggestions fields suggestions currentValue true st = Ok (u, st') ->
      (List.length (suggestionsList st')
       <= List.length (suggestionsList st) + List.length suggestions)%nat).
Proof.
  intros Hf Hr. split.
  - apply (getSuggestions_distinct_bound currentValue fields); assumption.
  - apply traverse_distinct_bound. exact Hf.
Qed.

Lemma distinct_single_node_bound_witness :
  forallb singleNode ["a"; "b"] = true /\
  exists r,
    getSuggestions ["a"; "b"] twoFieldDocs "x" true = Ok r /\
    List.length r = 3%nat /\
    (List.length r <= List.length twoFieldDocs + (List.length twoFieldDocs - 1))%nat.
Proof.
  split; [reflexivity|].
  eexists. split; [vm_compute; reflexivity|]. split; [reflexivity|].
  apply (distinct_single_node_bound ["a"; "b"] twoFieldDocs "x"); reflexivity.
Defined.

(** ** The search term *)

Lemma forEach_ext {S A B : Type} (f g : A -> M S B) (l : list A) :
  (forall x st, f x st = g x st) -> forall st, forEach f l st = forEach g l st.
Proof.
  intros H. induction l as [|x t IH]; intros st; [reflexivity|].
  cbn [forEach]. unfold bind. rewrite H. destruct (g x st) as [[y st1]|]; auto.
Qed.

Lemma some_ext {S A : Type} (f g : A -> M S bool) (l : list A) :
  (forall x st, f x st = g x st) -> forall st, some f l st = some g l st.
Proof.
  intros H. induction l as [|x t IH]; intros st; [reflexivity|].
  cbn [some]. unfold bind. rewrite H.
  destruct (g x st) as [[[|] st1]|]; auto.
Qed.

Lemma bind_ext {S A B : Type} (m m' : M S A) (k k' : A -> M S B) (st : S) :
  (forall s, m s = m' s) -> (forall a s, k a s = k' a s) ->
  bind m k st = bind m' k' st.
Proof.
  intros Hm Hk. unfold bind. rewrite Hm. destruct (m' st) as [[a s]|]; auto.
Qed.

Section SameWordMatch.

Variables (term term' : string).
Hypothesis same_match :
  forall skip val, isWordMatch term skip val = isWordMatch term' skip val.

Lemma populate_term_ext (d : bool) val parsedSource source st :
  populateSuggestionsList term d val parsedSource source st
  = populateSuggestionsList term' d val parsedSource source st.
Proof. unfold populateSuggestionsList. rewrite same_match. reflexivity. Qed.

Lemma parseFieldNodes_term_ext (d : bool) (rest : list string) :
  forall node0 parsedSource source st,
    parseFieldNodes term d node0 rest parsedSource source st
    = parseFieldNodes term' d node0 rest parsedSource source st.
Proof.
  induction rest as [|node1 rest' IH]; intros node0 parsedSource source st;
    cbn [parseFieldNodes];
    (destruct (Js.typeof_object parsedSource); [|reflexivity]);
    (apply bind_ext; [reflexivity|]); intros lbl st1;
    (destruct (Js.truthy lbl); [|reflexivity]).
  - apply bind_ext; [reflexivity|]. intros val st2.
    destruct (Js.truthy val); [|reflexivity].
    destruct val; try apply populate_term_ext.
    destruct d.
    + apply some_ext. intros x s. apply populate_term_ext.
    + apply bind_ext.
      * intros s. apply forEach_ext. intros x s'. apply populate_term_ext.
      * intros u s. apply populate_term_ext.
  - destruct lbl; (apply bind_ext; [|reflexivity]); intros st2; try apply IH.
    apply forEach_ext. intros x st3. apply IH.
Qed.

Lemma traverseSuggestions_term_ext fields suggestions (d : bool) st :
  traverseSuggestions fields suggestions term d st
  = traverseSuggestions fields suggestions term' d st.
Proof.
  assert (Hf : forall item field s,
             parseField term d item field item s = parseField term' d item field item s).
  { intros item field s. unfold parseField.
    destruct (Str.split "." field); [reflexivity|]. apply parseFieldNodes_term_ext. }
  unfold traverseSuggestions. destruct d.
  - apply forEach_ext. intros item s. apply some_ext. intros field s'. apply Hf.
  - apply forEach_ext. intros item s. apply forEach_ext. intros field s'. apply Hf.
Qed.

Lemma getSuggestions_term_ext fields suggestions (d : bool) :
  getSuggestions fields suggestions term d = getSuggestions fields suggestions term' d.
Proof.
  unfold getSuggestions. rewrite traverseSuggestions_term_ext.
  destruct (traverseSuggestions _ _ term' d initial) as [[u st1]|]; [|reflexivity].
  rewrite traverseSuggestions_term_ext. reflexivity.
Qed.

End SameWordMatch.

Lemma trimEnd_idempotent (s : string) : Str.trimEnd (Str.trimEnd s) = Str.trimEnd s.
Proof.
  induction s as [|c t IH]; [reflexivity|].
  cbn [Str.trimEnd]. destruct (Str.trimEnd t) as [|c' t'] eqn:E.
  - destruct (Str.is_space c) eqn:Hc; [reflexivity|].
    cbn [Str.trimEnd]. rewrite Hc. reflexivity.
  - cbn [Str.trimEnd]. cbn [Str.trimEnd] in IH. rewrite IH. reflexivity.
Qed.

Lemma trimStart_head (s : string) :
  match Str.trimStart s with
  | EmptyString => True
  | String c _ => Str.is_space c = false
  end.
Proof.
  induction s as [|c t IH]; cbn [Str.trimStart]; [exact I|].
  destruct (Str.is_space c) eqn:Hc; [exact IH | exact Hc].
Qed.

Lemma trimStart_trimEnd (u : string) :
  match u with
  | EmptyString => True
  | String c _ => Str.is_space c = false
  end ->
  Str.trimStart (Str.trimEnd u) = Str.trimEnd u.
Proof.
  destruct u as [|c t]; [reflexivity|]. intros Hc.
  cbn [Str.trimEnd]. destruct (Str.trimEnd t); rewrite ?Hc;
    cbn [Str.trimStart]; rewrite Hc; reflexivity.
Qed.

Lemma trim_idempotent (s : string) : Str.trim (Str.trim s) = Str.trim s.
Proof.
  unfold Str.trim. rewrite (trimStart_trimEnd _ (trimStart_head s)).
  apply trimEnd_idempotent.
Qed.

(** X14.  Only the trimmed search term counts: two terms that are equal
    after trimming give the same suggestions, so white space before and
    after the term is ignored. *)
Theorem getSuggestions_ignores_outer_space (fields : list string)
        (suggestions : list Value) (term term' : string)
        (showDistinctSuggestions : bool) :
  Str.trim term = Str.trim term' ->
  getSuggestions fields suggestions term showDistinctSuggestions
  = getSuggestions fields suggestions term' showDistinctSuggestions /\
  getSuggestions fields suggestions (Str.trim term) showDistinctSuggestions
  = getSuggestions fields suggestions term showDistinctSuggestions.
Proof.
  intros H. split.
  - apply getSuggestions_term_ext. intros skip val. unfold isWordMatch.
    rewrite H. reflexivity.
  - apply getSuggestions_term_ext. intros skip val. unfold isWordMatch.
    rewrite trim_idempotent. reflexivity.
Qed.

Lemma getSuggestions_ignores_outer_space_witness :
  Str.trim "  x " = Str.trim "x" /\
  getSuggestions ["a"; "b"] twoFieldDocs "  x " true
  = getSuggestions ["a"; "b"] twoFieldDocs "x" true.
Proof.
  split; [reflexivity|].
  apply (getSuggestions_ignores_outer_space ["a"; "b"] twoFieldDocs "  x " "x" true).
  reflexivity.
Defined.

(** ** Letter case and blanks in the word match *)

Lemma is_upper_lower_char (c : ascii) : Str.is_upper (Str.lower_char c) = false.
Proof. destruct c as [[] [] [] [] [] [] [] []]; reflexivity. Qed.

Lemma hasUpper_toLowerCase (s : string) : hasUpper (Str.toLowerCase s) = false.
Proof.
  induction s as [|c t IH]; [reflexivity|].
  cbn [Str.toLowerCase hasUpper]. rewrite is_upper_lower_char, IH. reflexivity.
Qed.

Lemma toLowerCase_idempotent (s : string) :
  Str.toLowerCase (Str.toLowerCase s) = Str.toLowerCase s.
Proof.
  induction s as [|c t IH]; [reflexivity|].
  cbn [Str.toLowerCase]. rewrite IH. f_equal.
  unfold Str.lower_char at 1. rewrite is_upper_lower_char. reflexivity.
Qed.

Lemma prefix_hasUpper (t : string) :
  forall s, String.prefix t s = true -> hasUpper s = false -> hasUpper t = false.
Proof.
  induction t as [|a t IH]; intros s Hp Hs; [reflexivity|].
  destruct s as [|b s]; [discriminate|]. cbn [String.prefix] in Hp.
  destruct (ascii_dec a b) as [->|]; [|discriminate].
  cbn [hasUpper] in *. apply orb_false_iff in Hs as [Hb Hs].
  rewrite Hb. cbn [orb]. exact (IH s Hp Hs).
Qed.

Lemma includes_hasUpper (s t : string) :
  Str.includes s t = true -> hasUpper s = false -> hasUpper t = false.
Proof.
  induction s as [|c s IH]; cbn [Str.includes]; intros Hi Hs.
  - rewrite orb_false_r in Hi. exact (prefix_hasUpper t _ Hi Hs).
  - apply orb_true_iff in Hi as [Hp|Hi]; [exact (prefix_hasUpper t _ Hp Hs)|].
    cbn [hasUpper] in Hs. apply orb_false_iff in Hs as [_ Hs]. exact (IH Hi Hs).
Qed.

(** X15.  A search term whose words all have an upper-case letter matches
    no candidate: the candidate is lower-cased, the words are not.  Such a
    term is a word match only when [skipWordMatch] is set (the test answers
    false for every candidate that prints, and throws for one that does
    not), and in the first pass a candidate is then accepted only from a
    promoted document. *)
Theorem upper_case_term_never_matches (term : string) (val : Value) :
  (forall t, In t (Str.split " " (Str.trim term)) -> hasUpper t = true) ->
  isWordMatch term false val = rbind (Js.toString val) (fun _ => Ok false) /\
  isWordMatch term false val <> Ok true /\
  isWordMatch term true val = Ok true /\
  (forall d parsedSource source st s,
      skipWordMatch st = false -> Js.isNullish source = false ->
      isPromoted source = false ->
      Js.toString val = Ok s ->
      populateSuggestionsList term d val parsedSource source st
      = Ok (false, log val st)).
Proof.
  intros Hup.
  assert (Hm : isWordMatch term false val = rbind (Js.toString val) (fun _ => Ok false)).
  { destruct (Js.toString val) as [s|e] eqn:Hv; cbn [rbind].
    - rewrite (isWordMatch_printed _ _ _ _ Hv). cbn [orb]. f_equal.
      apply not_true_is_false. intros H.
      apply existsb_exists in H as (t & Hin & Hinc).
      apply includes_hasUpper in Hinc; [|apply hasUpper_toLowerCase].
      rewrite (Hup t Hin) in Hinc. discriminate.
    - apply isWordMatch_throws. exact Hv. }
  split; [exact Hm|]. split; [|split; [reflexivity|]].
  - rewrite Hm. destruct (Js.toString val); cbn [rbind]; discriminate.
  - intros d parsedSource source st s Hskip Hs Hp Hv.
    unfold populateSuggestionsList. cbn [log skipWordMatch labelsList].
    rewrite Hskip, Hm, Hv. cbn [rbind andb]. unfold isPromoted in Hp.
    destruct (get_returns source "_promoted" Hs) as [p Hg]. rewrite Hg in *.
    rewrite Hp. reflexivity.
Qed.

Lemma upper_case_term_never_matches_witness :
  (forall t, In t (Str.split " " (Str.trim "New York")) -> hasUpper t = true) /\
  isWordMatch "New York" false (VStr "New York") = Ok false.
Proof.
  assert (H : forall t, In t (Str.split " " (Str.trim "New York")) -> hasUpper t = true).
  { intros t [<-|[<-|[]]]; reflexivity. }
  split; [exact H|].
  destruct (upper_case_term_never_matches "New York" (VStr "New York") H) as [Hm _].
  exact Hm.
Defined.

(** X16.  The letter case of the candidate does not count: a string and
    its lower-cased form are word matches for the same terms. *)
Theorem candidate_case_is_ignored (term : string) (skip : bool) (s : string) :
  isWordMatch term skip (VStr s) = isWordMatch term skip (VStr (Str.toLowerCase s)).
Proof.
  rewrite (isWordMatch_printed term skip (VStr s) s eq_refl).
  rewrite (isWordMatch_printed term skip (VStr (Str.toLowerCase s)) _ eq_refl).
  rewrite toLowerCase_idempotent. reflexivity.
Qed.

Lemma split_double_space (a b : string) :
  In "" (tl (Str.split " " (String.append a (String.append "  " b)))).
Proof.
  induction a as [|c a IH].
  - cbn. left. reflexivity.
  - cbn [String.append Str.split]. destruct (Ascii.eqb c " ").
    + cbn [tl]. destruct (Str.split " " _) as [|w ws]; [destruct IH|]. right. exact IH.
    + destruct (Str.split " " _) as [|w ws]; [destruct IH|]. exact IH.
Qed.

(** X17.  Two blanks in a row inside the trimmed search term give an empty
    word, and the empty word occurs in every candidate: such a term matches
    everything that prints. *)
Theorem double_space_matches_everything (term a b : string) (skip : bool) (val : Value) :
  Str.trim term = String.append a (String.append "  " b) ->
  isWordMatch term skip val
  = if skip then Ok true else rbind (Js.toString val) (fun _ => Ok true).
Proof.
  intros H. destruct skip; [reflexivity|].
  destruct (Js.toString val) as [s|e] eqn:Hv; cbn [rbind];
    [|apply isWordMatch_throws; exact Hv].
  rewrite (isWordMatch_printed _ _ _ _ Hv), H. cbn [orb]. f_equal.
  apply existsb_exists. exists "". split; [|apply includes_empty].
  pose proof (split_double_space a b) as Hin.
  destruct (Str.split " " _) as [|w ws]; [destruct Hin|]. right. exact Hin.
Qed.

Lemma double_space_matches_everything_witness :
  Str.trim "red  shoe" = String.append "red" (String.append "  " "shoe") /\
  isWordMatch "red  shoe" false (VStr "blue hat") = Ok true.
Proof.
  split; [reflexivity|].
  apply (double_space_matches_everything "red  shoe" "red" "shoe" false (VStr "blue hat")).
  reflexivity.
Defined.

(** ** Buckets with a scalar key *)

(** X18.  For a bucket with a [key], other than [null] and [undefined],
    for which [key[aggFieldName]] is [undefined] (the key of a terms
    aggregation, say, which is the term itself) the record's [_key] is the
    key itself, unless the aggregation document has a field [_key] of its
    own, which then wins. *)
Theorem parseCompAggToHits_scalar_key (aggFieldName : string) (r : ref)
        (bucket key : Value) :
  Js.get bucket "key" = Ok key ->
  Js.isNullish key = false ->
  Js.get key aggFieldName = Ok VUndef ->
  exists hit data,
    parseCompAggToHits aggFieldName (VArr r [bucket]) = Ok [hit] /\
    Js.get bucket aggFieldName = Ok data /\
    Js.lookup hit "_key"
    = (if Js.has_key (Js.spread data) "_key"
       then Js.lookup (Js.spread data) "_key" else key).
Proof.
  intros Hkey Hnn Hkf.
  assert (Hk : keyed bucket = true).
  { unfold keyed. rewrite Hkey, Hnn. reflexivity. }
  destruct (compAggHit_keyed aggFieldName bucket Hk)
    as (dc & key' & data & kf & Hdc & Hkey' & Hdata & Hkf' & Hc).
  rewrite Hkey in Hkey'. injection Hkey' as <-.
  rewrite Hkf in Hkf'. injection Hkf' as <-.
  eexists. exists data. cbn [parseCompAggToHits rmap]. rewrite Hc. cbn [rbind].
  split; [reflexivity|]. split; [exact Hdata|].
  rewrite lookup_assign by apply dedupe_NoDup.
  destruct (Js.has_key (Js.spread data) "_key"); reflexivity.
Qed.

Lemma parseCompAggToHits_scalar_key_witness :
  (exists hit,
      parseCompAggToHits "color"
        (arr 0 [obj 1 [("key", VStr "red"); ("doc_count", VNum (Fin 2))]]) = Ok [hit] /\
      Js.lookup hit "_key" = VStr "red") /\
  (exists hit,
      parseCompAggToHits "color"
        (arr 0 [obj 1 [("key", VStr "red"); ("doc_count", VNum (Fin 2));
                       ("color", obj 2 [("_key", VStr "mine")])]]) = Ok [hit] /\
      Js.lookup hit "_key" = VStr "mine").
Proof.
  split.
  - destruct (parseCompAggToHits_scalar_key "color" (Input 0)
                (obj 1 [("key", VStr "red"); ("doc_count", VNum (Fin 2))]) (VStr "red")
                eq_refl eq_refl eq_refl) as (hit & data & E & Hd & Hk).
    exists hit. split; [exact E|]. rewrite Hk.
    injection Hd as <-. reflexivity.
  - destruct (parseCompAggToHits_scalar_key "color" (Input 0)
                (obj 1 [("key", VStr "red"); ("doc_count", VNum (Fin 2));
                        ("color", obj 2 [("_key", VStr "mine")])]) (VStr "red")
                eq_refl eq_refl eq_refl) as (hit & data & E & Hd & Hk).
    exists hit. split; [exact E|]. rewrite Hk.
    injection Hd as <-. reflexivity.
Defined.

(** ** Coverage: what the second pass is for *)

Lemma accepted_covers currentValue v item st :
  covered v (if accepted currentValue v item st
             then accept v item (log v st) else log v st) \/
  (accepted currentValue v item st = false /\
   wordMatches currentValue (skipWordMatch st) v = false).
Proof.
  unfold covered. destruct (accepted currentValue v item st) eqn:Ha.
  - left. cbn [accept log labelsList]. unfold Js.includes. rewrite existsb_app.
    cbn [existsb]. rewrite same_value_zero_refl, orb_true_r. reflexivity.
  - unfold accepted in Ha. apply orb_false_iff in Ha as [Ha _].
    apply andb_false_iff in Ha as [Hm|Hn].
    + right. split; [reflexivity | exact Hm].
    + left. apply negb_false_iff in Hn. exact Hn.
Qed.

(** A pass with [skipWordMatch] set covers every document. *)
Lemma skip_pass_covers currentValue field node (suggestions : list Value) :
  Str.split "." field = [node] ->
  forallb (hasScalar node) suggestions = true ->
  forall st u st',
    skipWordMatch st = true ->
    traverseSuggestions [field] suggestions currentValue true st = Ok (u, st') ->
    forall item v, In item suggestions -> Js.get item node = Ok v -> covered v st'.
Proof.
  intros Hs. induction suggestions as [|d t IH]; intros Hall st u st' Hskip H item v Hin Hg;
    [destruct Hin|].
  cbn [forallb] in Hall. apply andb_true_iff in Hall as [Hd Ht].
  cbn [traverseSuggestions forEach] in H. unfold bind at 1 in H.
  destruct (some _ [field] st) as [[b st1]|] eqn:E; [|discriminate].
  destruct (distinct_step_cases _ _ _ _ _ _ _ Hs Hd E) as (v0 & Hg0 & _ & Hst1).
  assert (Hskip1 : skipWordMatch st1 = true).
  { rewrite Hst1. destruct (accepted _ _ _ _); exact Hskip. }
  destruct Hin as [->|Hin].
  - rewrite Hg in Hg0. injection Hg0 as <-.
    apply (covered_after [field] t currentValue true v st1 u st' H).
    rewrite Hst1. destruct (accepted_covers currentValue v item st) as [Hc|[_ Hm]];
      [exact Hc|].
    rewrite Hskip in Hm. unfold wordMatches, isWordMatch in Hm. discriminate.
  - apply (IH Ht st1 u st' Hskip1 H item v Hin Hg).
Qed.

(** A pass that adds as many suggestions as there are documents covers
    every document. *)
Lemma full_pass_covers currentValue field node (suggestions : list Value) :
  Str.split "." field = [node] ->
  forallb (hasScalar node) suggestions = true ->
  forall st u st',
    traverseSuggestions [field] suggestions currentValue true st = Ok (u, st') ->
    (List.length (suggestionsList st) + List.length suggestions
     <= List.length (suggestionsList st'))%nat ->
    forall item v, In item suggestions -> Js.get item node = Ok v -> covered v st'.
Proof.
  intros Hs.
  assert (Hsingle : forallb singleNode [field] = true).
  { cbn. unfold singleNode. rewrite Hs. reflexivity. }
  induction suggestions as [|d t IH]; intros Hall st u st' H Hlen item v Hin Hg;
    [destruct Hin|].
  cbn [forallb] in Hall. apply andb_true_iff in Hall as [Hd Ht].
  cbn [traverseSuggestions forEach] in H. unfold bind at 1 in H.
  destruct (some _ [field] st) as [[b st1]|] eqn:E; [|discriminate].
  destruct (distinct_step_cases _ _ _ _ _ _ _ Hs Hd E) as (v0 & Hg0 & _ & Hst1).
  pose proof (traverse_distinct_bound currentValue [field] t Hsingle st1 u st' H) as Hb.
  cbn [List.length] in Hlen.
  destruct (accepted currentValue v0 d st) eqn:Ha.
  - assert (Hl1 : List.length (suggestionsList st1) = S (List.length (suggestionsList st))).
    { rewrite Hst1. cbn. rewrite length_app. cbn. lia. }
    destruct Hin as [->|Hin].
    + rewrite Hg in Hg0. injection Hg0 as <-.
      apply (covered_after [field] t currentValue true v st1 u st' H).
      rewrite Hst1. destruct (accepted_covers currentValue v item st) as [Hc|[Hn _]].
      * rewrite Ha in Hc. exact Hc.
      * congruence.
    + assert (Hlen1 : (List.length (suggestionsList st1) + List.length t
                       <= List.length (suggestionsList st'))%nat) by lia.
      exact (IH Ht st1 u st' H Hlen1 item v Hin Hg).
  - exfalso. assert (Hl1 : suggestionsList st1 = suggestionsList st)
      by (rewrite Hst1; reflexivity).
    rewrite Hl1 in Hb. lia.
Qed.

(** X19.  With one field naming a single key, in distinct mode, over
    documents that all hold a truthy scalar under that key, no document is
    lost: the value of every document is the label of some suggestion
    returned, whatever the search term (this is what the second pass is
    for). *)
Theorem getSuggestions_covers_every_document
        (field node : string) (suggestions : list Value) (currentValue : string)
        (r : list Suggestion) (item v : Value) :
  Str.split "." field = [node] ->
  forallb (hasScalar node) suggestions = true ->
  getSuggestions [field] suggestions currentValue true = Ok r ->
  In item suggestions ->
  Js.get item node = Ok v ->
  exists s, In s r /\ Js.same_value_zero (label s) v = true.
Proof.
  intros Hs Hall Hr Hin Hg.
  assert (Hcov : exists st, suggestionsList st = r /\ labelsInv st /\ covered v st).
  { unfold getSuggestions in Hr.
    destruct (traverseSuggestions _ _ _ _ initial) as [[u st1]|] eqn:E1; [|discriminate].
    pose proof (traverseSuggestions_labelsInv _ _ _ _ _ _ _ E1 labelsInv_initial) as I1.
    pose proof (traverseSuggestions_skip _ _ _ _ _ _ _ E1) as Hskip. cbn in Hskip.
    rewrite Hskip in Hr. cbn [negb] in Hr. rewrite andb_true_r in Hr.
    destruct (List.length (suggestionsList st1) <? List.length suggestions)%nat eqn:Hlt.
    - destruct (traverseSuggestions _ _ _ _ (setSkipWordMatch st1)) as [[u2 st2]|] eqn:E2;
        [|discriminate].
      injection Hr as <-. exists st2. split; [reflexivity|]. split.
      + apply (traverseSuggestions_labelsInv _ _ _ _ _ _ _ E2).
        apply labelsInv_setSkip. exact I1.
      + apply (skip_pass_covers _ _ _ _ Hs Hall (setSkipWordMatch st1) _ _ eq_refl E2
                                  item v Hin Hg).
    - injection Hr as <-. exists st1. split; [reflexivity|]. split; [exact I1|].
      apply Nat.ltb_ge in Hlt.
      assert (Hlen : (List.length (suggestionsList initial) + List.length suggestions
                      <= List.length (suggestionsList st1))%nat) by (cbn; lia).
      exact (full_pass_covers _ _ _ _ Hs Hall _ _ _ E1 Hlen item v Hin Hg). }
  destruct Hcov as (st & <- & [Hmap _] & Hc).
  unfold covered, Js.includes in Hc. rewrite <- Hmap in Hc.
  apply existsb_exists in Hc as (x & Hx & Hsame).
  apply in_map_iff in Hx as (s & <- & Hs'). exists s. split; assumption.
Qed.

Lemma getSuggestions_covers_every_document_witness :
  Str.split "." "a" = ["a"] /\
  forallb (hasScalar "a") twoFieldDocs = true /\
  exists r s,
    getSuggestions ["a"] twoFieldDocs "zz" true = Ok r /\
    In s r /\ Js.same_value_zero (label s) (VStr "y") = true.
Proof.
  split; [reflexivity|]. split; [reflexivity|].
  assert (Hr : exists r, getSuggestions ["a"] twoFieldDocs "zz" true = Ok r)
    by (eexists; vm_compute; reflexivity).
  destruct Hr as [r Hr]. exists r.
  destruct (getSuggestions_covers_every_document "a" "a" twoFieldDocs "zz" r
              (obj 1 [("a", VStr "y")]) (VStr "y") eq_refl eq_refl Hr
              (or_intror (or_introl eq_refl)) eq_refl) as (s & Hin & Hsame).
  exists s. split; [exact Hr|]. split; assumption.
Defined.

(** ** Promoted documents *)

Lemma forEach_visits {S A B : Type} (R : S -> S -> Prop) (f : A -> M S B)
      (l : list A) (x : A) :
  (forall s, R s s) ->
  (forall a b c, R a b -> R b c -> R a c) ->
  (forall y, preserves R (f y)) ->
  In x l ->
  forall st u st',
    forEach f l st = Ok (u, st') ->
    exists st0 b st1, f x st0 = Ok (b, st1) /\ R st1 st'.
Proof.
  intros R_refl R_trans Hf. induction l as [|z t IH]; intros Hin st u st' H;
    [destruct Hin|].
  cbn [forEach] in H. unfold bind in H.
  destruct (f z st) as [[b st1]|] eqn:E; [|discriminate].
  destruct Hin as [->|Hin].
  - exists st, b, st1. split; [exact E|].
    apply (preserves_forEach R R_refl R_trans f t Hf _ _ _ H).
  - apply (IH Hin st1 u st' H).
Qed.

Lemma single_field_step currentValue (d : bool) field node item v st b' st' :
  Str.split "." field = [node] ->
  hasScalar node item = true ->
  Js.get item node = Ok v ->
  (if d
   then some (fun f => parseField currentValue d item f item) [field] st
        = Ok (b', st')
   else exists u, forEach (fun f => parseField currentValue d item f item) [field] st
                  = Ok (u, st')) ->
  exists b, populateSuggestionsList currentValue d v item item st = Ok (b, st').
Proof.
  intros Hs Hd Hg H. unfold hasScalar in Hd. apply andb_true_iff in Hd as [Ho Hd].
  rewrite Hg in Hd. apply andb_true_iff in Hd as [Ht Hv]. apply negb_true_iff in Hv.
  destruct d.
  - rewrite (distinct_step _ _ _ _ _ _ Hs Ho Hg Ht Hv) in H.
    destruct (populateSuggestionsList _ _ _ _ _ _) as [[b1 st1]|]; [|discriminate].
    injection H as _ <-. eauto.
  - destruct H as [u H]. cbn [forEach] in H. unfold bind at 1 in H.
    unfold parseField in H. rewrite Hs in H.
    rewrite (parseNodes_terminal_scalar _ _ node item item v st Ho Hg Ht Hv) in H.
    destruct (populateSuggestionsList _ _ _ _ _ _) as [[b1 st1]|]; [|discriminate].
    injection H as _ <-. eauto.
Qed.

(** X20.  A promoted document is always suggested: with one field naming
    a single key under which the document holds a truthy scalar, the list
    returned has an entry with that value as label and the document as
    source, in either mode and whatever the search term. *)
Theorem promoted_document_is_suggested
        (field node : string) (suggestions : list Value) (currentValue : string)
        (showDistinctSuggestions : bool) (r : list Suggestion) (item v : Value) :
  Str.split "." field = [node] ->
  In item suggestions ->
  hasScalar node item = true ->
  Js.get item node = Ok v ->
  isPromoted item = true ->
  getSuggestions [field] suggestions currentValue showDistinctSuggestions = Ok r ->
  In (mkSuggestion v v item) r.
Proof.
  intros Hs Hin Hd Hg Hp Hr.
  assert (Hpass : forall st u st',
             traverseSuggestions [field] suggestions currentValue
                                 showDistinctSuggestions st = Ok (u, st') ->
             In (mkSuggestion v v item) (suggestionsList st')).
  { intros st u st' H.
    assert (Hstep : exists st0 b st1,
               populateSuggestionsList currentValue showDistinctSuggestions
                                       v item item st0 = Ok (b, st1) /\
               extends st1 st').
    { assert (Hfield : forall d y f,
                 preserves extends (parseField currentValue d y f y)).
      { intros d y f. apply parseField_preserves;
          [apply extends_refl | apply extends_trans | intros; apply populate_extends|].
        intros val s x s' Hx. apply extract_cases in Hx as (Hx & _).
        exists []. rewrite app_nil_r. exact Hx. }
      unfold traverseSuggestions in H. destruct showDistinctSuggestions.
      - assert (Hpres : forall y,
                   preserves extends
                     (some (fun f => parseField currentValue true y f y) [field])).
        { intros y. apply preserves_some; [apply extends_refl | apply extends_trans|].
          intros f. apply Hfield. }
        destruct (forEach_visits extends _ suggestions item extends_refl extends_trans
                                 Hpres Hin st u st' H) as (st0 & b & st1 & E & Hext).
        destruct (single_field_step currentValue true field node item v st0 b st1
                                    Hs Hd Hg E) as [b0 E0].
        exists st0, b0, st1. split; assumption.
      - assert (Hpres : forall y,
                   preserves extends
                     (forEach (fun f => parseField currentValue false y f y) [field])).
        { intros y. apply preserves_forEach; [apply extends_refl | apply extends_trans|].
          intros f. apply Hfield. }
        destruct (forEach_visits extends _ suggestions item extends_refl extends_trans
                                 Hpres Hin st u st' H) as (st0 & b & st1 & E & Hext).
        destruct (single_field_step currentValue false field node item v st0 false st1
                                    Hs Hd Hg (ex_intro _ b E)) as [b0 E0].
        exists st0, b0, st1. split; assumption. }
    destruct Hstep as (st0 & b & st1 & E & [added Hext]).
    apply populate_cases in E as [_ ->].
    assert (Ha : accepted currentValue v item st0 = true).
    { unfold accepted. rewrite Hp. apply orb_true_r. }
    rewrite Ha in Hext. cbn [accept log suggestionsList] in Hext.
    rewrite Hext. apply in_or_app. left. apply in_or_app. right. left. reflexivity. }
  unfold getSuggestions in Hr.
  destruct (traverseSuggestions _ _ _ _ initial) as [[u st1]|] eqn:E1; [|discriminate].
  destruct (_ && _).
  - destruct (traverseSuggestions _ _ _ _ (setSkipWordMatch st1)) as [[u2 st2]|] eqn:E2;
      [|discriminate].
    injection Hr as <-. apply (Hpass _ _ _ E2).
  - injection Hr as <-. apply (Hpass _ _ _ E1).
Qed.

Lemma promoted_document_is_suggested_witness :
  exists r,
    getSuggestions ["a"] promotedDocs "nomatch" false = Ok r /\
    In (mkSuggestion (VStr "x") (VStr "x")
                     (obj 1 [("a", VStr "x"); ("_promoted", VBool true)])) r.
Proof.
  assert (Hr : exists r, getSuggestions ["a"] promotedDocs "nomatch" false = Ok r)
    by (eexists; vm_compute; reflexivity).
  destruct Hr as [r Hr]. exists r. split; [exact Hr|].
  apply (promoted_document_is_suggested "a" "a" promotedDocs "nomatch" false r
           (obj 1 [("a", VStr "x"); ("_promoted", VBool true)]) (VStr "x"));
    try reflexivity; [right; left; reflexivity | exact Hr].
Defined.
